(** * A CPU micro-benchmark harness: prime sieve, matrix multiply, Mandelbrot

    Shallow embedding of [sample/main.c] and the properties of its three
    kernels and of the sequencing harness.

    Conventions of the embedding.
    - A C [int] is a [Z] in the range [INT_MIN .. INT_MAX]; an arithmetic
      operation whose mathematical result leaves that range is undefined
      behaviour in C and yields [Undefined] here.
    - A heap buffer is a list; a read or write outside of it yields
      [Undefined].
    - [malloc], [fopen] and the clock answer as the environment decides;
      the program threads a state that counts the calls made so far and
      collects what was printed and written.
    - A loop is a function on a fuel counter; [OutOfFuel] is an artefact of
      the embedding: every kernel gets more fuel than its loops can use, and
      the theorems show the result [Done].
    - A C [double] is a primitive binary64 float and every operation rounds
      on its own (no fused multiply-add, no wider intermediate format). *)

From Stdlib Require Import ZArith Zdivisibility Lia List Bool Uint63 Floats Ascii String.
From stdpp Require Import base tactics option list list_numbers strings gmap.

Local Open Scope Z_scope.

(** ** Outcomes of a C fragment *)

Inductive outcome (A : Type) : Type :=
| Done (a : A)
| Undefined
| OutOfFuel.

Arguments Done {A} a.
Arguments Undefined {A}.
Arguments OutOfFuel {A}.

Definition bind {A B : Type} (m : outcome A) (k : A -> outcome B) : outcome B :=
  match m with
  | Done a => k a
  | Undefined => Undefined
  | OutOfFuel => OutOfFuel
  end.

Notation "'do' x <- m ; k" := (bind m (fun x => k))
  (at level 10, x name, m at level 100, k at level 200,
   format "'[v' 'do'  x  <-  m ; '/' k ']'").

(** ** The C [int] type *)

Definition INT_MAX : Z := 2147483647.
Definition INT_MIN : Z := -2147483648.

Definition in_int (z : Z) : bool := (INT_MIN <=? z) && (z <=? INT_MAX).

Definition int_of (z : Z) : outcome Z :=
  if in_int z then Done z else Undefined.

Definition add_int (a b : Z) : outcome Z := int_of (a + b).
Definition mul_int (a b : Z) : outcome Z := int_of (a * b).

(** Conversion of an [int] to [size_t] (64 bits, modular). *)
Definition SIZE_WIDTH : Z := 64.
Definition size_t_of (z : Z) : Z := z mod 2 ^ SIZE_WIDTH.

(** ** Heap buffers *)

Section Buffers.
Context {T : Type}.

Definition load (a : list T) (i : Z) : outcome T :=
  if 0 <=? i then
    match a !! Z.to_nat i with
    | Some v => Done v
    | None => Undefined
    end
  else Undefined.

Definition store (a : list T) (i : Z) (v : T) : outcome (list T) :=
  if (0 <=? i) && (i <? Z.of_nat (length a))
  then Done (<[Z.to_nat i := v]> a)
  else Undefined.

Definition memset (a : list T) (v : T) (n : Z) : outcome (list T) :=
  if n <=? Z.of_nat (length a)
  then Done (replicate (Z.to_nat n) v ++ drop (Z.to_nat n) a)
  else Undefined.
End Buffers.

(** ** The environment and the program state *)

(** The line feed that ends a message. *)
Definition nl : string := String (ascii_of_N 10) EmptyString.

(** Lines the program prints on standard output.  Numbers are kept as
    values; their rendering by [printf] is not modelled. *)
Inductive line : Type :=
| LBanner
| LParams (limit msize width height : Z)
| LSieveStart (limit : Z)
| LSieveFound (count limit : Z) (dt : float)
| LMatrixStart (msize : Z)
| LMatrixChecksum (checksum : float)
| LMatrixTook (mat_time dt : float)
| LMandelStart (width height : Z)
| LMandelWrote (path : string) (dt : float)
| LSummaryHead
| LSummary (primes : Z) (mat_time mandel_time : float).

Record env : Type := {
  heap_ok : nat -> bool;        (* does the k-th call of malloc succeed *)
  fopen_ok : string -> bool;    (* can this path be opened for writing *)
  clock : nat -> float          (* the k-th reading of the clock *)
}.

Record state : Type := {
  mallocs : nat;                (* calls of malloc so far *)
  ticks : nat;                  (* readings of the clock so far *)
  out : list line;              (* standard output, oldest first *)
  err : list string;            (* standard error, oldest first *)
  fs : gmap string (list Z)     (* files written, as bytes *)
}.

Definition prog (A : Type) : Type := env -> state -> outcome (A * state).

Definition ret {A : Type} (a : A) : prog A := fun _ st => Done (a, st).

Definition pbind {A B : Type} (m : prog A) (k : A -> prog B) : prog B :=
  fun e st =>
    match m e st with
    | Done (a, st') => k a e st'
    | Undefined => Undefined
    | OutOfFuel => OutOfFuel
    end.

Definition lift {A : Type} (m : outcome A) : prog A :=
  fun _ st =>
    match m with
    | Done a => Done (a, st)
    | Undefined => Undefined
    | OutOfFuel => OutOfFuel
    end.

Notation "'let*' x ':=' m 'in' k" := (pbind m (fun x => k))
  (at level 10, x name, m at level 100, k at level 200,
   format "'[v' 'let*'  x  ':='  m  'in' '/' k ']'").

(** The state after one more call of [malloc], after one more reading of the
    clock, after a line on standard output or on standard error, after a file
    has been written. *)
Definition count_malloc (st : state) : state :=
  {| mallocs := S (mallocs st); ticks := ticks st;
     out := out st; err := err st; fs := fs st |}.
Definition count_tick (st : state) : state :=
  {| mallocs := mallocs st; ticks := S (ticks st);
     out := out st; err := err st; fs := fs st |}.
Definition add_out (l : line) (st : state) : state :=
  {| mallocs := mallocs st; ticks := ticks st;
     out := out st ++ [l]; err := err st; fs := fs st |}.
Definition add_err (s : string) (st : state) : state :=
  {| mallocs := mallocs st; ticks := ticks st;
     out := out st; err := err st ++ [s]; fs := fs st |}.
Definition with_file (path : string) (f : list Z) (st : state) : state :=
  {| mallocs := mallocs st; ticks := ticks st;
     out := out st; err := err st; fs := <[path := f]> (fs st) |}.

(** [malloc]: the environment decides whether the request is served.  The
    contents of a fresh buffer are indeterminate; every kernel overwrites
    each cell before reading it, so the filler [d] is never observed. *)
Definition malloc {T : Type} (d : T) (cells : Z) : prog (option (list T)) :=
  fun e st =>
    Done (if heap_ok e (mallocs st)
          then Some (replicate (Z.to_nat cells) d) else None,
          count_malloc st).

(** [now_seconds]: the next reading of the clock. *)
Definition now_seconds : prog float :=
  fun e st =>
    Done (clock e (ticks st), count_tick st).

Definition print (l : line) : prog unit :=
  fun _ st => Done (tt, add_out l st).

Definition eprint (s : string) : prog unit :=
  fun _ st => Done (tt, add_err s st).

(** ** PrimeSieve: [sieve_count_primes] *)

Module Sieve.

(** [for(q = p*p; q <= limit; q += p) isprime[q] = 0;] *)
Fixpoint mark_multiples (fuel : nat) (limit p q : Z) (isprime : list Z)
  : outcome (list Z) :=
  match fuel with
  | O => OutOfFuel
  | S fuel' =>
      if q <=? limit then
        do isprime' <- store isprime q 0;
        do q' <- add_int q p;
        mark_multiples fuel' limit p q' isprime'
      else Done isprime
  end.

(** [for(p = 2; p*p <= limit; ++p) if(isprime[p]) { ... }] *)
Fixpoint sieve_loop (fuel : nat) (limit p : Z) (isprime : list Z)
  : outcome (list Z) :=
  match fuel with
  | O => OutOfFuel
  | S fuel' =>
      do pp <- mul_int p p;
      if pp <=? limit then
        do flag <- load isprime p;
        do isprime' <- (if flag =? 0 then Done isprime
                        else do q0 <- mul_int p p;
                             mark_multiples (S (Z.to_nat limit)) limit p q0 isprime);
        do p' <- add_int p 1;
        sieve_loop fuel' limit p' isprime'
      else Done isprime
  end.

(** [for(i = 2; i <= limit; ++i) if(isprime[i]) ++cnt;] *)
Fixpoint count_loop (fuel : nat) (limit i : Z) (isprime : list Z) (cnt : Z)
  : outcome Z :=
  match fuel with
  | O => OutOfFuel
  | S fuel' =>
      if i <=? limit then
        do flag <- load isprime i;
        do cnt' <- (if flag =? 0 then Done cnt else add_int cnt 1);
        do i' <- add_int i 1;
        count_loop fuel' limit i' isprime cnt'
      else Done cnt
  end.

(** The flag array when the marking loop has finished:
    [memset(isprime, 1, n); isprime[0] = isprime[1] = 0;] and the loop. *)
Definition sieve_marks (limit n : Z) (buf : list Z) : outcome (list Z) :=
  do isprime <- memset buf 1 (size_t_of n);
  do isprime <- store isprime 1 0;
  do isprime <- store isprime 0 0;
  sieve_loop (S (Z.to_nat limit)) limit 2 isprime.

(** The function; its result is the value left in [*out_count]. *)
Definition sieve_count_primes (limit : Z) : prog Z :=
  let* n := lift (add_int limit 1) in
  let* isprime := malloc 0 (size_t_of n) in
  match isprime with
  | None =>
      let* _ := eprint ("malloc failed sieve" +:+ nl) in
      ret (-1)
  | Some buf =>
      lift (do isprime <- sieve_marks limit n buf;
            count_loop (S (Z.to_nat limit)) limit 2 isprime 0)
  end.

End Sieve.

(** ** C [double] and its conversions *)

(** [(double)z] for an [int] or [unsigned] value [z]. *)
Definition double_of_int (z : Z) : float :=
  if z <? 0 then (- of_uint63 (Uint63.of_Z (- z)))%float
  else of_uint63 (Uint63.of_Z z).

(** [(int)f]: the fractional part is discarded; undefined when the integral
    part is not an [int] (which covers infinities and NaN). *)
Definition int_of_double (f : float) : outcome Z :=
  match Prim2SF f with
  | S754_zero _ => Done 0
  | S754_finite s m e =>
      int_of (cond_Zopp s (if 0 <=? e then Zpos m * 2 ^ e
                           else Zpos m / 2 ^ (- e)))
  | _ => Undefined
  end.

(** [(unsigned char)z]. *)
Definition uchar (z : Z) : Z := z mod 256.

(** ** MatrixMultiplier: [matrix_mul_test] *)

Module Matrix.

Definition SEED : Z := 123456789.

(** [seed = seed * 1103515245 + 12345] on [unsigned int]. *)
Definition lcg (seed : Z) : Z := (seed * 1103515245 + 12345) mod 2 ^ 32.

(** [(double)(seed % 1000) / 100.0] *)
Definition cell (seed : Z) : float :=
  (double_of_int (Z.rem seed 1000) / 100)%float.

(** [(size_t)i*M + k] *)
Definition at_ (i M k : Z) : Z :=
  size_t_of (size_t_of (size_t_of i * size_t_of M) + size_t_of k).

Definition matrices : Type := (list float * list float * list float)%type.

(** [for(size_t i = 0; i < n; i++) { ... }] *)
Fixpoint init_loop (fuel : nat) (n i seed : Z) (abc : matrices)
  : outcome matrices :=
  match fuel with
  | O => OutOfFuel
  | S fuel' =>
      if i <? n then
        let '(A, B, C) := abc in
        let seed := lcg seed in
        do A <- store A i (cell seed);
        let seed := lcg seed in
        do B <- store B i (cell seed);
        do C <- store C i 0%float;
        init_loop fuel' n (size_t_of (i + 1)) seed (A, B, C)
      else Done abc
  end.

(** [for(int j = 0; j < M; j++) C[i*M + j] += aik * B[k*M + j];] *)
Fixpoint mul_j (fuel : nat) (M i k j : Z) (aik : float) (B C : list float)
  : outcome (list float) :=
  match fuel with
  | O => OutOfFuel
  | S fuel' =>
      if j <? M then
        do b <- load B (at_ k M j);
        do c <- load C (at_ i M j);
        do C <- store C (at_ i M j) (c + aik * b)%float;
        do j <- add_int j 1;
        mul_j fuel' M i k j aik B C
      else Done C
  end.

(** [for(int k = 0; k < M; k++) { double aik = A[i*M + k]; ... }] *)
Fixpoint mul_k (fuel : nat) (M i k : Z) (A B C : list float)
  : outcome (list float) :=
  match fuel with
  | O => OutOfFuel
  | S fuel' =>
      if k <? M then
        do aik <- load A (at_ i M k);
        do C <- mul_j (S (Z.to_nat M)) M i k 0 aik B C;
        do k <- add_int k 1;
        mul_k fuel' M i k A B C
      else Done C
  end.

(** [for(int i = 0; i < M; i++) { ... }] *)
Fixpoint mul_i (fuel : nat) (M i : Z) (A B C : list float)
  : outcome (list float) :=
  match fuel with
  | O => OutOfFuel
  | S fuel' =>
      if i <? M then
        do C <- mul_k (S (Z.to_nat M)) M i 0 A B C;
        do i <- add_int i 1;
        mul_i fuel' M i A B C
      else Done C
  end.

(** [(M > 8 ? M/8 : 1)] *)
Definition stride (M : Z) : Z := if 8 <? M then M ÷ 8 else 1.

(** [for(int i = 0; i < M; i += stride) checksum += C[i*M + (i%M)];] *)
Fixpoint checksum_loop (fuel : nat) (M i : Z) (C : list float) (checksum : float)
  : outcome float :=
  match fuel with
  | O => OutOfFuel
  | S fuel' =>
      if i <? M then
        do c <- load C (at_ i M (Z.rem i M));
        let checksum := (checksum + c)%float in
        do i <- add_int i (stride M);
        checksum_loop fuel' M i C checksum
      else Done checksum
  end.

(** [n = (size_t)M*M] and the cells that [malloc(sizeof(double)*n)] yields. *)
Definition cells (M : Z) : Z := size_t_of (size_t_of M * size_t_of M).
Definition alloc_cells (M : Z) : Z := size_t_of (8 * cells M) / 8.

Definition init (M : Z) (abc : matrices) : outcome matrices :=
  init_loop (S (Z.to_nat (cells M))) (cells M) 0 SEED abc.
Definition multiply (M : Z) (abc : matrices) : outcome (list float) :=
  let '(A, B, C) := abc in mul_i (S (Z.to_nat M)) M 0 A B C.
Definition checksum (M : Z) (C : list float) : outcome float :=
  checksum_loop (S (Z.to_nat M)) M 0 C 0%float.

(** The function; its result is the value left in [*out_time]. *)
Definition matrix_mul_test (M : Z) : prog float :=
  let* A := malloc 0%float (alloc_cells M) in
  let* B := malloc 0%float (alloc_cells M) in
  let* C := malloc 0%float (alloc_cells M) in
  match A, B, C with
  | Some A, Some B, Some C =>
      let* abc := lift (init M (A, B, C)) in
      let* t0 := now_seconds in
      let* C := lift (multiply M abc) in
      let* t1 := now_seconds in
      let out_time := (t1 - t0)%float in
      let* sum := lift (checksum M C) in
      let* _ := print (LMatrixChecksum sum) in
      ret out_time
  | _, _, _ =>
      let* _ := eprint ("malloc failed matrix" +:+ nl) in
      ret (-1)%float
  end.

End Matrix.

(** ** MandelbrotRasterizer: [mandelbrot_ppm] *)

Module Mandel.

(** [while(zx*zx + zy*zy <= 4.0 && iter < maxiter) { ... iter++; }];
    the result is the final [iter]. *)
Fixpoint escape (fuel : nat) (maxiter : Z) (cx cy zx zy : float) (iter : Z)
  : outcome Z :=
  match fuel with
  | O => OutOfFuel
  | S fuel' =>
      if (zx * zx + zy * zy <=? 4)%float && (iter <? maxiter) then
        let nx := (zx * zx - zy * zy + cx)%float in
        let ny := (2 * zx * zy + cy)%float in
        do iter <- add_int iter 1;
        escape fuel' maxiter cx cy nx ny iter
      else Done iter
  end.

(** The three bytes of [col] for a final iteration count. *)
Definition colour (iter maxiter : Z) : outcome (list Z) :=
  if iter =? maxiter then Done [0; 0; 0]
  else
    do c <- int_of_double (255 * double_of_int iter / double_of_int maxiter)%float;
    do c3 <- mul_int c 3;
    do c7 <- mul_int c 7;
    Done [uchar (Z.rem c 256); uchar (Z.rem c3 256); uchar (Z.rem c7 256)].

(** The point of the complex plane that pixel [(x, y)] stands for. *)
Definition point (width height x y : Z) : float * float :=
  (((double_of_int x - 0.5 * double_of_int width)
      * (3.5 / double_of_int width) - 0.5)%float,
   ((double_of_int y - 0.5 * double_of_int height)
      * (2 / double_of_int height))%float).

Definition iterations (width height maxiter x y : Z) : outcome Z :=
  let '(cx, cy) := point width height x y in
  escape (S (Z.to_nat maxiter)) maxiter cx cy 0 0 0.

(** The body of the inner loop: the bytes written for pixel [(x, y)]. *)
Definition pixel (width height maxiter x y : Z) : outcome (list Z) :=
  do iter <- iterations width height maxiter x y;
  colour iter maxiter.

(** [for(int x = 0; x < width; x++) { ...; fwrite(col, 1, 3, f); }];
    [f] is the content of the file so far. *)
Fixpoint row_loop (fuel : nat) (width height maxiter y x : Z) (f : list Z)
  : outcome (list Z) :=
  match fuel with
  | O => OutOfFuel
  | S fuel' =>
      if x <? width then
        do col <- pixel width height maxiter x y;
        do x <- add_int x 1;
        row_loop fuel' width height maxiter y x (f ++ col)
      else Done f
  end.

(** [for(int y = 0; y < height; y++) { ... }] *)
Fixpoint image_loop (fuel : nat) (width height maxiter y : Z) (f : list Z)
  : outcome (list Z) :=
  match fuel with
  | O => OutOfFuel
  | S fuel' =>
      if y <? height then
        do f <- row_loop (S (Z.to_nat width)) width height maxiter y 0 f;
        do y <- add_int y 1;
        image_loop fuel' width height maxiter y f
      else Done f
  end.

(** [printf]'s [%d]. *)
Definition digit (d : Z) : ascii := ascii_of_N (Z.to_N (48 + d)).

Fixpoint digits (fuel : nat) (n : Z) (acc : string) : string :=
  match fuel with
  | O => acc
  | S fuel' =>
      let acc := String (digit (n mod 10)) acc in
      if n <? 10 then acc else digits fuel' (n / 10) acc
  end.

Definition print_int (z : Z) : string :=
  if z <? 0 then String "-" (digits 10 (- z) EmptyString)
  else digits 10 z EmptyString.

(** ["P6\n%d %d\n255\n"] *)
Definition header (width height : Z) : string :=
  "P6" +:+ nl +:+ print_int width +:+ " " +:+ print_int height +:+ nl
    +:+ "255" +:+ nl.

Definition bytes (s : string) : list Z :=
  map (fun a => Z.of_N (N_of_ascii a)) (list_ascii_of_string s).

(** Everything the function writes to an opened file. *)
Definition image (width height maxiter : Z) : outcome (list Z) :=
  image_loop (S (Z.to_nat height)) width height maxiter 0
    (bytes (header width height)).

(** The function.  [fopen(path, "wb")] creates or truncates the file; the
    writes themselves are taken to succeed. *)
Definition mandelbrot_ppm (path : string) (width height maxiter : Z) : prog unit :=
  fun e st =>
    if fopen_ok e path then
      do f <- image width height maxiter;
      Done (tt, with_file path f st)
    else eprint ("Failed to open " +:+ path +:+ " for writing" +:+ nl) e st.

End Mandel.

(** ** Harness: [main] *)

Definition SIEVE_LIMIT : Z := 100000.
Definition MAT_SIZE : Z := 140.
Definition MAN_WIDTH : Z := 400.
Definition MAN_HEIGHT : Z := 300.
Definition MAN_MAXITER : Z := 256.

Definition outppm : string := "mandelbrot_test.ppm".

(** The result is the exit status. *)
Definition main : prog Z :=
  let* _ := print LBanner in
  let* _ := print (LParams SIEVE_LIMIT MAT_SIZE MAN_WIDTH MAN_HEIGHT) in
  let* _ := print (LSieveStart SIEVE_LIMIT) in
  let* t0 := now_seconds in
  let* prime_count := Sieve.sieve_count_primes SIEVE_LIMIT in
  let* t1 := now_seconds in
  let* _ := print (LSieveFound prime_count SIEVE_LIMIT (t1 - t0)) in
  let* _ := print (LMatrixStart MAT_SIZE) in
  let* t2 := now_seconds in
  let* mat_time := Matrix.matrix_mul_test MAT_SIZE in
  let* t3 := now_seconds in
  let* _ := print (LMatrixTook mat_time (t3 - t2)) in
  let* _ := print (LMandelStart MAN_WIDTH MAN_HEIGHT) in
  let* t4 := now_seconds in
  let* _ := Mandel.mandelbrot_ppm outppm MAN_WIDTH MAN_HEIGHT MAN_MAXITER in
  let* t5 := now_seconds in
  let* _ := print (LMandelWrote outppm (t5 - t4)) in
  let* _ := print LSummaryHead in
  let* _ := print (LSummary prime_count mat_time (t5 - t4)) in
  ret 0.

(** ** Reference notions the kernels are compared with *)

(** Primality by trial division, and the primes of [[2, limit]]. *)
Definition primeb (n : Z) : bool :=
  (1 <? n) && forallb (fun d => negb (n mod d =? 0)) (seqZ 2 (n - 2)).

Definition primes_upto (limit : Z) : list Z :=
  List.filter primeb (seqZ 2 (limit - 1)).

Definition num_primes (limit : Z) : Z := Z.of_nat (length (primes_upto limit)).

(** The indices of [[2, limit]] whose flag is not 0. *)
Definition still_flagged (limit : Z) (flags : list Z) : list Z :=
  List.filter (fun i => negb (default 0 (flags !! Z.to_nat i) =? 0)) (seqZ 2 (limit - 1)).

(** The first [limit] for which [p*p] leaves [int] before the marking loop
    can stop: [46340 * 46340]. *)
Definition SIEVE_BOUND : Z := 2147395600.

(** The buffer a successful [malloc] of the matrix kernel yields, the three
    matrices after initialisation, and the product matrix: functions of the
    size alone. *)
Definition fresh (M : Z) : list float :=
  replicate (Z.to_nat (Matrix.alloc_cells M)) 0%float.

Definition generated (M : Z) : outcome Matrix.matrices :=
  Matrix.init M (fresh M, fresh M, fresh M).

Definition product (M : Z) : outcome (list float) :=
  do abc <- generated M;
  Matrix.multiply M abc.

(** The checksum the kernel prints when allocation succeeds. *)
Definition checksum_of (M : Z) : outcome float :=
  do C <- product M;
  Matrix.checksum M C.

(** The state after a run of the matrix kernel that printed [sum]. *)
Definition after_matrix (sum : float) (st : state) : state :=
  add_out (LMatrixChecksum sum)
    (count_tick (count_tick (count_malloc (count_malloc (count_malloc st))))).

(** The next three calls of [malloc] all succeed. *)
Definition three_granted (e : env) (st : state) : bool :=
  heap_ok e (mallocs st) && heap_ok e (S (mallocs st)) && heap_ok e (S (S (mallocs st))).

(** Entry [(i, j)] of a row-major [M]x[M] matrix. *)
Definition entry (M : Z) (C : list float) (i j : Z) : float :=
  default 0%float (C !! Z.to_nat (i * M + j)).

(** The rows the checksum samples, in increasing order: the multiples of the
    stride [s] from [i] on and below [M]. *)
Definition rows_from (M s i : Z) : list Z :=
  List.filter (fun r => r mod s =? 0) (seqZ i (M - i)).

Definition sampled_rows (M : Z) : list Z := rows_from M (Z.max 1 (M / 8)) 0.

(** The sum of [C[i, i mod M]] over the sampled rows. *)
Definition sampled_sum (M : Z) (C : list float) : float :=
  fold_left (fun acc i => (acc + entry M C i (i mod M))%float) (sampled_rows M) 0%float.

(** The sum that the loop over [k] accumulates into an entry. *)
Definition accumulate (M : Z) (A B : list float) (i j k : Z) (start : float) : float :=
  fold_left (fun sum k => (sum + entry M A i k * entry M B k j)%float)
    (seqZ k (M - k)) start.

(** The reference multiplication: the plain i-j-k triple loop,
    [sum = 0; for k: sum += A[i,k] * B[k,j]; C[i,j] = sum]. *)
Definition dot (M : Z) (A B : list float) (i j : Z) : float :=
  fold_left (fun sum k => (sum + entry M A i k * entry M B k j)%float)
    (seqZ 0 M) 0%float.

Definition reference_product (M : Z) (A B : list float) : list float :=
  flat_map (fun i => map (fun j => dot M A B i j) (seqZ 0 M)) (seqZ 0 M).

(** Two entries agree within the tolerance [1e-9]. *)
Definition TOLERANCE : float := 0x1.12e0be826d695p-30%float.  (* 1e-9 *)
Definition within_tolerance (x y : float) : bool := (abs (x - y) <=? TOLERANCE)%float.

(** The escape-time iteration: [z <- z^2 + c] from [z = 0], the point after
    [n] steps, and the test that it is still within the disc [|z|^2 <= 4]. *)
Definition step (cx cy : float) (z : float * float) : float * float :=
  let '(zx, zy) := z in
  ((zx * zx - zy * zy + cx)%float, (2 * zx * zy + cy)%float).

Definition orbit (cx cy : float) (n : nat) : float * float :=
  Nat.iter n (step cx cy) (0%float, 0%float).

Definition in_disc (z : float * float) : bool :=
  let '(zx, zy) := z in (zx * zx + zy * zy <=? 4)%float.

(** The pixel bytes in the order the image stores them: rows from the top,
    each from the left. *)
Definition pixel_bytes (width height maxiter x y : Z) : list Z :=
  match Mandel.pixel width height maxiter x y with
  | Done col => col
  | _ => []
  end.

Definition raster (width height maxiter : Z) : list Z :=
  flat_map (fun y => flat_map (fun x => pixel_bytes width height maxiter x y)
                       (seqZ 0 width))
    (seqZ 0 height).

(** What the marking loop maintains before it considers [p]: a cell is 0
    exactly when its index is below 2 or has a divisor [d < p] with
    [d * d] at most the index. *)
Definition marked_below (limit p : Z) (a : list Z) : Prop :=
  Z.of_nat (length a) = limit + 1 /\
  forall i, 0 <= i <= limit ->
    exists v, a !! Z.to_nat i = Some v /\ (v = 0 \/ v = 1) /\
      (v = 0 <-> (i < 2 \/ exists d, 2 <= d < p /\ d * d <= i /\ (d | i))).

(** [x] is the binary64 number of the positive integer [z]: a 53-bit
    mantissa and the exponent that goes with it. *)
Definition represents (x : spec_float) (z : Z) : Prop :=
  exists m e, x = S754_finite false m e /\ Zpos (digits2_pos m) = 53
    /\ -52 <= e <= 0 /\ Zpos m = z * 2 ^ (- e).

(** The stages of the harness, as their result lines show them. *)
Inductive stage : Type := StSieve | StMatrix | StMandel | StSummary.

Definition stage_of (l : line) : option stage :=
  match l with
  | LSieveFound _ _ _ => Some StSieve
  | LMatrixTook _ _ => Some StMatrix
  | LMandelWrote _ _ => Some StMandel
  | LSummary _ _ _ => Some StSummary
  | _ => None
  end.

(** Environments and the empty state for concrete runs: in [env0 h] every
    [malloc] is answered by [h], every file can be opened and the clock
    stands still; [env1] differs from [env0 true] in every reading of the
    clock.  [result] forgets the final state of a run. *)
Definition env0 (h : bool) : env :=
  {| heap_ok := fun _ => h; fopen_ok := fun _ => true; clock := fun _ => 0%float |}.

Definition env1 : env :=
  {| heap_ok := fun _ => true; fopen_ok := fun _ => true;
     clock := fun k => of_uint63 (Uint63.of_Z (Z.of_nat (7 * k + 3))) |}.

Definition st0 : state :=
  {| mallocs := 0; ticks := 0; out := []; err := []; fs := ∅ |}.

Definition result {A : Type} (o : outcome (A * state)) : outcome A :=
  match o with
  | Done (a, _) => Done a
  | Undefined => Undefined
  | OutOfFuel => OutOfFuel
  end.

(** Counting primes by trial division up to the square root, on machine
    integers and with accumulators so that it evaluates quickly:
    [no_divisor fuel n d] tests the candidates [d, d+1, ...] whose square is
    at most [n], and [count_from fuel n acc] adds to [acc] the number of
    primes among the [fuel] integers from [n] on. *)
Fixpoint no_divisor (fuel : nat) (n d : int) : bool :=
  match fuel with
  | O => true
  | S fuel' =>
      if (n <? d * d)%uint63 then true
      else if (n mod d =? 0)%uint63 then false
      else no_divisor fuel' n (d + 1)%uint63
  end.

Definition prime_by_roots (n : Z) : bool :=
  (1 <? n) && no_divisor (Z.to_nat (Z.sqrt n)) (Uint63.of_Z n) 2%uint63.

Fixpoint count_from (fuel : nat) (n acc : Z) : Z :=
  match fuel with
  | O => acc
  | S fuel' => count_from fuel' (n + 1) (if prime_by_roots n then acc + 1 else acc)
  end.

(** The three diagnostics [main] can leave on standard error. *)
Definition sieve_diagnostic : string := "malloc failed sieve" +:+ nl.
Definition matrix_diagnostic : string := "malloc failed matrix" +:+ nl.
Definition mandel_diagnostic : string :=
  "Failed to open " +:+ outppm +:+ " for writing" +:+ nl.

(** [b] is [-a], the sign of a zero being disregarded: the relation between
    the imaginary parts of two orbits that start from conjugate points. *)
Definition SFzero (a : spec_float) : bool :=
  match a with S754_zero _ => true | _ => false end.

Definition SFmirrored (a b : spec_float) : Prop :=
  b = SFopp a \/ (SFzero a = true /\ SFzero b = true).

Definition mirrored (a b : float) : Prop := SFmirrored (Prim2SF a) (Prim2SF b).

(** A line reports no negative duration.  The time the matrix kernel
    returns is also allowed to be the [-1] of a refused allocation. *)
Definition not_negative (dt : float) : bool := negb (dt <? 0)%float.

Definition duration_ok (l : line) : bool :=
  match l with
  | LSieveFound _ _ dt => not_negative dt
  | LMatrixTook mat_time dt =>
      (not_negative mat_time || (mat_time =? -1)%float) && not_negative dt
  | LMandelWrote _ dt => not_negative dt
  | LSummary _ mat_time mandel_time =>
      (not_negative mat_time || (mat_time =? -1)%float) && not_negative mandel_time
  | _ => true
  end.

(** The checksum as a function of the generator alone: [seeds n seed] are
    the first [n] states after [seed]; entry [A[i,k]] is made from state
    number [2 (i M + k)] and [B[k,j]] from state number [2 (k M + j) + 1];
    a sampled diagonal entry of the product is the sum over [k] of their
    products, and the checksum the sum of the sampled diagonal entries. *)
Fixpoint seeds (n : nat) (seed : Z) : list Z :=
  match n with
  | O => []
  | S n' => Matrix.lcg seed :: seeds n' (Matrix.lcg seed)
  end.

Definition diagonal_entry (M : Z) (s : list Z) (i : Z) : float :=
  fold_left
    (fun sum k =>
       (sum + Matrix.cell (default 0%Z (s !! Z.to_nat (2 * (i * M + k))))
              * Matrix.cell (default 0%Z (s !! Z.to_nat (2 * (k * M + i) + 1))))%float)
    (seqZ 0 M) 0%float.

Definition checksum_value (M : Z) : float :=
  let s := seeds (Z.to_nat (2 * M * M)) Matrix.SEED in
  fold_left (fun acc i => (acc + diagonal_entry M s i)%float) (sampled_rows M) 0%float.

(** * Properties *)

(** ** Runs on small inputs *)

Example sieve_1 : result (Sieve.sieve_count_primes 1 (env0 true) st0) = Done 0.
Proof. vm_compute. reflexivity. Qed.
Example sieve_10 : result (Sieve.sieve_count_primes 10 (env0 true) st0) = Done 4.
Proof. vm_compute. reflexivity. Qed.
Example sieve_100 : result (Sieve.sieve_count_primes 100 (env0 true) st0) = Done 25.
Proof. vm_compute. reflexivity. Qed.
Example sieve_0 : result (Sieve.sieve_count_primes 0 (env0 true) st0) = Undefined.
Proof. vm_compute. reflexivity. Qed.

Example header_400_300 :
  Mandel.header 400 300 = "P6" +:+ nl +:+ "400 300" +:+ nl +:+ "255" +:+ nl.
Proof. vm_compute. reflexivity. Qed.
Example colour_1 : Mandel.colour 100 256 = Done [99; 41; 181].
Proof. vm_compute. reflexivity. Qed.

(** ** Buffers and [int] arithmetic *)

Lemma int_of_Done z : INT_MIN <= z <= INT_MAX -> int_of z = Done z.
Proof.
  intros H. unfold int_of, in_int.
  destruct (INT_MIN <=? z) eqn:E1; destruct (z <=? INT_MAX) eqn:E2; simpl; try reflexivity; lia.
Qed.

Lemma store_Done {T} (a : list T) i v :
  0 <= i < Z.of_nat (length a) -> store a i v = Done (<[Z.to_nat i := v]> a).
Proof.
  intros H. unfold store.
  destruct (0 <=? i) eqn:E1; destruct (i <? Z.of_nat (length a)) eqn:E2; simpl; try reflexivity; lia.
Qed.

Lemma load_Done {T} (a : list T) i v :
  0 <= i -> a !! Z.to_nat i = Some v -> load a i = Done v.
Proof.
  intros H E. unfold load. destruct (0 <=? i) eqn:E1; [|lia]. now rewrite E.
Qed.

Lemma size_t_of_small z : 0 <= z < 2 ^ 64 -> size_t_of z = z.
Proof. intros H. unfold size_t_of, SIZE_WIDTH. now apply Z.mod_small. Qed.

(** ** Concatenations of blocks of one length *)

Lemma flat_map_length_blocks {T U} (g : T -> list U) (n : nat) l :
  (forall x, length (g x) = n) -> length (flat_map g l) = (n * length l)%nat.
Proof.
  intros H. induction l as [|x l IH]; [cbn; lia|].
  cbn [flat_map]. rewrite length_app, IH, H. cbn [length]. lia.
Qed.

(** Block [i] starts at offset [n * i]. *)
Lemma flat_map_block {T U} (g : T -> list U) (n : nat) (l : list T) (i : nat) (x : T) :
  (forall x, length (g x) = n) -> l !! i = Some x ->
  take n (drop (n * i) (flat_map g l)) = g x.
Proof.
  intros Hg. revert i. induction l as [|a l IH]; intros i Hi; [discriminate|].
  cbn [flat_map]. destruct i as [|i].
  - injection Hi as ->. rewrite Nat.mul_0_r. cbn [drop].
    now apply take_app_length'.
  - cbn in Hi. replace (n * S i)%nat with (length (g a) + n * i)%nat by (rewrite Hg; lia).
    rewrite drop_app_add. now apply IH.
Qed.

Lemma flat_map_lookup {T U} (g : T -> list U) (n : nat) (l : list T) (i j : nat) (x : T) :
  (forall x, length (g x) = n) -> l !! i = Some x -> (j < n)%nat ->
  flat_map g l !! (n * i + j)%nat = g x !! j.
Proof.
  intros Hg Hi Hj. rewrite <- (flat_map_block g n l i x Hg Hi).
  rewrite lookup_take_lt by assumption. now rewrite lookup_drop.
Qed.

(** ** Primality *)

Lemma primeb_prime n : primeb n = true <-> Z.prime n.
Proof.
  unfold primeb, Z.prime. rewrite andb_true_iff, Z.ltb_lt, forallb_forall.
  split; intros [H1 H2]; split; try assumption.
  - intros d Hd Hdiv.
    specialize (H2 d). rewrite <- list_elem_of_In, elem_of_seqZ in H2.
    assert (E : negb (n mod d =? 0) = true) by (apply H2; lia).
    apply Z.mod_divide in Hdiv; [|lia]. rewrite Hdiv in E. discriminate.
  - intros d Hd. rewrite <- list_elem_of_In, elem_of_seqZ in Hd.
    destruct (n mod d =? 0) eqn:E; [|reflexivity].
    exfalso. apply (H2 d); [lia|]. apply Z.mod_divide; [lia|]. now apply Z.eqb_eq.
Qed.

Lemma prime_dec n : Z.prime n \/ ~ Z.prime n.
Proof.
  destruct (primeb n) eqn:E.
  - left. now apply primeb_prime.
  - right. intros H. apply primeb_prime in H. congruence.
Qed.

(** A number from 2 on that is not prime has a divisor [d >= 2] with
    [d * d] at most the number. *)
Lemma composite_small_divisor n :
  2 <= n -> ~ Z.prime n -> exists d, 2 <= d /\ d * d <= n /\ (d | n).
Proof.
  intros Hn Hnp.
  assert (Hex : exists d, 1 < d < n /\ (d | n)).
  { destruct (forallb (fun d => negb (n mod d =? 0)) (seqZ 2 (n - 2))) eqn:E.
    - exfalso. apply Hnp, primeb_prime. unfold primeb. rewrite E.
      apply andb_true_iff. split; [apply Z.ltb_lt; lia | reflexivity].
    - assert (Hx : exists d, In d (seqZ 2 (n - 2)) /\ negb (n mod d =? 0) = false).
      { clear -E. induction (seqZ 2 (n - 2)) as [|x l IH]; simpl in E; [discriminate|].
        apply andb_false_iff in E as [E|E].
        - exists x. split; [now left | assumption].
        - destruct (IH E) as (d & Hd & Hd'). exists d. split; [now right | assumption]. }
      destruct Hx as (d & Hd & Hd').
      rewrite <- list_elem_of_In, elem_of_seqZ in Hd.
      exists d. split; [lia|]. apply Z.mod_divide; [lia|].
      apply negb_false_iff in Hd'. now apply Z.eqb_eq. }
  destruct Hex as (d & Hd & k & Hk).
  destruct (Z_le_gt_dec (d * d) n) as [Hle|Hgt].
  - exists d. repeat split; [lia | assumption | now exists k].
  - exists k. repeat split; [nia | nia | exists d; lia].
Qed.

(** ** PrimeSieve *)

Module SieveFacts.
Import Sieve.

Lemma mark_multiples_Done fuel limit p q a :
  0 < p -> 0 <= q -> Z.of_nat (length a) = limit + 1 -> limit + p <= INT_MAX ->
  Z.max 0 (limit + 1 - q) < Z.of_nat fuel ->
  exists a', mark_multiples fuel limit p q a = Done a' /\
    length a' = length a /\
    forall i, 0 <= i <= limit ->
      (q <= i /\ (p | i - q) -> a' !! Z.to_nat i = Some 0) /\
      (~ (q <= i /\ (p | i - q)) -> a' !! Z.to_nat i = a !! Z.to_nat i).
Proof.
  intros Hp. revert q a.
  induction fuel as [|fuel IH]; intros q a Hq Hlen Hmax Hfuel; [lia|].
  simpl. destruct (q <=? limit) eqn:E.
  - apply Z.leb_le in E.
    rewrite store_Done by lia. simpl.
    unfold add_int. rewrite int_of_Done by (unfold INT_MIN, INT_MAX in *; lia). simpl.
    destruct (IH (q + p) (<[Z.to_nat q := 0]> a)) as (a' & Hrun & Hlen' & Hcells);
      try lia.
    { rewrite length_insert. assumption. }
    exists a'. split; [assumption|]. split.
    { rewrite Hlen', length_insert. reflexivity. }
    intros i Hi. destruct (Hcells i Hi) as [Hin Hout]. split.
    + intros [Hqi Hdiv].
      destruct (Z.eq_dec i q) as [->|Hne].
      * rewrite Hout by lia. apply list_lookup_insert_eq. lia.
      * apply Hin. destruct Hdiv as [k Hk].
        assert (1 <= k) by nia.
        split; [nia|]. exists (k - 1). lia.
    + intros Hno. rewrite Hout.
      * apply list_lookup_insert_ne. intros Heq. apply Hno.
        assert (i = q) by lia. subst i. split; [lia|]. exists 0. lia.
      * intros [Hqi [k Hk]]. apply Hno. split; [lia|]. exists (k + 1). lia.
  - apply Z.leb_gt in E. exists a. split; [reflexivity|]. split; [reflexivity|].
    intros i Hi. split; [lia|reflexivity].
Qed.

Lemma marked_below_skip limit p a :
  2 <= p <= limit -> marked_below limit p a ->
  a !! Z.to_nat p = Some 0 -> marked_below limit (p + 1) a.
Proof.
  intros Hp [Hlen Hinv] Hflag. split; [assumption|].
  intros i Hi. destruct (Hinv i Hi) as (v & Hv & H01 & Hiff).
  exists v. split; [assumption|]. split; [assumption|].
  rewrite Hiff. split.
  - intros [?|(d & ? & ? & ?)]; [now left|]. right. exists d. repeat split; trivial; lia.
  - intros [?|(d & Hd & Hdd & Hdiv)]; [now left|].
    destruct (Z.eq_dec d p) as [->|Hne].
    + destruct (Hinv p ltac:(lia)) as (vp & Hvp & _ & Hiffp).
      assert (vp = 0) by congruence. subst vp.
      destruct (proj1 Hiffp eq_refl) as [?|(d' & ? & ? & Hd')]; [lia|].
      right. exists d'. repeat split; trivial; try lia; try nia.
      now apply Z.divide_trans with p.
    + right. exists d. repeat split; trivial; lia.
Qed.

Lemma marked_below_strike limit p a a' :
  2 <= p -> p * p <= limit -> marked_below limit p a ->
  length a' = length a ->
  (forall i, 0 <= i <= limit ->
     (p * p <= i /\ (p | i - p * p) -> a' !! Z.to_nat i = Some 0) /\
     (~ (p * p <= i /\ (p | i - p * p)) -> a' !! Z.to_nat i = a !! Z.to_nat i)) ->
  marked_below limit (p + 1) a'.
Proof.
  intros Hp Hpp [Hlen Hinv] Hlen' Hcells. split; [lia|].
  intros i Hi. destruct (Hinv i Hi) as (v & Hv & H01 & Hiff).
  destruct (Hcells i Hi) as [Hin Hout].
  assert (Hdiv : (p | i - p * p) <-> (p | i)).
  { split; intros [k Hk]; [exists (k + p) | exists (k - p)]; lia. }
  destruct (Z_le_gt_dec (p * p) i) as [Hle|Hgt].
  - destruct (Z.eqb (i mod p) 0) eqn:E.
    + apply Z.eqb_eq, Z.mod_divide in E; [|lia].
      exists 0. split; [apply Hin; split; [lia | now apply Hdiv]|].
      split; [now left|]. split; [|reflexivity].
      intros _. right. exists p. repeat split; trivial; lia.
    + apply Z.eqb_neq in E.
      assert (Hnd : ~ (p | i)) by (intros Hd; apply E, Z.mod_divide; [lia | assumption]).
      exists v. split; [rewrite Hout; [assumption | intros [_ Hd]; now apply Hnd, Hdiv]|].
      split; [assumption|]. rewrite Hiff. split.
      * intros [?|(d & ? & ? & ?)]; [now left|]. right. exists d. repeat split; trivial; lia.
      * intros [?|(d & Hd & Hdd & Hdi)]; [now left|].
        destruct (Z.eq_dec d p) as [->|Hne]; [contradiction|].
        right. exists d. repeat split; trivial; lia.
  - exists v. split; [rewrite Hout; [assumption | lia]|].
    split; [assumption|]. rewrite Hiff. split.
    + intros [?|(d & ? & ? & ?)]; [now left|]. right. exists d. repeat split; trivial; lia.
    + intros [?|(d & Hd & Hdd & Hdi)]; [now left|].
      destruct (Z.eq_dec d p) as [->|Hne]; [lia|].
      right. exists d. repeat split; trivial; lia.
Qed.

Lemma sieve_loop_Done fuel limit p a :
  2 <= p -> (p - 1) * (p - 1) <= limit -> limit < SIEVE_BOUND ->
  marked_below limit p a ->
  Z.max 0 (limit + 1 - p) < Z.of_nat fuel ->
  exists a' p', sieve_loop fuel limit p a = Done a' /\
    marked_below limit p' a' /\ 2 <= p' /\ limit < p' * p'.
Proof.
  unfold SIEVE_BOUND. revert p a.
  induction fuel as [|fuel IH]; intros p a Hp Hprev Hlim Hinv Hfuel; [lia|].
  assert (Hp' : p <= 46340) by nia.
  cbn [sieve_loop]. unfold mul_int.
  rewrite int_of_Done by (unfold INT_MIN, INT_MAX; nia). cbn [bind].
  destruct (p * p <=? limit) eqn:E.
  - apply Z.leb_le in E.
    destruct (proj2 Hinv p ltac:(nia)) as (v & Hv & H01 & Hiff).
    rewrite (load_Done a p v ltac:(lia) Hv). cbn [bind].
    assert (Hstep : exists a1,
      (if v =? 0 then Done a
       else mark_multiples (S (Z.to_nat limit)) limit p (p * p) a) = Done a1
      /\ marked_below limit (p + 1) a1).
    { destruct H01 as [->| ->]; simpl (_ =? _).
      - exists a. split; [reflexivity|].
        apply marked_below_skip; trivial. nia.
      - destruct (mark_multiples_Done (S (Z.to_nat limit)) limit p (p * p) a)
          as (a1 & Hrun & Hlen1 & Hcells); try nia.
        { apply Hinv. }
        { unfold INT_MAX. lia. }
        exists a1. split; [assumption|].
        eapply marked_below_strike; eauto. }
    destruct Hstep as (a1 & -> & Hinv1). cbn [bind].
    unfold add_int. rewrite int_of_Done by (unfold INT_MIN, INT_MAX; lia). cbn [bind].
    apply IH; trivial; nia.
  - apply Z.leb_gt in E. exists a, p. repeat split; trivial; apply Hinv.
Qed.

(** When the marking loop has stopped, the cells from 2 on that are not 0
    are those at the primes. *)
Lemma marked_below_prime limit p a :
  2 <= p -> limit < p * p -> marked_below limit p a ->
  forall i, 2 <= i <= limit ->
    exists v, a !! Z.to_nat i = Some v /\ (v <> 0 <-> Z.prime i).
Proof.
  intros Hp Hpp [Hlen Hinv] i Hi.
  destruct (Hinv i ltac:(lia)) as (v & Hv & H01 & Hiff).
  exists v. split; [assumption|]. rewrite Hiff. split.
  - intros Hno. destruct (prime_dec i) as [?|Hnp]; [assumption|].
    exfalso. apply Hno. right.
    destruct (composite_small_divisor i ltac:(lia) Hnp) as (d & Hd & Hdd & Hdiv).
    exists d. repeat split; trivial; nia.
  - intros [_ Hprime] [?|(d & Hd & Hdd & Hdiv)]; [lia|].
    apply (Hprime d); [nia | assumption].
Qed.

Lemma count_loop_Done fuel limit i a cnt :
  2 <= i -> 0 <= cnt <= i - 2 -> limit < INT_MAX ->
  (forall j, i <= j <= limit ->
     exists v, a !! Z.to_nat j = Some v /\ (v <> 0 <-> Z.prime j)) ->
  Z.max 0 (limit + 1 - i) < Z.of_nat fuel ->
  count_loop fuel limit i a cnt =
    Done (cnt + Z.of_nat (length (List.filter primeb (seqZ i (limit + 1 - i))))).
Proof.
  revert i cnt.
  induction fuel as [|fuel IH]; intros i cnt Hi Hcnt Hlim Hcells Hfuel; [lia|].
  cbn [count_loop]. destruct (i <=? limit) eqn:E.
  - apply Z.leb_le in E.
    destruct (Hcells i ltac:(lia)) as (v & Hv & Hiff).
    rewrite (load_Done a i v ltac:(lia) Hv). cbn [bind].
    rewrite seqZ_cons by lia. cbn [List.filter].
    replace (Z.pred (limit + 1 - i)) with (limit + 1 - (i + 1)) by lia.
    replace (Z.succ i) with (i + 1) by lia.
    unfold add_int. destruct (v =? 0) eqn:Ev.
    + apply Z.eqb_eq in Ev.
      assert (Hb : primeb i = false).
      { destruct (primeb i) eqn:Eb; [|reflexivity].
        apply primeb_prime, Hiff in Eb. contradiction. }
      rewrite Hb. cbn [bind].
      rewrite int_of_Done by (unfold INT_MIN, INT_MAX in *; lia). cbn [bind].
      apply IH; trivial; try lia.
      intros j Hj. apply Hcells. lia.
    + apply Z.eqb_neq in Ev.
      assert (Hb : primeb i = true) by now apply primeb_prime, Hiff.
      rewrite Hb. rewrite int_of_Done by (unfold INT_MIN, INT_MAX in *; lia). cbn [bind].
      rewrite int_of_Done by (unfold INT_MIN, INT_MAX in *; lia). cbn [bind].
      rewrite IH; trivial; try lia.
      * f_equal. cbn [length]. lia.
      * intros j Hj. apply Hcells. lia.
  - apply Z.leb_gt in E.
    replace (seqZ i (limit + 1 - i)) with (@nil Z).
    + simpl. f_equal. lia.
    + symmetry. apply length_zero_iff_nil. rewrite length_seqZ. lia.
Qed.

(** The buffer after [memset] and [isprime[0] = isprime[1] = 0]. *)
Lemma sieve_start limit :
  1 <= limit < INT_MAX ->
  exists a,
    (do isprime <- memset (replicate (Z.to_nat (limit + 1)) 0) 1 (limit + 1);
     do isprime <- store isprime 1 0;
     store isprime 0 0) = Done a
    /\ marked_below limit 2 a.
Proof.
  intros Hlim. unfold memset.
  rewrite length_replicate.
  destruct (limit + 1 <=? Z.of_nat (Z.to_nat (limit + 1))) eqn:E;
    [|apply Z.leb_gt in E; lia].
  cbn [bind]. rewrite drop_replicate, Nat.sub_diag. cbn [replicate].
  rewrite app_nil_r.
  rewrite store_Done by (rewrite length_replicate; lia). cbn [bind].
  rewrite store_Done by (rewrite length_insert, length_replicate; lia).
  eexists. split; [reflexivity|]. split.
  - rewrite !length_insert, length_replicate. lia.
  - intros i Hi.
    destruct (Z.eq_dec i 0) as [->|H0].
    { exists 0. split.
      - apply list_lookup_insert_eq. rewrite length_insert, length_replicate. lia.
      - split; [now left|]. split; [intros _; left; lia | reflexivity]. }
    destruct (Z.eq_dec i 1) as [->|H1].
    { exists 0. split.
      - rewrite list_lookup_insert_ne by (cbv; lia).
        apply list_lookup_insert_eq. rewrite length_replicate. lia.
      - split; [now left|]. split; [intros _; left; lia | reflexivity]. }
    exists 1. split.
    + rewrite !list_lookup_insert_ne by lia.
      apply lookup_replicate_2. lia.
    + split; [now right|]. split; [discriminate|].
      intros [?|(d & ? & _)]; lia.
Qed.

(** The marking phase on a fresh buffer of [limit + 1] cells. *)
Lemma sieve_marks_Done limit :
  1 <= limit < SIEVE_BOUND ->
  exists flags,
    sieve_marks limit (limit + 1) (replicate (Z.to_nat (limit + 1)) 0) = Done flags
    /\ Z.of_nat (length flags) = limit + 1
    /\ forall i, 2 <= i <= limit ->
         exists v, flags !! Z.to_nat i = Some v /\ (v <> 0 <-> Z.prime i).
Proof.
  intros Hlim. unfold SIEVE_BOUND in Hlim. unfold sieve_marks.
  rewrite size_t_of_small by lia.
  destruct (sieve_start limit) as (a & Hstart & Hinv); [unfold INT_MAX; lia|].
  unfold memset in *.
  destruct (limit + 1 <=? _); [|discriminate]. cbn [bind] in *.
  destruct (store _ 1 0) as [a1| |]; try discriminate. cbn [bind] in *.
  rewrite Hstart. cbn [bind].
  destruct (sieve_loop_Done (S (Z.to_nat limit)) limit 2 a)
    as (flags & p' & Hrun & Hinv' & Hp' & Hstop); trivial; try (unfold SIEVE_BOUND; lia).
  exists flags. split; [assumption|]. split; [apply Hinv'|].
  now apply marked_below_prime with p'.
Qed.

(** A run of the kernel on which allocation succeeds. *)
Lemma sieve_count_primes_Done limit e st :
  1 <= limit < SIEVE_BOUND -> heap_ok e (mallocs st) = true ->
  sieve_count_primes limit e st = Done (num_primes limit, count_malloc st).
Proof.
  intros Hlim Hheap. pose proof Hlim as Hlim'. unfold SIEVE_BOUND in Hlim'.
  unfold sieve_count_primes, pbind, lift, add_int.
  rewrite int_of_Done by (unfold INT_MIN, INT_MAX; lia).
  unfold malloc. rewrite Hheap.
  rewrite size_t_of_small by lia.
  destruct (sieve_marks_Done limit Hlim) as (flags & -> & Hlen & Hcells).
  cbn [bind].
  rewrite count_loop_Done; trivial; try (unfold INT_MAX; lia).
  unfold num_primes, primes_upto.
  replace (limit + 1 - 2) with (limit - 1) by lia. reflexivity.
Qed.

(** A run of the kernel on which allocation fails. *)
Lemma sieve_count_primes_failed limit e st :
  INT_MIN <= limit < INT_MAX -> heap_ok e (mallocs st) = false ->
  sieve_count_primes limit e st =
    Done (-1, add_err ("malloc failed sieve" +:+ nl) (count_malloc st)).
Proof.
  intros Hlim Hheap.
  unfold sieve_count_primes, pbind, lift, add_int.
  rewrite int_of_Done by (unfold INT_MIN, INT_MAX in *; lia).
  unfold malloc. rewrite Hheap. reflexivity.
Qed.

Lemma primes_upto_spec limit i :
  In i (primes_upto limit) <-> 2 <= i <= limit /\ Z.prime i.
Proof.
  unfold primes_upto. rewrite filter_In, <- list_elem_of_In, elem_of_seqZ, primeb_prime.
  intuition lia.
Qed.

(** From [SIEVE_BOUND] on, the test [p*p <= limit] is still true at
    [p = 46340], and at [p = 46341] the product [p*p] is not an [int]. *)
Lemma sieve_loop_overflow fuel limit p a :
  2 <= p <= 46341 -> SIEVE_BOUND <= limit <= INT_MAX - 46340 ->
  Z.of_nat (length a) = limit + 1 ->
  46341 - p < Z.of_nat fuel ->
  sieve_loop fuel limit p a = Undefined.
Proof.
  unfold SIEVE_BOUND, INT_MAX. revert p a.
  induction fuel as [|fuel IH]; intros p a Hp Hlim Hlen Hfuel; [lia|].
  cbn [sieve_loop]. unfold mul_int.
  destruct (Z.eq_dec p 46341) as [->|Hne].
  { reflexivity. }
  rewrite int_of_Done by (unfold INT_MIN, INT_MAX; nia). cbn [bind].
  destruct (p * p <=? limit) eqn:E; [|apply Z.leb_gt in E; nia].
  destruct (lookup_lt_is_Some_2 a (Z.to_nat p) ltac:(lia)) as [v Hv].
  rewrite (load_Done a p v ltac:(lia) Hv). cbn [bind].
  assert (Hstep : exists a1,
    (if v =? 0 then Done a
     else mark_multiples (S (Z.to_nat limit)) limit p (p * p) a) = Done a1
    /\ Z.of_nat (length a1) = limit + 1).
  { destruct (v =? 0).
    - exists a. split; [reflexivity | assumption].
    - destruct (mark_multiples_Done (S (Z.to_nat limit)) limit p (p * p) a)
        as (a1 & Hrun & Hlen1 & _); try nia.
      { unfold INT_MAX. lia. }
      exists a1. split; [assumption | lia]. }
  destruct Hstep as (a1 & -> & Hlen1). cbn [bind].
  unfold add_int. rewrite int_of_Done by (unfold INT_MIN, INT_MAX; lia). cbn [bind].
  apply IH; trivial; lia.
Qed.

Lemma sieve_count_primes_overflow limit e st :
  SIEVE_BOUND <= limit <= INT_MAX - 46340 -> heap_ok e (mallocs st) = true ->
  sieve_count_primes limit e st = Undefined.
Proof.
  intros Hlim Hheap. pose proof Hlim as Hlim'. unfold SIEVE_BOUND, INT_MAX in Hlim'.
  unfold sieve_count_primes, pbind, lift, add_int.
  rewrite int_of_Done by (unfold INT_MIN, INT_MAX; lia).
  unfold malloc. rewrite Hheap.
  rewrite size_t_of_small by lia.
  unfold sieve_marks. rewrite size_t_of_small by lia.
  destruct (sieve_start limit) as (a & Hstart & Hlen & _); [unfold INT_MAX; lia|].
  unfold memset in *.
  destruct (limit + 1 <=? _); [|discriminate]. cbn [bind] in *.
  destruct (store _ 1 0) as [a1| |]; try discriminate. cbn [bind] in *.
  rewrite Hstart. cbn [bind].
  rewrite sieve_loop_overflow; trivial; lia.
Qed.

(** The count is never negative. *)
Lemma count_loop_lower fuel limit i a cnt c :
  count_loop fuel limit i a cnt = Done c -> cnt <= c.
Proof.
  revert i cnt. induction fuel as [|fuel IH]; intros i cnt; [discriminate|].
  cbn [count_loop]. destruct (i <=? limit); [|intros [= ->]; lia].
  destruct (load a i) as [v| |]; try discriminate. cbn [bind].
  destruct (v =? 0); cbn [bind].
  - destruct (add_int i 1) as [i'| |]; try discriminate. cbn [bind]. apply IH.
  - unfold add_int at 1, int_of. destruct (in_int (cnt + 1)); try discriminate.
    cbn [bind]. destruct (add_int i 1) as [i'| |]; try discriminate. cbn [bind].
    intros H. apply IH in H. lia.
Qed.

Lemma sieve_count_primes_nonneg limit e st c st' :
  heap_ok e (mallocs st) = true ->
  sieve_count_primes limit e st = Done (c, st') -> 0 <= c.
Proof.
  intros Hheap. unfold sieve_count_primes, pbind, lift.
  destruct (add_int limit 1) as [n| |]; try discriminate.
  unfold malloc. rewrite Hheap.
  destruct (sieve_marks _ _ _) as [flags| |]; try discriminate. cbn [bind].
  destruct (count_loop _ _ _ _ _) as [c'| |] eqn:E; try discriminate.
  intros [= <- _]. now apply count_loop_lower in E.
Qed.

End SieveFacts.

(** C1 (amended).  For every limit with [1 <= limit < 2147395600]: when
    allocation succeeds, [sieve_count_primes] leaves in [*out_count] the
    number of primes of [[2, limit]], which is the number of indices of
    [[2, limit]] whose flag is still set after the marking loop; when
    allocation fails it leaves -1.  For limits 1, 10 and 100 the number is
    0, 4 and 25. *)
Theorem count_primes_counts_primes :
  forall limit e st, 1 <= limit < SIEVE_BOUND ->
    (heap_ok e (mallocs st) = true ->
       Sieve.sieve_count_primes limit e st = Done (num_primes limit, count_malloc st))
    /\ (heap_ok e (mallocs st) = false ->
          result (Sieve.sieve_count_primes limit e st) = Done (-1))
    /\ (exists flags,
          Sieve.sieve_marks limit (limit + 1) (replicate (Z.to_nat (limit + 1)) 0)
            = Done flags
          /\ (forall i, 2 <= i <= limit ->
                exists v, flags !! Z.to_nat i = Some v /\ (v <> 0 <-> Z.prime i))
          /\ num_primes limit = Z.of_nat (length (still_flagged limit flags)))
    /\ (forall i, In i (primes_upto limit) <-> 2 <= i <= limit /\ Z.prime i)
    /\ NoDup (primes_upto limit)
    /\ (limit = 1 -> num_primes limit = 0)
    /\ (limit = 10 -> num_primes limit = 4)
    /\ (limit = 100 -> num_primes limit = 25).
Proof.
  intros limit e st Hlim. split; [|split; [|split; [|split; [|split]]]].
  - now apply SieveFacts.sieve_count_primes_Done.
  - intros Hheap. rewrite SieveFacts.sieve_count_primes_failed; trivial.
    unfold SIEVE_BOUND, INT_MIN, INT_MAX in *. lia.
  - destruct (SieveFacts.sieve_marks_Done limit Hlim) as (flags & Hrun & _ & Hcells).
    exists flags. split; [assumption|]. split; [assumption|].
    unfold num_primes, primes_upto, still_flagged. do 2 f_equal.
    apply List.filter_ext_in. intros i Hi.
    rewrite <- list_elem_of_In, elem_of_seqZ in Hi.
    destruct (Hcells i ltac:(lia)) as (v & -> & Hv).
    change (default 0 (Some v)) with v.
    destruct (Z.eqb_spec v 0) as [->|Hne]; cbn [negb].
    + destruct (primeb i) eqn:Eb; [|reflexivity].
      apply primeb_prime, Hv in Eb. contradiction.
    + now apply primeb_prime, Hv.
  - apply SieveFacts.primes_upto_spec.
  - unfold primes_upto. apply NoDup_ListNoDup, List.NoDup_filter, NoDup_ListNoDup, NoDup_seqZ.
  - repeat split; intros ->; vm_compute; reflexivity.
Qed.

Lemma count_primes_counts_primes_witness :
  1 <= 10 < SIEVE_BOUND
  /\ Sieve.sieve_count_primes 10 (env0 true) st0 = Done (4, count_malloc st0).
Proof.
  split; [unfold SIEVE_BOUND; lia|].
  destruct (count_primes_counts_primes 10 (env0 true) st0) as (H & _).
  - unfold SIEVE_BOUND; lia.
  - rewrite H; reflexivity.
Defined.

(** C1 as stated fails: for the limit 0, which is below 2, the result is not
    0 whatever [malloc] answers (the write to [isprime[1]] falls outside the
    one-byte buffer, or the result is -1); for the limit 10 the result is -1
    and not 4 when allocation fails; for the limit 2147395600 the product
    [p*p] leaves [int]. *)
Lemma count_primes_not_for_every_limit :
  result (Sieve.sieve_count_primes 0 (env0 true) st0) = Undefined
  /\ result (Sieve.sieve_count_primes 0 (env0 false) st0) = Done (-1)
  /\ result (Sieve.sieve_count_primes 10 (env0 false) st0) = Done (-1)
  /\ result (Sieve.sieve_count_primes 2147395600 (env0 true) st0) = Undefined.
Proof.
  split; [vm_compute; reflexivity|].
  split; [vm_compute; reflexivity|].
  split; [vm_compute; reflexivity|].
  rewrite SieveFacts.sieve_count_primes_overflow; [reflexivity| |reflexivity].
  unfold SIEVE_BOUND, INT_MAX. lia.
Qed.

(** C9.  At the limit 2147395600, with a successful allocation, the run of
    [sieve_count_primes] is undefined: the loop test [p*p <= limit] holds up
    to [p = 46340] and at [p = 46341] the product is not an [int]. *)
Theorem sieve_overflows_at_bound :
  2147395600 >= 1
  /\ heap_ok (env0 true) (mallocs st0) = true
  /\ Sieve.sieve_count_primes 2147395600 (env0 true) st0 = Undefined.
Proof.
  split; [lia|]. split; [reflexivity|].
  apply SieveFacts.sieve_count_primes_overflow; [|reflexivity].
  unfold SIEVE_BOUND, INT_MAX. lia.
Qed.

(** ** MatrixMultiplier *)

Module MatrixFacts.
Import Matrix.

Lemma at_small i M k :
  0 <= i < 2 ^ 31 -> 0 <= M < 2 ^ 31 -> 0 <= k < 2 ^ 31 -> at_ i M k = i * M + k.
Proof.
  intros Hi HM Hk. unfold at_.
  rewrite (size_t_of_small i), (size_t_of_small M), (size_t_of_small k) by lia.
  rewrite (size_t_of_small (i * M)) by nia.
  apply size_t_of_small. nia.
Qed.

Lemma cells_square M : 0 <= M * M < 2 ^ 64 -> cells M = M * M.
Proof.
  intros H. unfold cells, size_t_of, SIZE_WIDTH.
  rewrite <- Z.mul_mod by lia. now apply Z.mod_small.
Qed.

Lemma alloc_cells_square M : 0 <= M * M < 2 ^ 61 -> alloc_cells M = M * M.
Proof.
  intros H. unfold alloc_cells. rewrite cells_square by lia.
  rewrite size_t_of_small by lia.
  rewrite Z.mul_comm. apply Z.div_mul. lia.
Qed.

(** The generator is advanced once for [A[i]] and once more for [B[i]]:
    cell [idx] of [A] comes from the state after [2 (idx - i) + 1] advances
    from the state at [i], that of [B] from the state after one more; the
    cells of [C] are 0; the cells below [i] are left alone. *)
Lemma init_loop_spec fuel n i seed A B C :
  0 <= i <= n -> n < 2 ^ 64 ->
  Z.of_nat (length A) = n -> Z.of_nat (length B) = n -> Z.of_nat (length C) = n ->
  n - i < Z.of_nat fuel ->
  exists A' B' C', init_loop fuel n i seed (A, B, C) = Done (A', B', C') /\
    Z.of_nat (length A') = n /\ Z.of_nat (length B') = n /\ Z.of_nat (length C') = n
    /\ (forall idx, i <= idx < n ->
          A' !! Z.to_nat idx = Some (cell (Nat.iter (Z.to_nat (2 * (idx - i) + 1)) lcg seed))
          /\ B' !! Z.to_nat idx = Some (cell (Nat.iter (Z.to_nat (2 * (idx - i) + 2)) lcg seed))
          /\ C' !! Z.to_nat idx = Some 0%float)
    /\ (forall idx, 0 <= idx < i ->
          A' !! Z.to_nat idx = A !! Z.to_nat idx
          /\ B' !! Z.to_nat idx = B !! Z.to_nat idx
          /\ C' !! Z.to_nat idx = C !! Z.to_nat idx).
Proof.
  revert i seed A B C.
  induction fuel as [|fuel IH]; intros i seed A B C Hi Hn HA HB HC Hfuel; [lia|].
  cbn [init_loop]. destruct (i <? n) eqn:E.
  - apply Z.ltb_lt in E.
    rewrite !store_Done by lia. cbn [bind].
    rewrite size_t_of_small by lia.
    destruct (IH (i + 1) (lcg (lcg seed))
                (<[Z.to_nat i := cell (lcg seed)]> A)
                (<[Z.to_nat i := cell (lcg (lcg seed))]> B)
                (<[Z.to_nat i := 0%float]> C))
      as (A' & B' & C' & Hrun & HA' & HB' & HC' & Hnew & Hold);
      rewrite ?length_insert; try lia.
    exists A', B', C'. split; [assumption|]. do 3 (split; [assumption|]). split.
    + intros idx Hidx. destruct (Z.eq_dec idx i) as [->|Hne].
      * destruct (Hold i ltac:(lia)) as (-> & -> & ->).
        rewrite !list_lookup_insert_eq by lia.
        replace (2 * (i - i) + 1) with 1 by lia.
        replace (2 * (i - i) + 2) with 2 by lia. repeat split.
      * destruct (Hnew idx ltac:(lia)) as (-> & -> & ->).
        replace (Z.to_nat (2 * (idx - i) + 1))
          with (S (S (Z.to_nat (2 * (idx - (i + 1)) + 1)))) by lia.
        replace (Z.to_nat (2 * (idx - i) + 2))
          with (S (S (Z.to_nat (2 * (idx - (i + 1)) + 2)))) by lia.
        rewrite !Nat.iter_succ_r. repeat split.
    + intros idx Hidx. destruct (Hold idx ltac:(lia)) as (-> & -> & ->).
      rewrite !list_lookup_insert_ne by lia. repeat split.
  - exists A, B, C. split; [reflexivity|]. do 3 (split; [assumption|]).
    apply Z.ltb_ge in E. split; intros idx Hidx; [lia | repeat split].
Qed.

Lemma entry_lookup M (C : list float) i j v :
  C !! Z.to_nat (i * M + j) = Some v -> entry M C i j = v.
Proof. intros H. unfold entry. now rewrite H. Qed.

Lemma entry_insert M (C : list float) i j i' j' v :
  0 <= i < M -> 0 <= j < M -> 0 <= i' < M -> 0 <= j' < M ->
  Z.of_nat (length C) = M * M ->
  entry M (<[Z.to_nat (i * M + j) := v]> C) i' j'
    = if (i' =? i) && (j' =? j) then v else entry M C i' j'.
Proof.
  intros Hi Hj Hi' Hj' Hlen. unfold entry.
  destruct (Z.eqb_spec i' i) as [->|Hne]; cbn [andb].
  - destruct (Z.eqb_spec j' j) as [->|Hne].
    + rewrite list_lookup_insert_eq by nia. reflexivity.
    + rewrite list_lookup_insert_ne by nia. reflexivity.
  - rewrite list_lookup_insert_ne by nia. reflexivity.
Qed.

(** The innermost loop adds [aik * B[k, j']] to [C[i, j']] for the columns
    from [j] on. *)
Lemma mul_j_spec fuel M i k j aik B C :
  0 <= M < 2 ^ 31 -> 0 <= i < M -> 0 <= k < M -> 0 <= j <= M ->
  Z.of_nat (length B) = M * M -> Z.of_nat (length C) = M * M ->
  M - j < Z.of_nat fuel ->
  exists C', mul_j fuel M i k j aik B C = Done C' /\ length C' = length C
    /\ forall i' j', 0 <= i' < M -> 0 <= j' < M ->
         entry M C' i' j'
           = if (i' =? i) && (j <=? j')
             then (entry M C i j' + aik * entry M B k j')%float
             else entry M C i' j'.
Proof.
  intros HM Hi Hk. revert j C.
  induction fuel as [|fuel IH]; intros j C Hj HB HC Hfuel; [lia|].
  cbn [mul_j]. destruct (j <? M) eqn:E.
  - apply Z.ltb_lt in E.
    rewrite !at_small by lia.
    destruct (lookup_lt_is_Some_2 B (Z.to_nat (k * M + j)) ltac:(nia)) as [b Hb].
    destruct (lookup_lt_is_Some_2 C (Z.to_nat (i * M + j)) ltac:(nia)) as [c Hc].
    rewrite (load_Done B (k * M + j) b ltac:(nia) Hb). cbn [bind].
    rewrite (load_Done C (i * M + j) c ltac:(nia) Hc). cbn [bind].
    rewrite store_Done by nia. cbn [bind].
    unfold add_int. rewrite int_of_Done by (unfold INT_MIN, INT_MAX; lia). cbn [bind].
    destruct (IH (j + 1) (<[Z.to_nat (i * M + j) := (c + aik * b)%float]> C))
      as (C' & Hrun & Hlen & Hent); rewrite ?length_insert; try lia.
    exists C'. split; [assumption|]. split; [now rewrite Hlen, length_insert|].
    intros i' j' Hi' Hj'. rewrite Hent by assumption.
    rewrite !entry_insert by lia.
    apply entry_lookup in Hb, Hc.
    destruct (Z.eqb_spec i' i) as [->|Hne]; cbn [andb].
    + rewrite Z.eqb_refl. cbn [andb].
      destruct (Z.leb_spec (j + 1) j'), (Z.leb_spec j j'), (Z.eqb_spec j' j);
        try lia; subst; reflexivity.
    + reflexivity.
  - apply Z.ltb_ge in E. exists C. split; [reflexivity|]. split; [reflexivity|].
    intros i' j' Hi' Hj'.
    destruct (j <=? j') eqn:E'; [apply Z.leb_le in E'; lia|].
    now rewrite andb_false_r.
Qed.

Lemma mul_k_spec fuel M i k A B C :
  0 <= M < 2 ^ 31 -> 0 <= i < M -> 0 <= k <= M ->
  Z.of_nat (length A) = M * M -> Z.of_nat (length B) = M * M ->
  Z.of_nat (length C) = M * M ->
  M - k < Z.of_nat fuel ->
  exists C', mul_k fuel M i k A B C = Done C' /\ length C' = length C
    /\ forall i' j', 0 <= i' < M -> 0 <= j' < M ->
         entry M C' i' j'
           = if i' =? i then accumulate M A B i j' k (entry M C i j')
             else entry M C i' j'.
Proof.
  intros HM Hi. revert k C.
  induction fuel as [|fuel IH]; intros k C Hk HA HB HC Hfuel; [lia|].
  cbn [mul_k]. destruct (k <? M) eqn:E.
  - apply Z.ltb_lt in E.
    rewrite at_small by lia.
    destruct (lookup_lt_is_Some_2 A (Z.to_nat (i * M + k)) ltac:(nia)) as [a Ha].
    rewrite (load_Done A (i * M + k) a ltac:(nia) Ha). cbn [bind].
    destruct (mul_j_spec (S (Z.to_nat M)) M i k 0 a B C) as (C1 & -> & Hlen1 & Hent1);
      try lia.
    cbn [bind].
    unfold add_int. rewrite int_of_Done by (unfold INT_MIN, INT_MAX; lia). cbn [bind].
    destruct (IH (k + 1) C1) as (C' & Hrun & Hlen & Hent); try lia.
    exists C'. split; [assumption|]. split; [now rewrite Hlen|].
    intros i' j' Hi' Hj'. rewrite Hent by assumption.
    apply entry_lookup in Ha.
    destruct (Z.eqb_spec i' i) as [->|Hne].
    + rewrite Hent1 by lia. rewrite Z.eqb_refl. cbn [andb].
      destruct (0 <=? j') eqn:E0; [|apply Z.leb_gt in E0; lia].
      unfold accumulate. rewrite (seqZ_cons k) by lia. cbn [fold_left].
      rewrite Ha.
      replace (Z.pred (M - k)) with (M - (k + 1)) by lia.
      replace (Z.succ k) with (k + 1) by lia. reflexivity.
    + rewrite Hent1 by lia.
      destruct (Z.eqb_spec i' i); [contradiction | reflexivity].
  - apply Z.ltb_ge in E. exists C. split; [reflexivity|]. split; [reflexivity|].
    intros i' j' Hi' Hj'. unfold accumulate. rewrite seqZ_nil by lia. cbn [fold_left].
    destruct (Z.eqb_spec i' i) as [->|]; reflexivity.
Qed.

Lemma mul_i_spec fuel M i A B C :
  0 <= M < 2 ^ 31 -> 0 <= i <= M ->
  Z.of_nat (length A) = M * M -> Z.of_nat (length B) = M * M ->
  Z.of_nat (length C) = M * M ->
  M - i < Z.of_nat fuel ->
  exists C', mul_i fuel M i A B C = Done C' /\ length C' = length C
    /\ forall i' j', 0 <= i' < M -> 0 <= j' < M ->
         entry M C' i' j'
           = if i <=? i' then accumulate M A B i' j' 0 (entry M C i' j')
             else entry M C i' j'.
Proof.
  intros HM. revert i C.
  induction fuel as [|fuel IH]; intros i C Hi HA HB HC Hfuel; [lia|].
  cbn [mul_i]. destruct (i <? M) eqn:E.
  - apply Z.ltb_lt in E.
    destruct (mul_k_spec (S (Z.to_nat M)) M i 0 A B C) as (C1 & -> & Hlen1 & Hent1);
      try lia.
    cbn [bind].
    unfold add_int. rewrite int_of_Done by (unfold INT_MIN, INT_MAX; lia). cbn [bind].
    destruct (IH (i + 1) C1) as (C' & Hrun & Hlen & Hent); try lia.
    exists C'. split; [assumption|]. split; [now rewrite Hlen|].
    intros i' j' Hi' Hj'. rewrite Hent, Hent1 by assumption.
    destruct (Z.leb_spec (i + 1) i'), (Z.leb_spec i i'), (Z.eqb_spec i' i);
      try lia; subst; reflexivity.
  - apply Z.ltb_ge in E. exists C. split; [reflexivity|]. split; [reflexivity|].
    intros i' j' Hi' Hj'. destruct (i <=? i') eqn:E'; [apply Z.leb_le in E'; lia|].
    reflexivity.
Qed.

(** For a negative size the loops over rows do nothing. *)
Lemma mul_i_negative M A B C : M <= 0 -> mul_i (S (Z.to_nat M)) M 0 A B C = Done C.
Proof. intros H. cbn [mul_i]. destruct (0 <? M) eqn:E; [apply Z.ltb_lt in E; lia | reflexivity]. Qed.

(** Initialisation and multiplication succeed on buffers that allocation
    has granted, for every size whose buffers fit the address space. *)
Lemma product_Done M :
  INT_MIN <= M <= INT_MAX -> M * M < 2 ^ 61 ->
  exists C, product M = Done C /\ Z.of_nat (length C) = M * M.
Proof.
  intros HM Hsq. unfold product, generated, init, fresh.
  assert (Hsq0 : 0 <= M * M) by nia.
  rewrite alloc_cells_square, cells_square by lia.
  destruct (init_loop_spec (S (Z.to_nat (M * M))) (M * M) 0 SEED
              (replicate (Z.to_nat (M * M)) 0%float)
              (replicate (Z.to_nat (M * M)) 0%float)
              (replicate (Z.to_nat (M * M)) 0%float))
    as (A & B & C & -> & HA & HB & HC & _); rewrite ?length_replicate; try lia.
  cbn [bind multiply].
  destruct (Z_le_gt_dec M 0) as [Hneg|Hpos].
  - rewrite mul_i_negative by assumption. now exists C.
  - destruct (mul_i_spec (S (Z.to_nat M)) M 0 A B C) as (C' & -> & Hlen & _);
      unfold INT_MAX in *; try lia.
    exists C'. split; [reflexivity | lia].
Qed.

(** The matrices after initialisation. *)
Lemma generated_spec M :
  0 <= M * M < 2 ^ 61 ->
  exists A B,
    generated M = Done (A, B, replicate (Z.to_nat (M * M)) 0%float)
    /\ Z.of_nat (length A) = M * M /\ Z.of_nat (length B) = M * M
    /\ forall idx, 0 <= idx < M * M ->
         A !! Z.to_nat idx = Some (cell (Nat.iter (Z.to_nat (2 * idx + 1)) lcg SEED))
         /\ B !! Z.to_nat idx = Some (cell (Nat.iter (Z.to_nat (2 * idx + 2)) lcg SEED)).
Proof.
  intros Hsq. unfold generated, init, fresh.
  rewrite alloc_cells_square, cells_square by lia.
  destruct (init_loop_spec (S (Z.to_nat (M * M))) (M * M) 0 SEED
              (replicate (Z.to_nat (M * M)) 0%float)
              (replicate (Z.to_nat (M * M)) 0%float)
              (replicate (Z.to_nat (M * M)) 0%float))
    as (A & B & C & -> & HA & HB & HC & Hnew & _); rewrite ?length_replicate; try lia.
  assert (EC : C = replicate (Z.to_nat (M * M)) 0%float).
  { apply list_eq. intros idx.
    destruct (Nat.lt_ge_cases idx (Z.to_nat (M * M))) as [Hlt|Hge].
    - rewrite lookup_replicate_2 by assumption.
      destruct (Hnew (Z.of_nat idx) ltac:(lia)) as (_ & _ & H0).
      now rewrite Nat2Z.id in H0.
    - rewrite (proj2 (lookup_ge_None _ _)) by lia.
      symmetry. apply lookup_replicate_None. lia. }
  subst C. exists A, B. split; [reflexivity|]. split; [assumption|]. split; [assumption|].
  intros idx Hidx. destruct (Hnew idx Hidx) as (HA' & HB' & _).
  now rewrite Z.sub_0_r in HA', HB'.
Qed.

Lemma reference_product_length M A B :
  0 <= M -> Z.of_nat (length (reference_product M A B)) = M * M.
Proof.
  intros HM. unfold reference_product.
  rewrite (flat_map_length_blocks _ (Z.to_nat M)), length_seqZ; [lia|].
  intros i. now rewrite length_map, length_seqZ.
Qed.

Lemma reference_product_entry M A B i j :
  0 <= i < M -> 0 <= j < M ->
  reference_product M A B !! Z.to_nat (i * M + j) = Some (dot M A B i j).
Proof.
  intros Hi Hj. unfold reference_product.
  replace (Z.to_nat (i * M + j)) with (Z.to_nat M * Z.to_nat i + Z.to_nat j)%nat by nia.
  rewrite (flat_map_lookup _ (Z.to_nat M) _ _ _ i).
  - rewrite list_lookup_fmap, lookup_seqZ_lt by lia. cbn. do 2 f_equal. lia.
  - intros x. now rewrite length_map, length_seqZ.
  - rewrite lookup_seqZ_lt by lia. f_equal. lia.
  - lia.
Qed.

(** The i-k-j multiplication of two [M]x[M] matrices into a zero matrix is
    the reference i-j-k multiplication, for every size. *)
Lemma multiply_reference M A B :
  0 <= M < 2 ^ 31 ->
  Z.of_nat (length A) = M * M -> Z.of_nat (length B) = M * M ->
  multiply M (A, B, replicate (Z.to_nat (M * M)) 0%float)
    = Done (reference_product M A B).
Proof.
  intros HM HA HB. cbn [multiply].
  destruct (mul_i_spec (S (Z.to_nat M)) M 0 A B (replicate (Z.to_nat (M * M)) 0%float))
    as (C & -> & Hlen & Hent); rewrite ?length_replicate; try lia.
  f_equal. rewrite length_replicate in Hlen.
  apply list_eq. intros idx.
  destruct (Nat.lt_ge_cases idx (Z.to_nat (M * M))) as [Hlt|Hge].
  - assert (HM0 : 0 < M) by nia.
    set (i := Z.of_nat idx / M). set (j := Z.of_nat idx mod M).
    assert (Hidx : Z.of_nat idx = i * M + j)
      by (unfold i, j; pose proof (Z.div_mod (Z.of_nat idx) M ltac:(lia)); lia).
    assert (Hj : 0 <= j < M) by (unfold j; apply Z.mod_pos_bound; lia).
    assert (Hi : 0 <= i < M).
    { unfold i. split; [apply Z.div_pos; lia|].
      apply Z.div_lt_upper_bound; lia. }
    replace idx with (Z.to_nat (i * M + j)) by lia.
    rewrite reference_product_entry by assumption.
    destruct (lookup_lt_is_Some_2 C (Z.to_nat (i * M + j)) ltac:(lia)) as [v Hv].
    rewrite Hv. f_equal.
    rewrite <- (entry_lookup M C i j v Hv), Hent by assumption.
    destruct (0 <=? i) eqn:E0; [|apply Z.leb_gt in E0; lia].
    assert (Hz : entry M (replicate (Z.to_nat (M * M)) 0%float) i j = 0%float)
      by (unfold entry; now rewrite lookup_replicate_2 by nia).
    rewrite Hz. unfold accumulate, dot. now rewrite Z.sub_0_r.
  - rewrite (proj2 (lookup_ge_None _ _)) by lia.
    symmetry. apply lookup_ge_None.
    pose proof (reference_product_length M A B ltac:(lia)). lia.
Qed.

(** The product matrix of the kernel, for every size whose buffers fit the
    address space. *)
Lemma product_is_reference M :
  0 <= M -> M * M < 2 ^ 61 ->
  exists A B,
    generated M = Done (A, B, replicate (Z.to_nat (M * M)) 0%float)
    /\ product M = Done (reference_product M A B).
Proof.
  intros HM Hsq.
  destruct (generated_spec M ltac:(nia)) as (A & B & Hgen & HA & HB & _).
  exists A, B. split; [assumption|].
  unfold product. rewrite Hgen. cbn [bind].
  apply multiply_reference; trivial.
  assert (M < 2 ^ 31); [|lia].
  change (2 ^ 31) with 2147483648. change (2 ^ 61) with 2305843009213693952 in Hsq. nia.
Qed.

(** From [M * M = 2^61] on, [sizeof(double) * n] wraps around, the buffers
    are shorter than [n] cells and the initialisation runs past their end. *)
Lemma init_loop_short fuel n i seed A B C :
  0 <= i <= Z.of_nat (length A) -> Z.of_nat (length A) < n -> n < 2 ^ 64 ->
  length B = length A -> length C = length A ->
  n - i < Z.of_nat fuel ->
  init_loop fuel n i seed (A, B, C) = Undefined.
Proof.
  revert i seed A B C.
  induction fuel as [|fuel IH]; intros i seed A B C Hi Hlen Hn HB HC Hfuel; [lia|].
  cbn [init_loop]. destruct (i <? n) eqn:E; [|apply Z.ltb_ge in E; lia].
  destruct (Z.eq_dec i (Z.of_nat (length A))) as [->|Hne].
  - unfold store at 1.
    destruct (Z.of_nat (length A) <? Z.of_nat (length A)) eqn:E'; [apply Z.ltb_lt in E'; lia|].
    now rewrite andb_false_r.
  - rewrite !store_Done by lia. cbn [bind].
    rewrite size_t_of_small by lia.
    apply IH; rewrite ?length_insert; lia.
Qed.

Lemma checksum_of_wraps M :
  2 ^ 61 <= M * M -> INT_MIN <= M <= INT_MAX -> checksum_of M = Undefined.
Proof.
  intros Hsq HM. unfold INT_MIN, INT_MAX in HM.
  assert (Hsq' : M * M < 2 ^ 63) by (change (2 ^ 63) with 9223372036854775808; nia).
  unfold checksum_of, product, generated, init, fresh.
  assert (Hcells : cells M = M * M)
    by (apply cells_square; change (2 ^ 64) with 18446744073709551616;
        change (2 ^ 63) with 9223372036854775808 in Hsq'; nia).
  assert (Halloc : 0 <= alloc_cells M < M * M).
  { unfold alloc_cells. rewrite Hcells. unfold size_t_of, SIZE_WIDTH.
    change (2 ^ 61) with 2305843009213693952 in Hsq.
    change (2 ^ 63) with 9223372036854775808 in Hsq'.
    change (2 ^ 64) with 18446744073709551616.
    Z.div_mod_to_equations. lia. }
  rewrite Hcells.
  change (2 ^ 63) with 9223372036854775808 in Hsq'.
  rewrite init_loop_short; rewrite ?length_replicate;
    try reflexivity; try (change (2 ^ 64) with 18446744073709551616); lia.
Qed.

Lemma stride_max M : 1 <= M -> stride M = Z.max 1 (M / 8).
Proof.
  intros H. unfold stride. destruct (8 <? M) eqn:E.
  - apply Z.ltb_lt in E. rewrite Z.quot_div_nonneg by lia.
    assert (1 <= M / 8) by (apply Z.div_le_lower_bound; lia). lia.
  - apply Z.ltb_ge in E.
    assert (M / 8 <= 1) by (apply Z.div_le_upper_bound; lia). lia.
Qed.

Lemma stride_pos M : 1 <= M -> 1 <= stride M.
Proof. intros H. rewrite stride_max by assumption. lia. Qed.

Lemma filter_none {T} (P : T -> bool) l :
  (forall x, In x l -> P x = false) -> List.filter P l = [].
Proof.
  induction l as [|x l IH]; intros H; [reflexivity|].
  cbn [List.filter]. rewrite (H x) by now left.
  apply IH. intros y Hy. apply H. now right.
Qed.

Lemma rows_from_nil M s i : M <= i -> rows_from M s i = [].
Proof. intros H. unfold rows_from. now rewrite seqZ_nil by lia. Qed.

Lemma rows_from_step M s i :
  0 < s -> i mod s = 0 -> i < M -> rows_from M s i = i :: rows_from M s (i + s).
Proof.
  intros Hs Hi HM. unfold rows_from.
  rewrite seqZ_cons by lia. cbn [List.filter]. rewrite Hi. cbn [Z.eqb].
  f_equal.
  assert (Hgap : forall len, len <= s - 1 ->
            List.filter (fun r => r mod s =? 0) (seqZ (Z.succ i) len) = []).
  { intros len Hlen. apply filter_none. intros r Hr.
    rewrite <- list_elem_of_In, elem_of_seqZ in Hr.
    apply Z.eqb_neq.
    replace r with ((r - i) + (i / s) * s)
      by (pose proof (Z.div_mod i s ltac:(lia)); lia).
    rewrite Z_mod_plus_full, Z.mod_small; lia. }
  destruct (Z_le_gt_dec M (i + s)) as [Hle|Hgt].
  - rewrite (seqZ_nil (i + s)) by lia. apply Hgap. lia.
  - replace (Z.pred (M - i)) with ((s - 1) + (M - (i + s))) by lia.
    rewrite seqZ_app by lia. rewrite List.filter_app.
    rewrite Hgap by lia.
    replace (Z.succ i + (s - 1)) with (i + s) by lia. reflexivity.
Qed.

(** Whenever the checksum loop completes, its result is the sum over the
    sampled rows. *)
Lemma checksum_loop_sum fuel M i C acc c :
  1 <= M < 2 ^ 31 -> 0 <= i -> i mod stride M = 0 ->
  checksum_loop fuel M i C acc = Done c ->
  c = fold_left (fun acc r => (acc + entry M C r (r mod M))%float)
        (rows_from M (stride M) i) acc.
Proof.
  intros HM. pose proof (stride_pos M ltac:(lia)) as Hs. revert i acc.
  induction fuel as [|fuel IH]; intros i acc Hi Hmod; [discriminate|].
  cbn [checksum_loop]. destruct (i <? M) eqn:E.
  - apply Z.ltb_lt in E.
    rewrite Z.rem_small by lia. rewrite at_small by lia.
    unfold load. destruct (0 <=? i * M + i) eqn:E0; [|discriminate].
    destruct (C !! Z.to_nat (i * M + i)) as [v|] eqn:Ev; [|discriminate].
    cbn [bind]. unfold add_int, int_of.
    destruct (in_int (i + stride M)); [|discriminate]. cbn [bind].
    intros Hrun. apply IH in Hrun; [|lia|].
    + rewrite rows_from_step by (trivial || lia). cbn [fold_left].
      unfold entry at 2. rewrite Z.mod_small by lia. rewrite Ev. exact Hrun.
    + rewrite <- (Z.mul_1_l (stride M)) at 1. rewrite Z_mod_plus_full. assumption.
  - apply Z.ltb_ge in E. intros [= <-]. now rewrite rows_from_nil.
Qed.

Lemma checksum_sum M C c :
  1 <= M <= INT_MAX -> checksum M C = Done c -> c = sampled_sum M C.
Proof.
  intros HM Hrun. unfold checksum in Hrun.
  apply checksum_loop_sum in Hrun; try (unfold INT_MAX in *; lia).
  - rewrite Hrun. unfold sampled_sum, sampled_rows. now rewrite stride_max by lia.
  - apply Z.mod_0_l. pose proof (stride_pos M). lia.
Qed.

Lemma checksum_loop_Done fuel M i C acc :
  1 <= M -> M * M < 2 ^ 61 -> Z.of_nat (length C) = M * M ->
  0 <= i -> Z.max 0 (M - i) < Z.of_nat fuel ->
  exists c, checksum_loop fuel M i C acc = Done c.
Proof.
  intros HM Hsq Hlen. pose proof (stride_pos M HM) as Hs.
  assert (HM' : M < 1518500250) by nia.
  assert (Hsle : stride M <= 189812532).
  { rewrite stride_max by lia.
    assert (M / 8 <= 189812532) by (apply Z.div_le_upper_bound; lia). lia. }
  revert i acc.
  induction fuel as [|fuel IH]; intros i acc Hi Hfuel; [lia|].
  cbn [checksum_loop]. destruct (i <? M) eqn:E.
  - apply Z.ltb_lt in E.
    rewrite Z.rem_small by lia. rewrite at_small by lia.
    destruct (lookup_lt_is_Some_2 C (Z.to_nat (i * M + i)) ltac:(nia)) as [v Hv].
    rewrite (load_Done C (i * M + i) v ltac:(nia) Hv). cbn [bind].
    unfold add_int. rewrite int_of_Done by (unfold INT_MIN, INT_MAX; lia). cbn [bind].
    apply IH; lia.
  - eexists. reflexivity.
Qed.

(** The kernel factors through [checksum_of]: the clock enters the elapsed
    time only. *)
Lemma matrix_mul_test_run M e st :
  three_granted e st = true ->
  matrix_mul_test M e st =
    match checksum_of M with
    | Done sum =>
        Done ((clock e (S (ticks st)) - clock e (ticks st))%float, after_matrix sum st)
    | Undefined => Undefined
    | OutOfFuel => OutOfFuel
    end.
Proof.
  unfold three_granted. rewrite !andb_true_iff. intros [[H1 H2] H3].
  unfold matrix_mul_test, pbind, malloc, lift, now_seconds, print, ret.
  cbn [mallocs count_malloc]. rewrite H1, H2, H3.
  unfold checksum_of, product, generated, fresh.
  destruct (init M _) as [abc| |]; try reflexivity. cbn [bind].
  destruct (multiply M abc) as [C| |]; try reflexivity. cbn [bind].
  destruct (checksum M C) as [c| |]; reflexivity.
Qed.

Lemma matrix_mul_test_failed M e st :
  three_granted e st = false ->
  matrix_mul_test M e st =
    Done ((-1)%float,
          add_err ("malloc failed matrix" +:+ nl) (count_malloc (count_malloc (count_malloc st)))).
Proof.
  unfold three_granted. intros H.
  unfold matrix_mul_test, pbind, malloc, lift, now_seconds, print, ret, eprint.
  cbn [mallocs count_malloc].
  destruct (heap_ok e (mallocs st)), (heap_ok e (S (mallocs st))),
    (heap_ok e (S (S (mallocs st)))); try discriminate; reflexivity.
Qed.

Lemma checksum_of_Done M :
  1 <= M -> M * M < 2 ^ 61 ->
  exists C, product M = Done C /\ Z.of_nat (length C) = M * M
    /\ checksum_of M = Done (sampled_sum M C).
Proof.
  intros HM Hsq.
  assert (HM' : M < 1518500250) by nia.
  destruct (product_Done M) as (C & HC & Hlen); unfold INT_MIN, INT_MAX; try lia.
  exists C. split; [assumption|]. split; [assumption|].
  unfold checksum_of. rewrite HC. cbn [bind].
  destruct (checksum_loop_Done (S (Z.to_nat M)) M 0 C 0%float) as [c Hc]; try lia.
  unfold checksum at 1. rewrite Hc. f_equal.
  apply checksum_sum; [unfold INT_MAX; lia | exact Hc].
Qed.

End MatrixFacts.

(** C2.  The checksum the matrix kernel prints is a function of the size
    alone ([checksum_of M]): any two runs with the same size on which
    allocation succeeds, whatever their clocks and states, print the same
    checksum; a run on which allocation fails prints none. *)
Theorem checksum_deterministic :
  forall M e1 st1 e2 st2 t1 st1' t2 st2',
    Matrix.matrix_mul_test M e1 st1 = Done (t1, st1') ->
    Matrix.matrix_mul_test M e2 st2 = Done (t2, st2') ->
    (three_granted e1 st1 = true -> three_granted e2 st2 = true ->
       exists sum, checksum_of M = Done sum
         /\ out st1' = out st1 ++ [LMatrixChecksum sum]
         /\ out st2' = out st2 ++ [LMatrixChecksum sum])
    /\ (three_granted e1 st1 = false -> out st1' = out st1).
Proof.
  intros M e1 st1 e2 st2 t1 st1' t2 st2' H1 H2. split.
  - intros G1 G2.
    rewrite MatrixFacts.matrix_mul_test_run in H1, H2 by assumption.
    destruct (checksum_of M) as [sum| |]; try discriminate.
    exists sum. split; [reflexivity|].
    injection H1 as _ <-. injection H2 as _ <-. split; reflexivity.
  - intros G1. rewrite MatrixFacts.matrix_mul_test_failed in H1 by assumption.
    injection H1 as _ <-. reflexivity.
Qed.

Lemma checksum_deterministic_witness :
  exists t1 st1' t2 st2',
    Matrix.matrix_mul_test 4 (env0 true) st0 = Done (t1, st1')
    /\ Matrix.matrix_mul_test 4 env1 st0 = Done (t2, st2')
    /\ (t1 =? t2)%float = false
    /\ exists sum, out st1' = [LMatrixChecksum sum] /\ out st2' = [LMatrixChecksum sum].
Proof.
  pose proof (MatrixFacts.matrix_mul_test_run 4 (env0 true) st0 eq_refl) as E1.
  pose proof (MatrixFacts.matrix_mul_test_run 4 env1 st0 eq_refl) as E2.
  destruct (checksum_of 4) as [sum| |] eqn:Ec; try (vm_compute in Ec; discriminate Ec).
  eexists _, _, _, _. split; [exact E1|]. split; [exact E2|].
  split; [vm_compute; reflexivity|].
  destruct (checksum_deterministic 4 _ _ _ _ _ _ _ _ E1 E2) as [H _].
  destruct (H eq_refl eq_refl) as (sum' & _ & O1 & O2).
  exists sum'. split; assumption.
Defined.

(** C3.  For size 4 the generator fills [A[i]] from the state after
    [2i + 1] advances, [B[i]] from the state after [2i + 2] advances and
    [C[i]] with 0; the i-k-j multiplication of these matrices agrees entry
    by entry within 1e-9 with the reference i-j-k multiplication (the two
    are in fact equal). *)
Theorem multiply_4_matches_reference :
  exists A B C0 C,
    generated 4 = Done (A, B, C0)
    /\ A = map (fun i => Matrix.cell (Nat.iter (2 * i + 1) Matrix.lcg Matrix.SEED)) (seq 0 16)
    /\ B = map (fun i => Matrix.cell (Nat.iter (2 * i + 2) Matrix.lcg Matrix.SEED)) (seq 0 16)
    /\ C0 = replicate 16 0%float
    /\ Matrix.multiply 4 (A, B, C0) = Done C
    /\ Forall2 (fun c r => within_tolerance c r = true) C (reference_product 4 A B)
    /\ C = reference_product 4 A B.
Proof.
  destruct (generated 4) as [[[A B] C0]| |] eqn:E; try (vm_compute in E; discriminate E).
  destruct (Matrix.multiply 4 (A, B, C0)) as [C| |] eqn:EC.
  2,3: vm_compute in E; injection E as <- <- <-; vm_compute in EC; discriminate EC.
  exists A, B, C0, C. split; [reflexivity|].
  vm_compute in E. injection E as <- <- <-.
  vm_compute in EC. injection EC as <-.
  split; [vm_compute; reflexivity|].
  split; [vm_compute; reflexivity|].
  split; [vm_compute; reflexivity|].
  split; [reflexivity|].
  split; [|vm_compute; reflexivity].
  vm_compute. repeat constructor.
Qed.

(** C4.  For every size [M >= 1]: the stride expression of the code equals
    [max(1, M/8)]; whenever the checksum loop completes on a matrix its
    result is the sum of [C[i, i mod M]] over the rows [i = 0, s, 2s, ...]
    below [M]; a run of the kernel that completes after a successful
    allocation prints that sum of the product matrix; and for every size
    whose buffers fit the address space ([M * M < 2^61]) the run does
    complete. *)
Theorem checksum_is_sampled_sum :
  forall M, 1 <= M <= INT_MAX ->
    Matrix.stride M = Z.max 1 (M / 8)
    /\ (forall i, In i (sampled_rows M) <-> 0 <= i < M /\ i mod Z.max 1 (M / 8) = 0)
    /\ (forall C c, Matrix.checksum M C = Done c -> c = sampled_sum M C)
    /\ (forall e st t st',
          three_granted e st = true ->
          Matrix.matrix_mul_test M e st = Done (t, st') ->
          exists C, product M = Done C
            /\ out st' = out st ++ [LMatrixChecksum (sampled_sum M C)])
    /\ (M * M < 2 ^ 61 ->
        forall e st, three_granted e st = true ->
          exists C, product M = Done C
            /\ Matrix.matrix_mul_test M e st =
                 Done ((clock e (S (ticks st)) - clock e (ticks st))%float,
                       after_matrix (sampled_sum M C) st)).
Proof.
  intros M HM. split; [apply MatrixFacts.stride_max; lia|].
  split.
  { intros i. unfold sampled_rows, rows_from.
    rewrite filter_In, <- list_elem_of_In, elem_of_seqZ, Z.eqb_eq. intuition lia. }
  split; [intros C c; now apply MatrixFacts.checksum_sum|].
  split.
  - intros e st t st' G Hrun.
    rewrite MatrixFacts.matrix_mul_test_run in Hrun by assumption.
    unfold checksum_of in Hrun.
    destruct (product M) as [C| |]; try discriminate. cbn [bind] in Hrun.
    destruct (Matrix.checksum M C) as [c| |] eqn:Ec; try discriminate.
    injection Hrun as _ <-. exists C. split; [reflexivity|].
    apply MatrixFacts.checksum_sum in Ec; [|assumption]. now subst c.
  - intros Hsq e st G.
    destruct (MatrixFacts.checksum_of_Done M) as (C & HC & _ & Hsum); try lia.
    exists C. split; [assumption|].
    rewrite MatrixFacts.matrix_mul_test_run by assumption. now rewrite Hsum.
Qed.

Lemma checksum_is_sampled_sum_witness :
  1 <= 20 <= INT_MAX /\ Matrix.stride 20 = Z.max 1 (20 / 8) /\ sampled_rows 20 = [0; 2; 4; 6; 8; 10; 12; 14; 16; 18].
Proof.
  assert (H : 1 <= 20 <= INT_MAX) by (unfold INT_MAX; lia).
  split; [exact H|].
  split; [exact (proj1 (checksum_is_sampled_sum 20 H)) | vm_compute; reflexivity].
Defined.

(** ** Binary64 arithmetic on integers

    The colour index is computed in [double]: [(int)(255.0 * iter /
    (double)maxiter)].  The lemmas below follow the operations through their
    specification ([SpecFloat]) on operands that are integers. *)

Module FloatFacts.

Lemma digits_bounds m :
  2 ^ (Zpos (digits2_pos m) - 1) <= Zpos m < 2 ^ Zpos (digits2_pos m).
Proof.
  induction m as [m IH|m IH|]; cbn [digits2_pos].
  - rewrite Pos2Z.inj_succ. change (Zpos m~1) with (2 * Zpos m + 1).
    replace (Z.succ (Zpos (digits2_pos m)) - 1) with (Z.succ (Zpos (digits2_pos m) - 1)) by lia.
    rewrite !Z.pow_succ_r by lia. lia.
  - rewrite Pos2Z.inj_succ. change (Zpos m~0) with (2 * Zpos m).
    replace (Z.succ (Zpos (digits2_pos m)) - 1) with (Z.succ (Zpos (digits2_pos m) - 1)) by lia.
    rewrite !Z.pow_succ_r by lia. lia.
  - cbn. lia.
Qed.

Lemma digits_unique m d :
  2 ^ (d - 1) <= Zpos m < 2 ^ d -> Zpos (digits2_pos m) = d.
Proof.
  intros H. pose proof (digits_bounds m) as Hb.
  set (D := Zpos (digits2_pos m)) in *.
  assert (HD : 0 < D) by (unfold D; lia).
  assert (Hd : 0 < d).
  { destruct (Z_lt_le_dec 0 d); [assumption|].
    assert (2 ^ d <= 2 ^ 0) by (apply Z.pow_le_mono_r; lia). cbn in *. lia. }
  destruct (Z_lt_le_dec D d) as [Hlt|Hle].
  - assert (2 ^ D <= 2 ^ (d - 1)) by (apply Z.pow_le_mono_r; lia). lia.
  - destruct (Z_lt_le_dec d D) as [Hlt'|Hle']; [|lia].
    assert (2 ^ d <= 2 ^ (D - 1)) by (apply Z.pow_le_mono_r; lia). lia.
Qed.

Lemma digits_shift m k p :
  0 <= k -> Zpos p = Zpos m * 2 ^ k ->
  Zpos (digits2_pos p) = Zpos (digits2_pos m) + k.
Proof.
  intros Hk Hp. apply digits_unique. rewrite Hp.
  pose proof (digits_bounds m) as Hb.
  assert (H2 : 0 < 2 ^ k) by (apply Z.pow_pos_nonneg; lia).
  replace (Zpos (digits2_pos m) + k - 1) with ((Zpos (digits2_pos m) - 1) + k) by lia.
  rewrite !Z.pow_add_r by lia. nia.
Qed.

(** Shifting to the right bits that are all zero loses nothing. *)
Lemma iter_pos_iter {A} (f : A -> A) n x :
  SpecFloat.iter_pos f n x = Nat.iter (Pos.to_nat n) f x.
Proof.
  revert x. induction n as [n IH|n IH|]; intros x; cbn [SpecFloat.iter_pos].
  - rewrite !IH, Pos2Nat.inj_xI.
    replace (S (2 * Pos.to_nat n)) with (Pos.to_nat n + (Pos.to_nat n + 1))%nat by lia.
    rewrite !Nat.iter_add. reflexivity.
  - rewrite !IH, Pos2Nat.inj_xO.
    replace (2 * Pos.to_nat n)%nat with (Pos.to_nat n + Pos.to_nat n)%nat by lia.
    rewrite Nat.iter_add. reflexivity.
  - reflexivity.
Qed.

Lemma shr_1_even m :
  0 <= m ->
  shr_1 {| shr_m := 2 * m; shr_r := false; shr_s := false |}
    = {| shr_m := m; shr_r := false; shr_s := false |}.
Proof. intros H. destruct m as [|p|p]; [reflexivity | reflexivity | lia]. Qed.

Lemma shr_zeros k m :
  0 <= m ->
  Nat.iter k shr_1 {| shr_m := m * 2 ^ Z.of_nat k; shr_r := false; shr_s := false |}
    = {| shr_m := m; shr_r := false; shr_s := false |}.
Proof.
  intros Hm. revert m Hm. induction k as [|k IH]; intros m Hm.
  - cbn [Nat.iter]. rewrite Z.mul_1_r. reflexivity.
  - rewrite Nat.iter_succ_r.
    replace (m * 2 ^ Z.of_nat (S k)) with (2 * (m * 2 ^ Z.of_nat k))
      by (rewrite Nat2Z.inj_succ, Z.pow_succ_r by lia; lia).
    rewrite shr_1_even by (apply Z.mul_nonneg_nonneg; [lia | apply Z.pow_nonneg; lia]).
    now apply IH.
Qed.

(** Rounding a mantissa that is a canonical one followed by [k] zero bits
    yields the canonical number. *)
Lemma round_exact m e k :
  Zpos (digits2_pos m) = 53 -> -1074 <= e <= 971 -> 0 <= k ->
  forall p, Zpos p = Zpos m * 2 ^ k ->
  binary_round_aux prec emax false (Zpos p) (e - k) loc_Exact = S754_finite false m e.
Proof.
  intros Hd He Hk p Hp.
  pose proof (digits_shift m k p Hk Hp) as Hdp.
  unfold binary_round_aux, shr_fexp. cbn [Zdigits2]. rewrite Hdp, Hd.
  unfold fexp, SpecFloat.emin, prec, emax.
  replace (Z.max (53 + k + (e - k) - 53) (3 - 1024 - 53) - (e - k)) with k by lia.
  cbn [shr_record_of_loc].
  assert (Hfirst : shr {| shr_m := Zpos p; shr_r := false; shr_s := false |} (e - k) k
                   = ({| shr_m := Zpos m; shr_r := false; shr_s := false |}, e)).
  { unfold shr. destruct k as [|k'|k']; [| |lia].
    - f_equal; [|lia]. f_equal. lia.
    - f_equal; [|lia]. rewrite iter_pos_iter, Hp.
      rewrite <- (positive_nat_Z k') at 1. apply shr_zeros. lia. }
  rewrite Hfirst. cbn [shr_m loc_of_shr_record round_nearest_even Zdigits2].
  rewrite Hd.
  replace (Z.max (53 + e - 53) (3 - 1024 - 53) - e) with 0 by lia.
  cbn [shr shr_record_of_loc shr_m].
  destruct (e <=? 1024 - 53) eqn:E; [reflexivity | apply Z.leb_gt in E; lia].
Qed.

Lemma iter_xO p k : Zpos (Pos.iter xO p k) = Zpos p * 2 ^ Zpos k.
Proof.
  induction k as [|k IH] using Pos.peano_ind.
  - change (Zpos p~0 = Zpos p * 2). lia.
  - rewrite Pos.iter_succ, Pos2Z.inj_succ, Z.pow_succ_r by lia.
    change (Zpos (Pos.iter xO p k)~0) with (2 * Zpos (Pos.iter xO p k)).
    rewrite IH. lia.
Qed.

(** Conversion of an integer below [2^53] is exact. *)
Lemma normalize_int z :
  0 < z < 2 ^ 53 -> represents (binary_normalize prec emax z 0 false) z.
Proof.
  intros Hz. destruct z as [|p|p]; try lia.
  cbn [binary_normalize]. unfold binary_round.
  pose proof (digits_bounds p) as Hb.
  set (d := Zpos (digits2_pos p)) in *.
  assert (Hd : 1 <= d <= 53).
  { split; [unfold d; lia|].
    destruct (Z_le_gt_dec d 53); [assumption|].
    assert (2 ^ 53 <= 2 ^ (d - 1)) by (apply Z.pow_le_mono_r; lia). lia. }
  unfold fexp, SpecFloat.emin, prec, emax.
  replace (Z.max (d + 0 - 53) (3 - 1024 - 53)) with (d - 53) by lia.
  unfold shl_align.
  destruct (d - 53 - 0) as [|k|k] eqn:Ek; try lia.
  - exists p, 0. split; [|split; [lia | split; [lia|cbn; lia]]].
    replace 0 with (0 - 0) at 1 by lia.
    apply round_exact; fold d; lia.
  - pose proof (iter_xO p k) as Hshift.
    exists (Pos.iter xO p k), (d - 53). split; [|split; [|split; [lia|]]].
    + replace (d - 53) with (d - 53 - 0) at 1 by lia.
      apply round_exact; try lia.
      rewrite (digits_shift p (Zpos k) _ ltac:(lia) Hshift); fold d; lia.
    + rewrite (digits_shift p (Zpos k) _ ltac:(lia) Hshift). fold d. lia.
    + rewrite Hshift. f_equal. f_equal. lia.
Qed.

Lemma normalize_zero : binary_normalize prec emax 0 0 false = S754_zero false.
Proof. reflexivity. Qed.

Lemma double_of_int_nonneg z :
  0 <= z < 2 ^ 53 ->
  Prim2SF (double_of_int z) = binary_normalize prec emax z 0 false.
Proof.
  intros Hz. unfold double_of_int.
  destruct (z <? 0) eqn:E; [apply Z.ltb_lt in E; lia|].
  rewrite of_uint63_spec, Uint63.of_Z_spec.
  rewrite Z.mod_small; [reflexivity|].
  change wB with (2 ^ 63). assert (2 ^ 53 < 2 ^ 63) by (cbn; lia). lia.
Qed.

Lemma double_of_int_neg z :
  - 2 ^ 53 < z < 0 ->
  Prim2SF (double_of_int z) = SFopp (binary_normalize prec emax (- z) 0 false).
Proof.
  intros Hz. unfold double_of_int.
  destruct (z <? 0) eqn:E; [|apply Z.ltb_ge in E; lia].
  rewrite opp_spec, of_uint63_spec, Uint63.of_Z_spec.
  rewrite Z.mod_small; [reflexivity|].
  change wB with (2 ^ 63). assert (2 ^ 53 < 2 ^ 63) by (cbn; lia). lia.
Qed.

Lemma prim_255 : Prim2SF 255 = S754_finite false 8972014882652160 (-45).
Proof. vm_compute. reflexivity. Qed.

(** [255.0 * z] is exact as long as the product is below [2^53]. *)
Lemma mul_255 z x :
  0 < z -> 255 * z < 2 ^ 53 -> represents x z ->
  represents (SF64mul (Prim2SF 255) x) (255 * z).
Proof.
  intros Hz Hlt (m & e & -> & Hd & He & Hm).
  destruct (normalize_int (255 * z) ltac:(lia)) as (m' & e' & Hn & Hd' & He' & Hm').
  exists m', e'. split; [|split; [assumption | split; assumption]].
  rewrite prim_255. unfold SF64mul. cbn [SFmul xorb].
  pose proof (digits_bounds m) as Hb. rewrite Hd in Hb.
  pose proof (digits_bounds m') as Hb'. rewrite Hd' in Hb'.
  assert (Hpe : 0 < 2 ^ (- e)) by (apply Z.pow_pos_nonneg; lia).
  assert (Hpe' : 0 < 2 ^ (- e')) by (apply Z.pow_pos_nonneg; lia).
  assert (Hee : e < e').
  { destruct (Z_lt_le_dec e e'); [assumption|]. exfalso.
    assert (2 ^ (- e) <= 2 ^ (- e')) by (apply Z.pow_le_mono_r; lia).
    change (2 ^ (53 - 1)) with 4503599627370496 in *.
    change (2 ^ 53) with 9007199254740992 in *. nia. }
  replace (-45 + e) with (e' - (e' + 45 - e)) by lia.
  apply round_exact; try lia.
  rewrite Pos2Z.inj_mul, Hm, Hm'.
  replace (- e) with (- e' + (e' - e)) by lia.
  replace (e' + 45 - e) with (45 + (e' - e)) by lia.
  rewrite !Z.pow_add_r by lia.
  change (2 ^ 45) with 35184372088832. lia.
Qed.

(** *** Division *)

Lemma rne_bounds m l : m <= round_nearest_even m l <= m + 1.
Proof. destruct l as [|[]]; cbn [round_nearest_even]; try lia. destruct (Z.even m); lia. Qed.

Lemma digits_53 p : 2 ^ 52 <= Zpos p < 2 ^ 53 -> Zpos (digits2_pos p) = 53.
Proof. intros H. now apply digits_unique. Qed.

Lemma digits_54 p : 2 ^ 53 <= Zpos p < 2 ^ 54 -> Zpos (digits2_pos p) = 54.
Proof. intros H. now apply digits_unique. Qed.

(** The first shift of a rounding: a mantissa of 53 or 54 bits loses at
    most its last bit. *)
Lemma first_shift q e l :
  2 ^ 52 <= q < 2 ^ 54 -> -1074 <= e ->
  exists mrs j, shr_fexp prec emax q e l = (mrs, e + j) /\ 0 <= j <= 1
    /\ shr_m mrs = q / 2 ^ j /\ 2 ^ 52 <= shr_m mrs < 2 ^ 53.
Proof.
  intros Hq He. destruct q as [|p|p]; try lia.
  unfold shr_fexp. cbn [Zdigits2].
  unfold fexp, SpecFloat.emin, prec, emax.
  destruct (Z_lt_le_dec (Zpos p) (2 ^ 53)) as [Hlt|Hge].
  - rewrite digits_53 by lia.
    replace (Z.max (53 + e - 53) (3 - 1024 - 53) - e) with 0 by lia.
    cbn [shr]. exists (shr_record_of_loc (Zpos p) l), 0.
    split; [f_equal; lia|]. split; [lia|].
    assert (Hm : shr_m (shr_record_of_loc (Zpos p) l) = Zpos p)
      by (destruct l as [|[]]; reflexivity).
    rewrite Hm. split; [now rewrite Z.div_1_r | lia].
  - rewrite digits_54 by lia.
    replace (Z.max (54 + e - 53) (3 - 1024 - 53) - e) with 1 by lia.
    cbn [shr SpecFloat.iter_pos].
    exists (shr_1 (shr_record_of_loc (Zpos p) l)), 1.
    split; [reflexivity|]. split; [lia|].
    assert (Hm : shr_m (shr_1 (shr_record_of_loc (Zpos p) l)) = Zpos p / 2).
    { destruct p as [p'|p'|]; [| |cbn in Hge; lia];
        destruct l as [|[]]; cbn [shr_record_of_loc shr_1 shr_m orb].
      all: try (change (Zpos p'~1) with (2 * Zpos p' + 1));
           try (change (Zpos p'~0) with (2 * Zpos p'));
           Z.div_mod_to_equations; lia. }
    rewrite Hm. change (2 ^ 1) with 2.
    change (2 ^ 52) with 4503599627370496 in *.
    change (2 ^ 53) with 9007199254740992 in *.
    change (2 ^ 54) with 18014398509481984 in *.
    split; [reflexivity|]. Z.div_mod_to_equations. lia.
Qed.

(** The second shift: a rounded mantissa is a 53-bit one or [2^53]. *)
Lemma renormalize m1 e1 :
  2 ^ 52 <= m1 <= 2 ^ 53 -> -1074 <= e1 ->
  exists m2 j,
    shr_fexp prec emax m1 e1 loc_Exact
      = ({| shr_m := Zpos m2; shr_r := false; shr_s := false |}, e1 + j)
    /\ 0 <= j <= 1 /\ Zpos m2 * 2 ^ j = m1.
Proof.
  intros Hm He. destruct m1 as [|p|p]; try lia.
  unfold shr_fexp. cbn [Zdigits2 shr_record_of_loc].
  unfold fexp, SpecFloat.emin, prec, emax.
  destruct (Z_lt_le_dec (Zpos p) (2 ^ 53)) as [Hlt|Hge].
  - rewrite digits_53 by lia.
    replace (Z.max (53 + e1 - 53) (3 - 1024 - 53) - e1) with 0 by lia.
    cbn [shr]. exists p, 0. split; [f_equal; lia|]. split; [lia|]. cbn. lia.
  - assert (Hp : Zpos p = 2 ^ 53) by lia.
    rewrite digits_54 by (rewrite Hp; cbn; lia).
    replace (Z.max (54 + e1 - 53) (3 - 1024 - 53) - e1) with 1 by lia.
    cbn [shr SpecFloat.iter_pos].
    injection Hp as ->.
    exists 4503599627370496%positive, 1. split; [reflexivity|]. split; [lia|reflexivity].
Qed.

(** Rounding a quotient mantissa of 53 or 54 bits moves it by at most two
    units. *)
Lemma round_bracket q e l :
  2 ^ 52 <= q < 2 ^ 54 -> -1074 <= e <= 900 ->
  exists m j, binary_round_aux prec emax false q e l = S754_finite false m (e + j)
    /\ 0 <= j <= 2 /\ 4 * (q / 4) <= Zpos m * 2 ^ j <= q + 2.
Proof.
  intros Hq He. unfold binary_round_aux.
  destruct (first_shift q e l Hq ltac:(lia)) as (mrs & j1 & -> & Hj1 & Hm1 & Hb1).
  pose proof (rne_bounds (shr_m mrs) (loc_of_shr_record mrs)) as Hr.
  set (m1 := round_nearest_even (shr_m mrs) (loc_of_shr_record mrs)) in *.
  destruct (renormalize m1 (e + j1) ltac:(lia) ltac:(lia)) as (m2 & j2 & -> & Hj2 & Hm2).
  cbn [shr_m]. unfold emax, prec.
  destruct (e + j1 + j2 <=? 1024 - 53) eqn:E; [|apply Z.leb_gt in E; lia].
  exists m2, (j1 + j2). split; [f_equal; lia|]. split; [lia|].
  rewrite Z.pow_add_r by lia.
  replace (Zpos m2 * (2 ^ j1 * 2 ^ j2)) with (Zpos m2 * 2 ^ j2 * 2 ^ j1) by lia.
  rewrite Hm2. rewrite Hm1 in Hr.
  assert (Hcase : j1 = 0 \/ j1 = 1) by lia.
  destruct Hcase as [-> | ->].
  - change (2 ^ 0) with 1 in *. rewrite Z.div_1_r in Hr. Z.div_mod_to_equations. lia.
  - change (2 ^ 1) with 2 in *. Z.div_mod_to_equations. lia.
Qed.

(** The integral part of the rounded quotient of two integers is their
    integer quotient, as long as the dividend is below [2^40]. *)
Lemma div_floor x y a b :
  represents x a -> represents y b -> 0 < a < 2 ^ 40 -> 0 < b ->
  exists m e, SF64div x y = S754_finite false m e /\ e < 0
    /\ Zpos m / 2 ^ (- e) = a / b.
Proof.
  intros (mx & ex & -> & Hdx & Hex & Hmx) (my & ey & -> & Hdy & Hey & Hmy) Ha Hb.
  pose proof (digits_bounds mx) as Hbx. rewrite Hdx in Hbx.
  pose proof (digits_bounds my) as Hby. rewrite Hdy in Hby.
  change (2 ^ (53 - 1)) with (2 ^ 52) in *.
  assert (Hex' : ex <= -13).
  { destruct (Z_le_gt_dec ex (-13)); [assumption|]. exfalso.
    assert (2 ^ (- ex) <= 2 ^ 12) by (apply Z.pow_le_mono_r; lia).
    change (2 ^ 52) with (2 ^ 40 * 2 ^ 12) in Hbx.
    assert (0 < 2 ^ (- ex)) by (apply Z.pow_pos_nonneg; lia). nia. }
  unfold SF64div. cbn [SFdiv xorb]. unfold SFdiv_core_binary. cbn [Zdigits2].
  rewrite Hdx, Hdy. unfold fexp, SpecFloat.emin, prec, emax.
  replace (Z.min (Z.max (53 + ex - (53 + ey) - 53) (3 - 1024 - 53)) (ex - ey))
    with (ex - ey - 53) by lia.
  replace (ex - ey - (ex - ey - 53)) with 53 by lia.
  rewrite Z.shiftl_mul_pow2 by lia.
  destruct (Z.div_eucl (Zpos mx * 2 ^ 53) (Zpos my)) as [q r] eqn:Eqr.
  assert (Hqdef : q = Zpos mx * 2 ^ 53 / Zpos my) by (unfold Z.div; now rewrite Eqr).
  (* the quotient in terms of a and b *)
  set (T := 53 + ey - ex).
  assert (HT : 14 <= T) by (unfold T; lia).
  assert (Hq : q = a * 2 ^ T / b).
  { rewrite Hqdef, Hmx, Hmy.
    replace (a * 2 ^ (- ex) * 2 ^ 53) with (a * 2 ^ T * 2 ^ (- ey)).
    - apply Z.div_mul_cancel_r; [lia|]. apply Z.pow_nonzero; lia.
    - unfold T. rewrite <- !Z.mul_assoc, <- !Z.pow_add_r by lia.
      f_equal. f_equal. lia. }
  assert (H2T : 8192 * b < 2 ^ T).
  { unfold T. replace (53 + ey - ex) with ((53 + ey) + (- ex)) by lia.
    rewrite Z.pow_add_r by lia.
    assert (HP : 2 ^ (53 + ey) * 2 ^ (- ey) = 2 ^ 53)
      by (rewrite <- Z.pow_add_r by lia; f_equal; lia).
    assert (0 < 2 ^ (- ey)) by (apply Z.pow_pos_nonneg; lia).
    assert (0 < 2 ^ (53 + ey)) by (apply Z.pow_pos_nonneg; lia).
    assert (2 ^ 13 <= 2 ^ (- ex)) by (apply Z.pow_le_mono_r; lia).
    change (2 ^ 13) with 8192 in *.
    assert (b < 2 ^ (53 + ey)) by nia. nia. }
  assert (Hqb : 2 ^ 52 <= q < 2 ^ 54).
  { rewrite Hqdef. split.
    - apply Z.div_le_lower_bound; [lia|].
      change (2 ^ 53) with 9007199254740992 in *.
      change (2 ^ 52) with 4503599627370496 in *. nia.
    - apply Z.div_lt_upper_bound; [lia|].
      change (2 ^ 54) with 18014398509481984.
      change (2 ^ 53) with 9007199254740992 in *.
      change (2 ^ 52) with 4503599627370496 in *. nia. }
  destruct (round_bracket q (ex - ey - 53) (new_location (Zpos my) r) Hqb ltac:(lia))
    as (m & j & Hrb & Hj & HV).
  unfold prec, emax in Hrb. rewrite Hrb.
  exists m, (ex - ey - 53 + j). split; [reflexivity|]. split; [lia|].
  replace (- (ex - ey - 53 + j)) with (T - j) by (unfold T; lia).
  (* [Zpos m / 2^(T-j) = (Zpos m * 2^j) / 2^T] *)
  assert (HVdiv : Zpos m / 2 ^ (T - j) = Zpos m * 2 ^ j / 2 ^ T).
  { replace (2 ^ T) with (2 ^ (T - j) * 2 ^ j)
      by (rewrite <- Z.pow_add_r by lia; f_equal; lia).
    symmetry. apply Z.div_mul_cancel_r; apply Z.pow_nonzero; lia. }
  rewrite HVdiv.
  set (V := Zpos m * 2 ^ j) in *. set (k := a / b).
  assert (Hk : k * b <= a < (k + 1) * b).
  { unfold k. pose proof (Z.div_mod a b ltac:(lia)).
    pose proof (Z.mod_pos_bound a b ltac:(lia)). lia. }
  assert (H4 : 2 ^ T = 4 * 2 ^ (T - 2)).
  { change 4 with (2 ^ 2). rewrite <- Z.pow_add_r by lia. f_equal. lia. }
  assert (HpT : 0 < 2 ^ (T - 2)) by (apply Z.pow_pos_nonneg; lia).
  assert (Hk0 : 0 <= k) by (unfold k; apply Z.div_pos; lia).
  assert (Hlow : k * 2 ^ T <= q).
  { rewrite Hq. apply Z.div_le_lower_bound; [lia|]. nia. }
  assert (Hup : q < (k + 1) * 2 ^ T - 8192).
  { rewrite Hq. apply Z.div_lt_upper_bound; [lia|]. nia. }
  symmetry. apply Z.div_unique_pos with (r := V - 2 ^ T * k); [|lia].
  assert (Hq4 : 4 * (k * 2 ^ (T - 2)) <= 4 * (q / 4)).
  { assert (k * 2 ^ (T - 2) <= q / 4) by (apply Z.div_le_lower_bound; lia). lia. }
  lia.
Qed.

(** The colour index: [(int)(255.0 * iter / (double)maxiter)] is the integer
    quotient of [255 * iter] by [maxiter]. *)
Lemma colour_index iter maxiter :
  0 <= iter < maxiter -> maxiter <= INT_MAX ->
  int_of_double (255 * double_of_int iter / double_of_int maxiter)
    = Done (255 * iter / maxiter).
Proof.
  intros Hi Hm. unfold INT_MAX in Hm.
  assert (H53 : 2 ^ 53 = 9007199254740992) by reflexivity.
  assert (H40 : 2 ^ 40 = 1099511627776) by reflexivity.
  unfold int_of_double. rewrite div_spec, mul_spec.
  rewrite !double_of_int_nonneg by lia.
  pose proof (normalize_int maxiter ltac:(lia)) as Hy.
  destruct (Z.eq_dec iter 0) as [->|Hne].
  - rewrite normalize_zero, prim_255.
    destruct Hy as (my & ey & -> & _). reflexivity.
  - pose proof (mul_255 iter _ ltac:(lia) ltac:(lia) (normalize_int iter ltac:(lia))) as Hx.
    destruct (div_floor _ _ _ _ Hx Hy ltac:(lia) ltac:(lia)) as (m & e & -> & He & Hv).
    destruct (0 <=? e) eqn:E; [apply Z.leb_le in E; lia|].
    cbn [cond_Zopp]. rewrite Hv. apply int_of_Done.
    assert (0 <= 255 * iter / maxiter) by (apply Z.div_pos; lia).
    assert (255 * iter / maxiter < 255) by (apply Z.div_lt_upper_bound; lia).
    unfold INT_MIN, INT_MAX. lia.
Qed.

(** With a negative [maxiter] the loop never runs and the index is 0. *)
Lemma colour_index_negative maxiter :
  INT_MIN <= maxiter < 0 ->
  int_of_double (255 * double_of_int 0 / double_of_int maxiter) = Done 0.
Proof.
  intros Hm. unfold INT_MIN in Hm.
  assert (H53 : 2 ^ 53 = 9007199254740992) by reflexivity.
  unfold int_of_double. rewrite div_spec, mul_spec.
  rewrite (double_of_int_nonneg 0) by lia.
  rewrite double_of_int_neg by lia.
  destruct (normalize_int (- maxiter) ltac:(lia)) as (my & ey & -> & _).
  rewrite normalize_zero, prim_255. reflexivity.
Qed.

(** *** The sign of a difference *)

Lemma shl_align_value m e ez :
  ez <= e -> Zpos (fst (shl_align m e ez)) = Zpos m * 2 ^ (e - ez).
Proof.
  intros H. unfold shl_align.
  destruct (ez - e) as [|d|d] eqn:E; try lia.
  - replace (e - ez) with 0 by lia. cbn [fst]. lia.
  - cbn [fst]. rewrite iter_xO. f_equal. f_equal. lia.
Qed.

Lemma round_not_negative q e l :
  SFltb (binary_round_aux prec emax false q e l) (S754_zero false) = false.
Proof.
  unfold binary_round_aux.
  destruct (shr_fexp prec emax q e l) as [mrs' e'].
  destruct (shr_fexp prec emax _ e' loc_Exact) as [mrs'' e''].
  destruct (shr_m mrs''); [reflexivity | | reflexivity].
  destruct (e'' <=? emax - prec); reflexivity.
Qed.

Lemma normalize_not_negative d e :
  0 <= d -> SFltb (binary_normalize prec emax d e false) (S754_zero false) = false.
Proof.
  intros H. destruct d as [|p|p]; [reflexivity | | lia].
  cbn [binary_normalize]. unfold binary_round.
  destruct (shl_align p e _) as [mz ez]. apply round_not_negative.
Qed.

(** Of two valid numbers with the same sign, the one with the smaller
    exponent has the smaller magnitude. *)
Lemma smaller_exponent m1 e1 m2 e2 :
  bounded prec emax m1 e1 = true -> bounded prec emax m2 e2 = true ->
  e1 < e2 -> Zpos m1 < Zpos m2 * 2 ^ (e2 - e1).
Proof.
  unfold bounded, canonical_mantissa, fexp, SpecFloat.emin, prec, emax.
  rewrite !andb_true_iff, !Z.eqb_eq. intros [H1 _] [H2 _] He.
  pose proof (digits_bounds m1) as Hb1. pose proof (digits_bounds m2) as Hb2.
  assert (Hd2 : Zpos (digits2_pos m2) = 53) by lia.
  assert (Hd1 : Zpos (digits2_pos m1) <= 53) by lia.
  rewrite Hd2 in Hb2.
  assert (2 ^ Zpos (digits2_pos m1) <= 2 ^ 53) by (apply Z.pow_le_mono_r; lia).
  assert (2 ^ 1 <= 2 ^ (e2 - e1)) by (apply Z.pow_le_mono_r; lia).
  change (2 ^ (53 - 1)) with 4503599627370496 in *.
  change (2 ^ 53) with 9007199254740992 in *.
  change (2 ^ 1) with 2 in *. nia.
Qed.

(** When [t0 <= t1], the difference [t1 - t0] is not below zero. *)
Lemma sub_not_negative t0 t1 :
  (t0 <=? t1)%float = true -> (t1 - t0 <? 0)%float = false.
Proof.
  rewrite leb_spec, ltb_spec, sub_spec.
  change (Prim2SF 0) with (S754_zero false).
  pose proof (Prim2SF_valid t0) as V0. pose proof (Prim2SF_valid t1) as V1.
  destruct (Prim2SF t0) as [s0|s0| |s0 m0 e0], (Prim2SF t1) as [s1|s1| |s1 m1 e1];
    unfold SFleb, SF64sub; cbn [SFcompare SFsub];
    try discriminate;
    try (destruct s0, s1; (discriminate || reflexivity)).
  cbn [valid_binary] in V0, V1.
  intros Hle. apply normalize_not_negative.
  rewrite !shl_align_value by lia.
  assert (P0 : 0 < 2 ^ (e0 - Z.min e1 e0)) by (apply Z.pow_pos_nonneg; lia).
  assert (P1 : 0 < 2 ^ (e1 - Z.min e1 e0)) by (apply Z.pow_pos_nonneg; lia).
  destruct s0, s1; cbn [cond_Zopp]; try discriminate; try lia.
  - (* both negative *)
    destruct (Z.compare_spec e0 e1) as [Heq|Hlt|Hgt]; try discriminate.
    + subst e1. rewrite Z.min_id, Z.sub_diag in *. change (2 ^ 0) with 1.
      destruct (Pos.compare_cont Eq m0 m1) eqn:Ec; try discriminate;
        change (Pos.compare_cont Eq m0 m1) with (Pos.compare m0 m1) in Ec.
      * apply Pos.compare_eq in Ec. subst. lia.
      * apply Pos.compare_gt_iff in Ec. lia.
    + pose proof (smaller_exponent m1 e1 m0 e0 V1 V0 ltac:(lia)).
      rewrite Z.min_l by lia. rewrite Z.sub_diag. change (2 ^ 0) with 1. lia.
  - (* both positive *)
    destruct (Z.compare_spec e0 e1) as [Heq|Hlt|Hgt]; try discriminate.
    + subst e1. rewrite Z.min_id, Z.sub_diag in *. change (2 ^ 0) with 1.
      destruct (Pos.compare_cont Eq m0 m1) eqn:Ec; try discriminate;
        change (Pos.compare_cont Eq m0 m1) with (Pos.compare m0 m1) in Ec.
      * apply Pos.compare_eq in Ec. subst. lia.
      * change (m0 < m1)%positive in Ec. lia.
    + pose proof (smaller_exponent m0 e0 m1 e1 V0 V1 ltac:(lia)).
      rewrite Z.min_r by lia. rewrite Z.sub_diag. change (2 ^ 0) with 1. lia.
Qed.

End FloatFacts.

(** ** MandelbrotRasterizer *)

Module MandelFacts.
Import Mandel.

(** The loop stops at the first count at which the point has left the disc
    or the count has reached [maxiter]. *)
Lemma escape_spec fuel maxiter cx cy n :
  maxiter <= INT_MAX ->
  Z.max 0 (maxiter - Z.of_nat n) < Z.of_nat fuel ->
  let '(zx, zy) := orbit cx cy n in
  exists k, escape fuel maxiter cx cy zx zy (Z.of_nat n) = Done (Z.of_nat k)
    /\ (n <= k)%nat
    /\ (forall j, (n <= j < k)%nat -> in_disc (orbit cx cy j) = true)
    /\ (forall j, (n <= j < k)%nat -> Z.of_nat j < maxiter)
    /\ (in_disc (orbit cx cy k) = false \/ maxiter <= Z.of_nat k).
Proof.
  intros Hmax. revert n.
  induction fuel as [|fuel IH]; intros n Hfuel; [lia|].
  destruct (orbit cx cy n) as [zx zy] eqn:Eo.
  cbn [escape].
  destruct ((zx * zx + zy * zy <=? 4)%float) eqn:Etest.
  - destruct (Z.of_nat n <? maxiter) eqn:Elt; cbn [andb].
    + apply Z.ltb_lt in Elt.
      unfold add_int. rewrite int_of_Done by (unfold INT_MIN, INT_MAX in *; lia).
      cbn [bind].
      specialize (IH (S n) ltac:(lia)).
      assert (Hs : orbit cx cy (S n) = step cx cy (orbit cx cy n)) by reflexivity.
      rewrite Hs, Eo in IH. cbn [step] in IH.
      replace (Z.of_nat n + 1) with (Z.of_nat (S n)) by lia.
      destruct IH as (k & Hrun & Hk & Hin & Hlt & Hstop).
      exists k. split; [assumption|]. split; [lia|]. split; [|split; [|assumption]].
      * intros j Hj. destruct (Nat.eq_dec j n) as [->|Hne].
        -- rewrite Eo. exact Etest.
        -- apply Hin. lia.
      * intros j Hj. destruct (Nat.eq_dec j n) as [->|Hne]; [assumption|].
        apply Hlt. lia.
    + apply Z.ltb_ge in Elt. exists n. split; [reflexivity|]. split; [lia|].
      split; [intros; lia|]. split; [intros; lia|]. now right.
  - cbn [andb]. exists n. split; [reflexivity|]. split; [lia|].
    split; [intros; lia|]. split; [intros; lia|]. left. rewrite Eo. exact Etest.
Qed.

Lemma iterations_spec width height maxiter x y :
  maxiter <= INT_MAX ->
  exists k, iterations width height maxiter x y = Done (Z.of_nat k)
    /\ (forall j, (j < k)%nat ->
          in_disc (orbit (fst (point width height x y)) (snd (point width height x y)) j) = true
          /\ Z.of_nat j < maxiter)
    /\ Z.of_nat k <= Z.max 0 maxiter
    /\ (in_disc (orbit (fst (point width height x y)) (snd (point width height x y)) k) = false
        \/ maxiter <= Z.of_nat k).
Proof.
  intros Hmax. unfold iterations.
  destruct (point width height x y) as [cx cy]. cbn [fst snd].
  pose proof (escape_spec (S (Z.to_nat maxiter)) maxiter cx cy 0%nat Hmax ltac:(lia)) as H.
  change (orbit cx cy 0) with (0%float, 0%float) in H. cbn beta iota in H.
  destruct H as (k & Hrun & _ & Hin & Hlt & Hstop).
  exists k. split; [exact Hrun|].
  split; [intros j Hj; split; [apply Hin | apply Hlt]; lia|].
  split; [|assumption].
  destruct k as [|k]; [lia|]. specialize (Hlt k ltac:(lia)). lia.
Qed.

Lemma uchar_rem z : 0 <= z -> uchar (Z.rem z 256) = z mod 256.
Proof.
  intros H. unfold uchar. rewrite Z.rem_mod_nonneg by lia.
  apply Z.mod_small. apply Z.mod_pos_bound. lia.
Qed.

Lemma colour_black maxiter : colour maxiter maxiter = Done [0; 0; 0].
Proof. unfold colour. now rewrite Z.eqb_refl. Qed.

Lemma colour_escaped iter maxiter :
  0 <= iter < maxiter -> maxiter <= INT_MAX ->
  colour iter maxiter =
    Done [(255 * iter / maxiter) mod 256;
          (3 * (255 * iter / maxiter)) mod 256;
          (7 * (255 * iter / maxiter)) mod 256].
Proof.
  intros Hi Hm. unfold colour.
  destruct (iter =? maxiter) eqn:E; [apply Z.eqb_eq in E; lia|].
  rewrite FloatFacts.colour_index by assumption. cbn [bind].
  set (c := 255 * iter / maxiter).
  assert (0 <= c) by (apply Z.div_pos; lia).
  assert (c < 255) by (apply Z.div_lt_upper_bound; lia).
  unfold mul_int. rewrite !int_of_Done by (unfold INT_MIN, INT_MAX; lia). cbn [bind].
  rewrite !uchar_rem by lia.
  now rewrite (Z.mul_comm c 3), (Z.mul_comm c 7).
Qed.

Lemma colour_negative maxiter :
  INT_MIN <= maxiter < 0 -> colour 0 maxiter = Done [0; 0; 0].
Proof.
  intros Hm. unfold colour.
  destruct (0 =? maxiter) eqn:E; [apply Z.eqb_eq in E; lia|].
  rewrite FloatFacts.colour_index_negative by assumption. reflexivity.
Qed.

(** The bytes of a pixel, by its iteration count. *)
Lemma colour_Done iter maxiter :
  INT_MIN <= maxiter <= INT_MAX -> 0 <= iter <= Z.max 0 maxiter ->
  colour iter maxiter =
    Done (if iter =? maxiter then [0; 0; 0]
          else [(255 * iter / maxiter) mod 256;
                (3 * (255 * iter / maxiter)) mod 256;
                (7 * (255 * iter / maxiter)) mod 256]).
Proof.
  intros Hm Hi. destruct (iter =? maxiter) eqn:E.
  - apply Z.eqb_eq in E. subst. apply colour_black.
  - apply Z.eqb_neq in E. destruct (Z_lt_le_dec maxiter 0) as [Hneg|Hpos].
    + assert (iter = 0) by lia. subst iter.
      rewrite colour_negative by lia. reflexivity.
    + apply colour_escaped; lia.
Qed.

Lemma pixel_Done width height maxiter x y :
  INT_MIN <= maxiter <= INT_MAX ->
  exists col, pixel width height maxiter x y = Done col /\ length col = 3%nat.
Proof.
  intros Hm. unfold pixel.
  destruct (iterations_spec width height maxiter x y ltac:(lia))
    as (k & -> & _ & Hk & _).
  cbn [bind]. rewrite colour_Done by lia.
  eexists. split; [reflexivity|]. destruct (_ =? _); reflexivity.
Qed.

Lemma pixel_bytes_length width height maxiter x y :
  INT_MIN <= maxiter <= INT_MAX -> length (pixel_bytes width height maxiter x y) = 3%nat.
Proof.
  intros Hm. unfold pixel_bytes.
  destruct (pixel_Done width height maxiter x y Hm) as (col & -> & Hlen). exact Hlen.
Qed.

Lemma row_loop_Done fuel width height maxiter y x f :
  INT_MIN <= maxiter <= INT_MAX -> 0 <= x -> width <= INT_MAX ->
  Z.max 0 (width - x) < Z.of_nat fuel ->
  row_loop fuel width height maxiter y x f =
    Done (f ++ flat_map (fun x => pixel_bytes width height maxiter x y) (seqZ x (width - x))).
Proof.
  intros Hm. revert x f.
  induction fuel as [|fuel IH]; intros x f Hx Hw Hfuel; [lia|].
  cbn [row_loop]. destruct (x <? width) eqn:E.
  - apply Z.ltb_lt in E.
    destruct (pixel_Done width height maxiter x y Hm) as (col & Hcol & _).
    rewrite Hcol. cbn [bind].
    unfold add_int. rewrite int_of_Done by (unfold INT_MIN, INT_MAX in *; lia).
    cbn [bind]. rewrite IH by lia.
    rewrite (seqZ_cons x) by lia. cbn [flat_map].
    unfold pixel_bytes at 2. rewrite Hcol.
    replace (Z.pred (width - x)) with (width - (x + 1)) by lia.
    replace (Z.succ x) with (x + 1) by lia.
    now rewrite <- app_assoc.
  - apply Z.ltb_ge in E. rewrite seqZ_nil by lia. cbn [flat_map]. now rewrite app_nil_r.
Qed.

Lemma image_loop_Done fuel width height maxiter y f :
  INT_MIN <= maxiter <= INT_MAX -> 0 <= y -> width <= INT_MAX -> height <= INT_MAX ->
  Z.max 0 (height - y) < Z.of_nat fuel ->
  image_loop fuel width height maxiter y f =
    Done (f ++ flat_map (fun y => flat_map (fun x => pixel_bytes width height maxiter x y)
                                   (seqZ 0 width))
                 (seqZ y (height - y))).
Proof.
  intros Hm. revert y f.
  induction fuel as [|fuel IH]; intros y f Hy Hw Hh Hfuel; [lia|].
  cbn [image_loop]. destruct (y <? height) eqn:E.
  - apply Z.ltb_lt in E.
    rewrite row_loop_Done by lia. cbn [bind].
    unfold add_int. rewrite int_of_Done by (unfold INT_MIN, INT_MAX in *; lia).
    cbn [bind]. rewrite IH by lia.
    rewrite (seqZ_cons y) by lia. cbn [flat_map].
    replace (Z.pred (height - y)) with (height - (y + 1)) by lia.
    replace (Z.succ y) with (y + 1) by lia.
    rewrite Z.sub_0_r. now rewrite <- app_assoc.
  - apply Z.ltb_ge in E. rewrite (seqZ_nil y) by lia. cbn [flat_map]. now rewrite app_nil_r.
Qed.

Lemma image_Done width height maxiter :
  INT_MIN <= maxiter <= INT_MAX -> width <= INT_MAX -> height <= INT_MAX ->
  image width height maxiter = Done (bytes (header width height) ++ raster width height maxiter).
Proof.
  intros Hm Hw Hh. unfold image. rewrite image_loop_Done by lia.
  unfold raster. now rewrite Z.sub_0_r.
Qed.

Lemma raster_length width height maxiter :
  INT_MIN <= maxiter <= INT_MAX ->
  Z.of_nat (length (raster width height maxiter)) = 3 * Z.max 0 width * Z.max 0 height.
Proof.
  intros Hm. unfold raster.
  assert (Hrow : forall y,
    length (flat_map (fun x => pixel_bytes width height maxiter x y) (seqZ 0 width))
      = (3 * Z.to_nat width)%nat).
  { intros y. rewrite (flat_map_length_blocks _ 3), length_seqZ; [reflexivity|].
    intros x. now apply pixel_bytes_length. }
  assert (Hall : forall l : list Z,
    length (flat_map (fun y => flat_map (fun x => pixel_bytes width height maxiter x y)
                                 (seqZ 0 width)) l)
      = (3 * Z.to_nat width * length l)%nat).
  { induction l as [|y l IH]; [cbn; lia|].
    cbn [flat_map]. rewrite length_app, IH, Hrow. cbn [length]. lia. }
  rewrite Hall, length_seqZ. lia.
Qed.

(** Row-major order: the bytes of pixel [(x, y)] are the three at offset
    [3 * (y * width + x)]. *)
Lemma raster_at width height maxiter x y :
  INT_MIN <= maxiter <= INT_MAX -> 0 <= x < width -> 0 <= y < height ->
  take 3 (drop (Z.to_nat (3 * (y * width + x))) (raster width height maxiter))
    = pixel_bytes width height maxiter x y.
Proof.
  intros Hm Hx Hy. unfold raster.
  set (row := fun y => flat_map (fun x => pixel_bytes width height maxiter x y)
                         (seqZ 0 width)).
  assert (Hrow : forall y, length (row y) = (3 * Z.to_nat width)%nat).
  { intros y'. unfold row. rewrite (flat_map_length_blocks _ 3), length_seqZ; [reflexivity|].
    intros x'. now apply pixel_bytes_length. }
  pose proof (flat_map_block row (3 * Z.to_nat width) (seqZ 0 height) (Z.to_nat y) y Hrow)
    as Hblock.
  rewrite lookup_seqZ_lt in Hblock by lia.
  specialize (Hblock ltac:(f_equal; lia)).
  pose proof (flat_map_block (fun x => pixel_bytes width height maxiter x y) 3
                (seqZ 0 width) (Z.to_nat x) x
                (fun x' => pixel_bytes_length width height maxiter x' y Hm)) as Hpix.
  rewrite lookup_seqZ_lt in Hpix by lia.
  specialize (Hpix ltac:(f_equal; lia)).
  fold (row y) in Hpix. rewrite <- Hblock in Hpix.
  rewrite <- Hpix.
  rewrite (take_drop_commute (take _ _)), take_take.
  rewrite Nat.min_l by lia.
  rewrite <- take_drop_commute, drop_drop.
  f_equal. f_equal. lia.
Qed.

Lemma mandelbrot_ppm_run path width height maxiter e st :
  INT_MIN <= maxiter <= INT_MAX -> width <= INT_MAX -> height <= INT_MAX ->
  mandelbrot_ppm path width height maxiter e st =
    Done (tt,
          if fopen_ok e path
          then with_file path
                 (bytes (header width height) ++ raster width height maxiter) st
          else add_err ("Failed to open " +:+ path +:+ " for writing" +:+ nl) st).
Proof.
  intros Hm Hw Hh. unfold mandelbrot_ppm.
  destruct (fopen_ok e path); [|reflexivity].
  now rewrite image_Done by assumption.
Qed.

End MandelFacts.

(** C5.  For every pixel the iteration count [k] is the first count at which
    the point [z], iterated [z <- z^2 + c] from 0, fails the test
    [|z|^2 <= 4] or at which [k] has reached [maxiter]; a pixel whose count
    is [maxiter] is (0,0,0), and any other pixel has the channels
    [c mod 256], [(3c) mod 256], [(7c) mod 256] with
    [c = floor(255 * k / maxiter)]. *)
Theorem pixel_colour :
  forall width height maxiter x y, INT_MIN <= maxiter <= INT_MAX ->
    exists k : nat,
      Mandel.iterations width height maxiter x y = Done (Z.of_nat k)
      /\ (forall j, (j < k)%nat ->
            in_disc (orbit (fst (Mandel.point width height x y))
                           (snd (Mandel.point width height x y)) j) = true
            /\ Z.of_nat j < maxiter)
      /\ (in_disc (orbit (fst (Mandel.point width height x y))
                         (snd (Mandel.point width height x y)) k) = false
          \/ maxiter <= Z.of_nat k)
      /\ Z.of_nat k <= Z.max 0 maxiter
      /\ (Z.of_nat k = maxiter ->
            Mandel.pixel width height maxiter x y = Done [0; 0; 0])
      /\ (Z.of_nat k <> maxiter ->
            Mandel.pixel width height maxiter x y =
              Done [(255 * Z.of_nat k / maxiter) mod 256;
                    (3 * (255 * Z.of_nat k / maxiter)) mod 256;
                    (7 * (255 * Z.of_nat k / maxiter)) mod 256]).
Proof.
  intros width height maxiter x y Hm.
  destruct (MandelFacts.iterations_spec width height maxiter x y ltac:(lia))
    as (k & Hrun & Hin & Hk & Hstop).
  exists k. split; [assumption|]. split; [assumption|]. split; [assumption|].
  split; [assumption|].
  unfold Mandel.pixel. rewrite Hrun. cbn [bind].
  rewrite MandelFacts.colour_Done by lia.
  split; intros Hcase.
  - apply Z.eqb_eq in Hcase. now rewrite Hcase.
  - apply Z.eqb_neq in Hcase. now rewrite Hcase.
Qed.

Lemma pixel_colour_witness :
  INT_MIN <= 256 <= INT_MAX
  /\ Mandel.iterations 400 300 256 200 150 = Done 256
  /\ Mandel.pixel 400 300 256 200 150 = Done [0; 0; 0]
  /\ Mandel.iterations 400 300 256 120 100 = Done 12
  /\ Mandel.pixel 400 300 256 120 100 = Done [11; 33; 77].
Proof.
  assert (Hm : INT_MIN <= 256 <= INT_MAX) by (unfold INT_MIN, INT_MAX; lia).
  split; [exact Hm|].
  destruct (pixel_colour 400 300 256 200 150 Hm) as (k & Hk & _ & _ & _ & Hin & _).
  destruct (pixel_colour 400 300 256 120 100 Hm) as (k' & Hk' & _ & _ & _ & _ & Hout).
  assert (E : Mandel.iterations 400 300 256 200 150 = Done 256) by (vm_compute; reflexivity).
  assert (E' : Mandel.iterations 400 300 256 120 100 = Done 12) by (vm_compute; reflexivity).
  rewrite E in Hk. injection Hk as Hk. rewrite E' in Hk'. injection Hk' as Hk'.
  split; [exact E|]. split; [apply Hin; lia|]. split; [exact E'|].
  rewrite Hout by lia. rewrite <- Hk'. reflexivity.
Defined.

(** C6 (amended).  For every width and height that are not negative, the
    image the rasterizer writes is the header ["P6\n{width} {height}\n255\n"]
    followed by exactly [width * height * 3] pixel bytes, the three bytes of
    pixel [(x, y)] at offset [3 * (y * width + x)]; its length is the
    length of the header plus [width * height * 3].  For width 400 and
    height 300 the header is ["P6\n400 300\n255\n"]. *)
Theorem image_is_header_then_pixels :
  forall width height maxiter,
    0 <= width <= INT_MAX -> 0 <= height <= INT_MAX ->
    INT_MIN <= maxiter <= INT_MAX ->
    Mandel.image width height maxiter
      = Done (Mandel.bytes (Mandel.header width height) ++ raster width height maxiter)
    /\ Z.of_nat (length (raster width height maxiter)) = width * height * 3
    /\ (forall x y, 0 <= x < width -> 0 <= y < height ->
          exists col, Mandel.pixel width height maxiter x y = Done col
            /\ take 3 (drop (Z.to_nat (3 * (y * width + x))) (raster width height maxiter))
                 = col)
    /\ (forall f, Mandel.image width height maxiter = Done f ->
          Z.of_nat (length f)
            = Z.of_nat (length (Mandel.bytes (Mandel.header width height)))
              + width * height * 3)
    /\ (forall path e st, fopen_ok e path = true ->
          exists st',
            Mandel.mandelbrot_ppm path width height maxiter e st = Done (tt, st')
            /\ fs st' !! path
                 = Some (Mandel.bytes (Mandel.header width height)
                           ++ raster width height maxiter))
    /\ (width = 400 -> height = 300 ->
          Mandel.header width height
            = "P6" +:+ nl +:+ "400 300" +:+ nl +:+ "255" +:+ nl
          /\ Mandel.bytes (Mandel.header width height)
               = [80; 54; 10; 52; 48; 48; 32; 51; 48; 48; 10; 50; 53; 53; 10]).
Proof.
  intros width height maxiter Hw Hh Hm.
  pose proof (MandelFacts.image_Done width height maxiter Hm ltac:(lia) ltac:(lia)) as Himg.
  pose proof (MandelFacts.raster_length width height maxiter Hm) as Hlen.
  rewrite !Z.max_r in Hlen by lia.
  split; [exact Himg|]. split; [lia|]. split; [|split; [|split]].
  - intros x y Hx Hy.
    destruct (MandelFacts.pixel_Done width height maxiter x y Hm) as (col & Hcol & _).
    exists col. split; [exact Hcol|].
    rewrite MandelFacts.raster_at by assumption.
    unfold pixel_bytes. now rewrite Hcol.
  - intros f Hf.
    assert (Ef : f = Mandel.bytes (Mandel.header width height) ++ raster width height maxiter)
      by congruence.
    rewrite Ef, length_app. lia.
  - intros path e st Hopen.
    rewrite MandelFacts.mandelbrot_ppm_run by lia. rewrite Hopen.
    eexists. split; [reflexivity|]. cbn [fs with_file]. apply lookup_insert_eq.
  - intros -> ->. split; vm_compute; reflexivity.
Qed.

Lemma image_is_header_then_pixels_witness :
  0 <= 3 <= INT_MAX /\ 0 <= 2 <= INT_MAX /\ INT_MIN <= 16 <= INT_MAX
  /\ exists f, Mandel.image 3 2 16 = Done f /\ Z.of_nat (length f) = 11 + 3 * 2 * 3.
Proof.
  assert (H3 : 0 <= 3 <= INT_MAX) by (unfold INT_MAX; lia).
  assert (H2 : 0 <= 2 <= INT_MAX) by (unfold INT_MAX; lia).
  assert (H16 : INT_MIN <= 16 <= INT_MAX) by (unfold INT_MIN, INT_MAX; lia).
  split; [exact H3|]. split; [exact H2|]. split; [exact H16|].
  destruct (image_is_header_then_pixels 3 2 16 H3 H2 H16) as (Himg & _ & _ & Hlen & _).
  eexists. split; [exact Himg|]. now rewrite (Hlen _ Himg).
Defined.

(** C6 as stated fails for a negative width and height: the loops write no
    pixel byte, while [width * height * 3] is 3. *)
Lemma image_of_negative_size :
  Mandel.image (-1) (-1) 256 = Done (Mandel.bytes (Mandel.header (-1) (-1)))
  /\ Z.of_nat (length (Mandel.bytes (Mandel.header (-1) (-1)))) <>
       Z.of_nat (length (Mandel.bytes (Mandel.header (-1) (-1)))) + (-1) * (-1) * 3.
Proof. split; [vm_compute; reflexivity | lia]. Qed.

(** C10.  An escaped pixel (its count differs from [maxiter]) whose count
    satisfies [255 * iter < maxiter] has colour index 0 and is (0,0,0), as
    a pixel that reached [maxiter] is; pixel (0, 0) of the 400x300 image
    with 256 iterations is one: it escapes after 1 iteration. *)
Theorem black_pixel_may_have_escaped :
  (forall width height maxiter x y iter,
     INT_MIN <= maxiter <= INT_MAX ->
     Mandel.iterations width height maxiter x y = Done iter ->
     iter <> maxiter -> 255 * iter < maxiter ->
     int_of_double (255 * double_of_int iter / double_of_int maxiter) = Done 0
     /\ Mandel.pixel width height maxiter x y = Done [0; 0; 0])
  /\ (forall maxiter, Mandel.colour maxiter maxiter = Done [0; 0; 0])
  /\ Mandel.iterations 400 300 256 0 0 = Done 1
  /\ Mandel.pixel 400 300 256 0 0 = Done [0; 0; 0].
Proof.
  split; [|split; [apply MandelFacts.colour_black | split; vm_compute; reflexivity]].
  intros width height maxiter x y iter Hm Hrun Hne Hlt.
  destruct (MandelFacts.iterations_spec width height maxiter x y ltac:(lia))
    as (k & Hk & _ & Hmax & _).
  rewrite Hrun in Hk. injection Hk as ->.
  assert (Hi : 0 <= Z.of_nat k < maxiter) by lia.
  assert (Hc : 255 * Z.of_nat k / maxiter = 0) by (apply Z.div_small; lia).
  split.
  - rewrite FloatFacts.colour_index by lia. now rewrite Hc.
  - unfold Mandel.pixel. rewrite Hrun. cbn [bind].
    rewrite MandelFacts.colour_escaped by lia. now rewrite Hc.
Qed.

Lemma black_pixel_may_have_escaped_witness :
  INT_MIN <= 256 <= INT_MAX /\ 1 <> 256 /\ 255 * 1 < 256
  /\ Mandel.pixel 400 300 256 0 0 = Done [0; 0; 0].
Proof.
  assert (Hm : INT_MIN <= 256 <= INT_MAX) by (unfold INT_MIN, INT_MAX; lia).
  split; [exact Hm|]. split; [lia|]. split; [lia|].
  destruct black_pixel_may_have_escaped as (H & _ & Hrun & _).
  exact (proj2 (H 400 300 256 0 0 1 Hm Hrun ltac:(lia) ltac:(lia))).
Defined.

(** C7.  [sieve_count_primes] leaves -1 in [*out_count] when allocation
    fails and a count that is not negative when it succeeds;
    [matrix_mul_test] leaves -1.0, which is negative, in [*out_time] when an
    allocation fails, and when all succeed it leaves the difference of two
    successive readings of the clock, which is not negative as long as the
    clock does not run backwards. *)
Theorem allocation_failure_is_distinct :
  (forall limit e st c st',
     Sieve.sieve_count_primes limit e st = Done (c, st') ->
     (heap_ok e (mallocs st) = false -> c = -1)
     /\ (heap_ok e (mallocs st) = true -> 0 <= c))
  /\ (forall limit e st, INT_MIN <= limit < INT_MAX ->
        heap_ok e (mallocs st) = false ->
        result (Sieve.sieve_count_primes limit e st) = Done (-1))
  /\ (forall M e st t st',
        Matrix.matrix_mul_test M e st = Done (t, st') ->
        (three_granted e st = false -> t = (-1)%float /\ (t <? 0)%float = true)
        /\ (three_granted e st = true ->
            t = (clock e (S (ticks st)) - clock e (ticks st))%float
            /\ ((clock e (ticks st) <=? clock e (S (ticks st)))%float = true ->
                (t <? 0)%float = false)))
  /\ (forall M e st, three_granted e st = false ->
        result (Matrix.matrix_mul_test M e st) = Done (-1)%float).
Proof.
  split; [|split; [|split]].
  - intros limit e st c st' Hrun. split; intros Hheap.
    + revert Hrun. unfold Sieve.sieve_count_primes, pbind, lift, malloc, eprint, ret.
      destruct (add_int limit 1) as [n| |]; try discriminate.
      rewrite Hheap. now intros [= <- _].
    + eapply SieveFacts.sieve_count_primes_nonneg; eassumption.
  - intros limit e st Hlim Hheap.
    now rewrite SieveFacts.sieve_count_primes_failed.
  - intros M e st t st' Hrun. split; intros G.
    + rewrite MatrixFacts.matrix_mul_test_failed in Hrun by assumption.
      injection Hrun as <- _. split; reflexivity.
    + rewrite MatrixFacts.matrix_mul_test_run in Hrun by assumption.
      destruct (checksum_of M) as [sum| |]; try discriminate Hrun.
      injection Hrun as <- _. split; [reflexivity|].
      apply FloatFacts.sub_not_negative.
  - intros M e st G. now rewrite MatrixFacts.matrix_mul_test_failed.
Qed.

Lemma allocation_failure_is_distinct_witness :
  INT_MIN <= 10 < INT_MAX /\ heap_ok (env0 false) (mallocs st0) = false
  /\ result (Sieve.sieve_count_primes 10 (env0 false) st0) = Done (-1)
  /\ three_granted (env0 false) st0 = false
  /\ result (Matrix.matrix_mul_test 4 (env0 false) st0) = Done (-1)%float.
Proof.
  assert (H10 : INT_MIN <= 10 < INT_MAX) by (unfold INT_MIN, INT_MAX; lia).
  destruct allocation_failure_is_distinct as (_ & Hs & _ & Hm).
  split; [exact H10|]. split; [reflexivity|].
  split; [exact (Hs 10 (env0 false) st0 H10 eq_refl)|].
  split; [reflexivity|].
  exact (Hm 4 (env0 false) st0 eq_refl).
Defined.

(** ** Harness *)

Module HarnessFacts.

Lemma sieve_stage e st :
  exists st',
    Sieve.sieve_count_primes SIEVE_LIMIT e st
      = Done (if heap_ok e (mallocs st) then num_primes SIEVE_LIMIT else -1, st')
    /\ out st' = out st /\ mallocs st' = S (mallocs st) /\ fs st' = fs st.
Proof.
  destruct (heap_ok e (mallocs st)) eqn:Hheap.
  - rewrite SieveFacts.sieve_count_primes_Done; trivial.
    + eexists. split; [reflexivity|]. repeat split.
    + unfold SIEVE_LIMIT, SIEVE_BOUND. lia.
  - rewrite SieveFacts.sieve_count_primes_failed; trivial.
    + eexists. split; [reflexivity|]. repeat split.
    + unfold SIEVE_LIMIT, INT_MIN, INT_MAX. lia.
Qed.

Lemma matrix_stage e st :
  exists t st' sums,
    Matrix.matrix_mul_test MAT_SIZE e st = Done (t, st')
    /\ out st' = out st ++ sums
    /\ (sums = [] \/ exists sum, sums = [LMatrixChecksum sum])
    /\ mallocs st' = S (S (S (mallocs st))) /\ fs st' = fs st
    /\ (three_granted e st = false -> t = (-1)%float).
Proof.
  destruct (three_granted e st) eqn:G.
  - rewrite MatrixFacts.matrix_mul_test_run by assumption.
    destruct (MatrixFacts.checksum_of_Done MAT_SIZE) as (C & _ & _ & ->);
      [unfold MAT_SIZE; lia | unfold MAT_SIZE; cbn; lia |].
    eexists _, _, [_]. split; [reflexivity|]. split; [reflexivity|].
    split; [right; eexists; reflexivity|]. repeat split. discriminate.
  - rewrite MatrixFacts.matrix_mul_test_failed by assumption.
    eexists _, _, []. split; [reflexivity|]. split; [cbn; now rewrite app_nil_r|].
    split; [now left|]. repeat split.
Qed.

Lemma mandel_stage e st :
  exists st',
    Mandel.mandelbrot_ppm outppm MAN_WIDTH MAN_HEIGHT MAN_MAXITER e st = Done (tt, st')
    /\ out st' = out st /\ mallocs st' = mallocs st
    /\ (fopen_ok e outppm = true ->
        fs st' !! outppm
          = Some (Mandel.bytes (Mandel.header MAN_WIDTH MAN_HEIGHT)
                    ++ raster MAN_WIDTH MAN_HEIGHT MAN_MAXITER)).
Proof.
  rewrite MandelFacts.mandelbrot_ppm_run
    by (unfold MAN_WIDTH, MAN_HEIGHT, MAN_MAXITER, INT_MIN, INT_MAX; lia).
  eexists. split; [reflexivity|].
  destruct (fopen_ok e outppm); repeat split; try discriminate.
  intros _. cbn [fs with_file]. apply lookup_insert_eq.
Qed.

End HarnessFacts.

(** C8.  In every environment, whatever the allocations of the sieve and of
    the matrix kernel and the opening of the image file come to, [main] runs
    to its end with exit status 0; its output shows the stages in the order
    Sieve, MatrixMultiply, Mandelbrot and then the summary, and all four calls
    of [malloc] (one of the sieve, three of the matrix kernel) are made. *)
Theorem main_runs_every_stage :
  forall e st, exists st' t d1 d2 d3 sums,
    main e st = Done (0, st')
    /\ out st' =
         out st
           ++ [LBanner; LParams SIEVE_LIMIT MAT_SIZE MAN_WIDTH MAN_HEIGHT;
               LSieveStart SIEVE_LIMIT;
               LSieveFound (if heap_ok e (mallocs st) then num_primes SIEVE_LIMIT else -1)
                 SIEVE_LIMIT d1;
               LMatrixStart MAT_SIZE]
           ++ sums
           ++ [LMatrixTook t d2; LMandelStart MAN_WIDTH MAN_HEIGHT;
               LMandelWrote outppm d3; LSummaryHead;
               LSummary (if heap_ok e (mallocs st) then num_primes SIEVE_LIMIT else -1)
                 t d3]
    /\ (sums = [] \/ exists sum, sums = [LMatrixChecksum sum])
    /\ omap stage_of (out st')
         = omap stage_of (out st) ++ [StSieve; StMatrix; StMandel; StSummary]
    /\ mallocs st' = (mallocs st + 4)%nat
    /\ (fopen_ok e outppm = true ->
        fs st' !! outppm
          = Some (Mandel.bytes (Mandel.header MAN_WIDTH MAN_HEIGHT)
                    ++ raster MAN_WIDTH MAN_HEIGHT MAN_MAXITER)).
Proof.
  intros e st. unfold main, pbind, print, now_seconds, ret. cbv beta iota.
  match goal with
  | |- context [Sieve.sieve_count_primes SIEVE_LIMIT e ?s] =>
      destruct (HarnessFacts.sieve_stage e s) as (s1 & -> & Ho1 & Hm1 & Hf1)
  end.
  cbv beta iota.
  match goal with
  | |- context [Matrix.matrix_mul_test MAT_SIZE e ?s] =>
      destruct (HarnessFacts.matrix_stage e s)
        as (t & s2 & sums & -> & Ho2 & Hsums & Hm2 & Hf2 & _)
  end.
  cbv beta iota.
  match goal with
  | |- context [Mandel.mandelbrot_ppm outppm MAN_WIDTH MAN_HEIGHT MAN_MAXITER e ?s] =>
      destruct (HarnessFacts.mandel_stage e s) as (s3 & -> & Ho3 & Hm3 & Hf3)
  end.
  cbv beta iota.
  eexists _, t, _, _, _, sums. split; [reflexivity|].
  cbn [out mallocs ticks fs add_out count_tick] in *.
  assert (Hout : out s3 =
    out st ++ [LBanner; LParams SIEVE_LIMIT MAT_SIZE MAN_WIDTH MAN_HEIGHT;
               LSieveStart SIEVE_LIMIT;
               LSieveFound (if heap_ok e (mallocs st) then num_primes SIEVE_LIMIT else -1)
                 SIEVE_LIMIT (clock e (ticks s1) - clock e (ticks st))%float;
               LMatrixStart MAT_SIZE]
      ++ sums
      ++ [LMatrixTook t (clock e (ticks s2) - clock e (S (ticks s1)))%float;
          LMandelStart MAN_WIDTH MAN_HEIGHT]).
  { rewrite Ho3, Ho2, Ho1. rewrite <- !app_assoc. reflexivity. }
  split.
  { rewrite Hout. rewrite <- !app_assoc. cbn [app]. reflexivity. }
  split; [exact Hsums|]. split.
  { rewrite Hout. rewrite !omap_app.
    destruct Hsums as [-> | [sum ->]]; cbn; rewrite <- !app_assoc; reflexivity. }
  split; [lia|]. exact Hf3.
Qed.

(** * Further properties of the kernels *)

(** ** PrimeSieve beyond its intended range *)

Module SieveEdges.
Import Sieve.

(** The inner loop never runs out of fuel and never resizes the buffer: it
    finishes on a buffer of the same length or it is undefined. *)
Lemma mark_multiples_total fuel limit p q a :
  0 < p -> Z.max 0 (limit + 1 - q) < Z.of_nat fuel ->
  mark_multiples fuel limit p q a = Undefined
  \/ exists a', mark_multiples fuel limit p q a = Done a' /\ length a' = length a.
Proof.
  intros Hp. revert q a.
  induction fuel as [|fuel IH]; intros q a Hfuel; [lia|].
  cbn [mark_multiples]. destruct (q <=? limit) eqn:E.
  - apply Z.leb_le in E. unfold store.
    destruct ((0 <=? q) && (q <? Z.of_nat (length a))); [|now left].
    cbn [bind]. unfold add_int, int_of.
    destruct (in_int (q + p)); [|now left]. cbn [bind].
    destruct (IH (q + p) (<[Z.to_nat q := 0]> a)) as [H | (a' & H & Hlen)]; [lia | | ].
    + now left.
    + right. exists a'. split; [assumption|]. now rewrite Hlen, length_insert.
  - right. exists a. split; reflexivity.
Qed.

(** From [SIEVE_BOUND] on the marking loop cannot finish: at the latest
    [p*p] leaves [int] at [p = 46341]. *)
Lemma sieve_loop_undefined fuel limit p a :
  2 <= p <= 46341 -> SIEVE_BOUND <= limit < INT_MAX ->
  Z.of_nat (length a) = limit + 1 ->
  46341 - p < Z.of_nat fuel ->
  sieve_loop fuel limit p a = Undefined.
Proof.
  unfold SIEVE_BOUND, INT_MAX. revert p a.
  induction fuel as [|fuel IH]; intros p a Hp Hlim Hlen Hfuel; [lia|].
  cbn [sieve_loop]. unfold mul_int.
  destruct (Z.eq_dec p 46341) as [->|Hne].
  { reflexivity. }
  rewrite int_of_Done by (unfold INT_MIN, INT_MAX; nia). cbn [bind].
  destruct (p * p <=? limit) eqn:E; [|apply Z.leb_gt in E; nia].
  destruct (lookup_lt_is_Some_2 a (Z.to_nat p) ltac:(lia)) as [v Hv].
  rewrite (load_Done a p v ltac:(lia) Hv). cbn [bind].
  destruct (v =? 0).
  - cbn [bind]. unfold add_int.
    rewrite int_of_Done by (unfold INT_MIN, INT_MAX; lia). cbn [bind].
    apply IH; trivial; lia.
  - destruct (mark_multiples_total (S (Z.to_nat limit)) limit p (p * p) a)
      as [-> | (a1 & -> & Hlen1)]; [lia | lia | reflexivity | ].
    cbn [bind]. unfold add_int.
    rewrite int_of_Done by (unfold INT_MIN, INT_MAX; lia). cbn [bind].
    apply IH; trivial; lia.
Qed.

(** The buffer that [memset] and the two stores leave has the length of the
    granted one. *)
Lemma sieve_prologue n limit :
  1 < n < 2 ^ 64 ->
  exists a,
    sieve_marks limit n (replicate (Z.to_nat (size_t_of n)) 0)
      = sieve_loop (S (Z.to_nat limit)) limit 2 a
    /\ Z.of_nat (length a) = n.
Proof.
  intros Hn. unfold sieve_marks. rewrite size_t_of_small by lia.
  unfold memset. rewrite length_replicate.
  destruct (n <=? Z.of_nat (Z.to_nat n)) eqn:E; [|apply Z.leb_gt in E; lia].
  cbn [bind]. rewrite drop_replicate, Nat.sub_diag. cbn [replicate].
  rewrite app_nil_r.
  rewrite store_Done by (rewrite length_replicate; lia). cbn [bind].
  rewrite store_Done by (rewrite length_insert, length_replicate; lia).
  cbn [bind]. eexists. split; [reflexivity|].
  rewrite !length_insert, length_replicate. lia.
Qed.

End SieveEdges.

(** X1.  Whenever the buffer is granted, [sieve_count_primes] has undefined
    behaviour for every [limit] from [46340 * 46340] up to [INT_MAX]:
    an [int] computation overflows ([limit + 1], [q += p] or [p*p]) before
    the marking loop can stop. *)
Theorem sieve_undefined_from_bound :
  forall limit e st,
    SIEVE_BOUND <= limit <= INT_MAX -> heap_ok e (mallocs st) = true ->
    Sieve.sieve_count_primes limit e st = Undefined.
Proof.
  intros limit e st Hlim Hheap. unfold SIEVE_BOUND, INT_MAX in Hlim.
  unfold Sieve.sieve_count_primes, pbind, lift, add_int, int_of.
  destruct (Z.eq_dec limit 2147483647) as [->|Hne]; [reflexivity|].
  replace (in_int (limit + 1)) with true
    by (symmetry; unfold in_int, INT_MIN, INT_MAX; lia).
  unfold malloc. rewrite Hheap.
  destruct (SieveEdges.sieve_prologue (limit + 1) limit) as (a & -> & Hlen); [lia|].
  rewrite SieveEdges.sieve_loop_undefined; trivial; unfold SIEVE_BOUND, INT_MAX; lia.
Qed.

Lemma sieve_undefined_from_bound_witness :
  SIEVE_BOUND <= 2147483000 <= INT_MAX
  /\ Sieve.sieve_count_primes 2147483000 (env0 true) st0 = Undefined.
Proof.
  split; [unfold SIEVE_BOUND, INT_MAX; lia|].
  apply sieve_undefined_from_bound; [unfold SIEVE_BOUND, INT_MAX; lia | reflexivity].
Defined.



(** X3.  Two counts differ by the number of primes between the two limits:
    for [1 <= limit <= limit' < 46340 * 46340], the count for [limit'] is
    the count for [limit] plus the number of primes in [(limit, limit']].
    Hence the count is monotone in the limit, and it lies between 0 and
    [limit - 1]. *)
Theorem sieve_counts_differ_by_primes :
  forall limit limit' e st e' st',
    1 <= limit <= limit' -> limit' < SIEVE_BOUND ->
    heap_ok e (mallocs st) = true -> heap_ok e' (mallocs st') = true ->
    exists c c',
      result (Sieve.sieve_count_primes limit e st) = Done c
      /\ result (Sieve.sieve_count_primes limit' e' st') = Done c'
      /\ c' = c + Z.of_nat (length (List.filter primeb (seqZ (limit + 1) (limit' - limit))))
      /\ (forall i, In i (List.filter primeb (seqZ (limit + 1) (limit' - limit)))
            <-> limit < i <= limit' /\ Z.prime i)
      /\ 0 <= c <= c' /\ c' <= limit' - 1.
Proof.
  intros limit limit' e st e' st' Hlim Hlim' Hheap Hheap'.
  rewrite (SieveFacts.sieve_count_primes_Done limit e st) by (trivial; lia).
  rewrite (SieveFacts.sieve_count_primes_Done limit' e' st') by (trivial; lia).
  exists (num_primes limit), (num_primes limit'). cbn [result].
  split; [reflexivity|]. split; [reflexivity|].
  assert (Hsplit : primes_upto limit'
            = primes_upto limit ++ List.filter primeb (seqZ (limit + 1) (limit' - limit))).
  { unfold primes_upto.
    replace (limit' - 1) with ((limit - 1) + (limit' - limit)) by lia.
    rewrite seqZ_app by lia. rewrite List.filter_app.
    replace (2 + (limit - 1)) with (limit + 1) by lia.
    replace (limit - 1 + (limit' - limit) - (limit' - limit)) with (limit - 1) by lia.
    reflexivity. }
  assert (Hall : Z.of_nat (length (primes_upto limit')) <= limit' - 1).
  { unfold primes_upto.
    pose proof (List.filter_length_le primeb (seqZ 2 (limit' - 1))) as Hle.
    rewrite length_seqZ in Hle. lia. }
  split.
  { unfold num_primes. rewrite Hsplit, length_app. lia. }
  split.
  { intros i. rewrite filter_In, <- list_elem_of_In, elem_of_seqZ, primeb_prime.
    intuition lia. }
  unfold num_primes. rewrite Hsplit, length_app in *. lia.
Qed.

Lemma sieve_counts_differ_by_primes_witness :
  exists c c',
    result (Sieve.sieve_count_primes 10 (env0 true) st0) = Done c
    /\ result (Sieve.sieve_count_primes 20 (env0 true) st0) = Done c'
    /\ c' = c + 4.
Proof.
  destruct (sieve_counts_differ_by_primes 10 20 (env0 true) st0 (env0 true) st0)
    as (c & c' & Hc & Hc' & Hd & _);
    [lia | unfold SIEVE_BOUND; lia | reflexivity | reflexivity |].
  exists c, c'. split; [exact Hc|]. split; [exact Hc'|]. exact Hd.
Defined.

(** X4.  The inner loop [for(q = p*p; q <= limit; q += p) isprime[q] = 0]
    started at any [q > 0] clears exactly the cells [q, q+p, q+2p, ...] up
    to [limit] and leaves every other cell as it was.  It needs
    [limit + p] to be an [int]: [q] is advanced once past [limit]. *)
Theorem marking_clears_the_multiples :
  forall limit p q a,
    0 < p -> 0 < q -> Z.of_nat (length a) = limit + 1 -> limit + p <= INT_MAX ->
    exists a',
      Sieve.mark_multiples (S (Z.to_nat limit)) limit p q a = Done a'
      /\ length a' = length a
      /\ forall i, 0 <= i <= limit ->
           a' !! Z.to_nat i
             = if (q <=? i) && ((i - q) mod p =? 0) then Some 0 else a !! Z.to_nat i.
Proof.
  intros limit p q a Hp Hq Hlen Hmax.
  destruct (SieveFacts.mark_multiples_Done (S (Z.to_nat limit)) limit p q a)
    as (a' & Hrun & Hlen' & Hcells); trivial; [lia | lia |].
  exists a'. split; [exact Hrun|]. split; [exact Hlen'|].
  intros i Hi. destruct (Hcells i Hi) as [Hin Hout].
  destruct ((q <=? i) && ((i - q) mod p =? 0)) eqn:E.
  - apply andb_true_iff in E. destruct E as [E1 E2].
    apply Z.leb_le in E1. apply Z.eqb_eq in E2.
    apply Hin. split; [exact E1|]. apply Z.mod_divide; [lia | exact E2].
  - apply Hout. intros [E1 E2].
    apply andb_false_iff in E. destruct E as [E | E].
    + apply Z.leb_gt in E. lia.
    + apply Z.eqb_neq in E. apply E. apply Z.mod_divide; [lia | exact E2].
Qed.

Lemma marking_clears_the_multiples_witness :
  exists a',
    Sieve.mark_multiples 11 10 3 9 (replicate 11 1) = Done a'
    /\ a' !! 9%nat = Some 0 /\ a' !! 8%nat = Some 1.
Proof.
  destruct (marking_clears_the_multiples 10 3 9 (replicate 11 1))
    as (a' & Hrun & _ & Hcells); [lia | lia | reflexivity | unfold INT_MAX; lia |].
  exists a'. split; [exact Hrun|].
  split; [exact (Hcells 9 ltac:(lia)) | exact (Hcells 8 ltac:(lia))].
Defined.

(** ** MatrixMultiplier: every size *)

Module MatrixEdges.
Import Matrix.

(** The generator state is an [unsigned int]. *)
Lemma lcg_range seed : 0 <= lcg seed < 2 ^ 32.
Proof. unfold lcg. apply Z.mod_pos_bound. lia. Qed.

Lemma iter_lcg_range n : 0 <= Nat.iter n lcg SEED < 2 ^ 32.
Proof.
  destruct n as [|n]; [unfold SEED; cbn; lia|].
  rewrite Nat.iter_succ. apply lcg_range.
Qed.

(** A cell is one of the thousand values [k / 100], [0 <= k <= 999]. *)
Lemma cell_rem seed : 0 <= seed -> cell seed = cell (seed mod 1000).
Proof.
  intros Hs. unfold cell.
  rewrite !Z.rem_mod_nonneg by (try apply Z.mod_pos_bound; lia).
  now rewrite Z.mod_mod by lia.
Qed.

Lemma cell_range seed :
  0 <= seed -> (0 <=? cell seed)%float = true /\ (cell seed <? 10)%float = true.
Proof.
  intros Hs. rewrite cell_rem by assumption.
  assert (Hall : forallb (fun k => (0 <=? cell k)%float && (cell k <? 10)%float)
                   (seqZ 0 1000) = true) by (vm_compute; reflexivity).
  rewrite forallb_forall in Hall.
  apply andb_true_iff, Hall, list_elem_of_In, elem_of_seqZ.
  pose proof (Z.mod_pos_bound seed 1000). lia.
Qed.

End MatrixEdges.

(** X5.  Initialisation for every size: the generator, seeded with
    123456789, is advanced once before each store to [A] and once more
    before each store to [B], so that [A[idx]] comes from the state after
    [2 idx + 1] advances and [B[idx]] from the state after [2 idx + 2];
    [C] is zero.  Every generated entry is at least 0 and below 10. *)
Theorem generated_entries :
  forall M, 0 <= M * M < 2 ^ 61 ->
    exists A B,
      generated M = Done (A, B, replicate (Z.to_nat (M * M)) 0%float)
      /\ Z.of_nat (length A) = M * M /\ Z.of_nat (length B) = M * M
      /\ forall idx, 0 <= idx < M * M ->
           exists a b,
             A !! Z.to_nat idx = Some a /\ B !! Z.to_nat idx = Some b
             /\ a = Matrix.cell (Nat.iter (Z.to_nat (2 * idx + 1)) Matrix.lcg Matrix.SEED)
             /\ b = Matrix.cell (Nat.iter (Z.to_nat (2 * idx + 2)) Matrix.lcg Matrix.SEED)
             /\ (0 <=? a)%float = true /\ (a <? 10)%float = true
             /\ (0 <=? b)%float = true /\ (b <? 10)%float = true.
Proof.
  intros M Hsq.
  destruct (MatrixFacts.generated_spec M Hsq) as (A & B & Hgen & HA & HB & Hent).
  exists A, B. split; [exact Hgen|]. split; [exact HA|]. split; [exact HB|].
  intros idx Hidx. destruct (Hent idx Hidx) as [Ha Hb].
  eexists _, _. split; [exact Ha|]. split; [exact Hb|].
  split; [reflexivity|]. split; [reflexivity|].
  pose proof (MatrixEdges.cell_range _
                (proj1 (MatrixEdges.iter_lcg_range (Z.to_nat (2 * idx + 1))))) as [? ?].
  pose proof (MatrixEdges.cell_range _
                (proj1 (MatrixEdges.iter_lcg_range (Z.to_nat (2 * idx + 2))))) as [? ?].
  repeat split; assumption.
Qed.

Lemma generated_entries_witness :
  exists A B,
    generated 2 = Done (A, B, replicate 4 0%float)
    /\ A !! 0%nat = Some (Matrix.cell (Matrix.lcg Matrix.SEED))
    /\ B !! 0%nat = Some (Matrix.cell (Matrix.lcg (Matrix.lcg Matrix.SEED))).
Proof.
  destruct (generated_entries 2 ltac:(lia)) as (A & B & Hgen & _ & _ & Hent).
  exists A, B. split; [exact Hgen|].
  destruct (Hent 0 ltac:(lia)) as (a & b & Ha & Hb & -> & -> & _).
  split; [exact Ha | exact Hb].
Defined.

(** X6.  The multiplication for arbitrary operands: on [M]x[M] matrices
    [A], [B] and any initial [C], the i-k-j loops leave in [C[i,j]] the
    initial [C[i,j]] with the products [A[i,k] * B[k,j]] added to it one at
    a time in the order [k = 0, 1, ..., M-1]; neither the length of [C] nor
    any index is out of range.  Started on a zero matrix, the result is
    bit for bit the matrix of the plain i-j-k multiplication. *)
Theorem multiply_accumulates_in_k_order :
  forall M A B C,
    0 <= M <= INT_MAX ->
    Z.of_nat (length A) = M * M -> Z.of_nat (length B) = M * M ->
    Z.of_nat (length C) = M * M ->
    exists C',
      Matrix.multiply M (A, B, C) = Done C'
      /\ length C' = length C
      /\ (forall i j, 0 <= i < M -> 0 <= j < M ->
            entry M C' i j = accumulate M A B i j 0 (entry M C i j))
      /\ (C = replicate (Z.to_nat (M * M)) 0%float -> C' = reference_product M A B).
Proof.
  intros M A B C HM HA HB HC. unfold INT_MAX in HM. cbn [Matrix.multiply].
  destruct (MatrixFacts.mul_i_spec (S (Z.to_nat M)) M 0 A B C)
    as (C' & Hrun & Hlen & Hent); try lia.
  exists C'. split; [exact Hrun|]. split; [exact Hlen|]. split.
  - intros i j Hi Hj. rewrite Hent by assumption.
    destruct (0 <=? i) eqn:E; [reflexivity | apply Z.leb_gt in E; lia].
  - intros ->.
    pose proof (MatrixFacts.multiply_reference M A B ltac:(lia) HA HB) as Href.
    cbn [Matrix.multiply] in Href. congruence.
Qed.

Lemma multiply_accumulates_in_k_order_witness :
  exists C',
    Matrix.multiply 1 ([2%float], [3%float], [1%float]) = Done C'
    /\ entry 1 C' 0 0 = 7%float.
Proof.
  destruct (multiply_accumulates_in_k_order 1 [2%float] [3%float] [1%float])
    as (C' & Hrun & _ & Hent & _);
    [unfold INT_MAX; lia | reflexivity | reflexivity | reflexivity |].
  exists C'. split; [exact Hrun|].
  rewrite (Hent 0 0 ltac:(lia) ltac:(lia)). reflexivity.
Defined.

(** X7.  A size that is not positive.  For [M <= 0] with [M * M < 2^61]
    and the three buffers granted, the kernel initialises [M * M] cells,
    runs no iteration of the multiplication and of the checksum loop, and
    prints the checksum [0.0]. *)
Theorem matrix_of_nonpositive_size :
  forall M e st,
    INT_MIN <= M <= 0 -> M * M < 2 ^ 61 -> three_granted e st = true ->
    checksum_of M = Done 0%float
    /\ Matrix.matrix_mul_test M e st
         = Done ((clock e (S (ticks st)) - clock e (ticks st))%float,
                 after_matrix 0%float st).
Proof.
  intros M e st HM Hsq Hheap.
  assert (Hsum : checksum_of M = Done 0%float).
  { unfold checksum_of.
    destruct (MatrixFacts.product_Done M) as (C & -> & _);
      [unfold INT_MAX; lia | assumption |].
    cbn [bind]. unfold Matrix.checksum. cbn [Matrix.checksum_loop].
    destruct (0 <? M) eqn:E; [apply Z.ltb_lt in E; lia | reflexivity]. }
  split; [exact Hsum|].
  rewrite MatrixFacts.matrix_mul_test_run by assumption. now rewrite Hsum.
Qed.

Lemma matrix_of_nonpositive_size_witness :
  INT_MIN <= -3 <= 0
  /\ out (after_matrix 0%float st0) = [LMatrixChecksum 0%float]
  /\ exists t, Matrix.matrix_mul_test (-3) (env0 true) st0
                 = Done (t, after_matrix 0%float st0).
Proof.
  split; [unfold INT_MIN; lia|]. split; [reflexivity|].
  eexists.
  apply (matrix_of_nonpositive_size (-3) (env0 true) st0);
    [unfold INT_MIN; lia | lia | reflexivity].
Defined.

(** X8.  A size whose byte count wraps.  For [|M| >= 1518500250], that is
    [M * M >= 2^61], the product [sizeof(double) * n] wraps around
    [size_t]; the buffers that [malloc] grants hold fewer than [n] cells
    and the initialisation loop stores past their end. *)
Theorem matrix_undefined_when_size_wraps :
  forall M e st,
    INT_MIN <= M <= INT_MAX -> 1518500250 <= Z.abs M -> three_granted e st = true ->
    Matrix.alloc_cells M < Matrix.cells M
    /\ Matrix.matrix_mul_test M e st = Undefined.
Proof.
  intros M e st HM Habs Hheap.
  assert (Hsq : 2 ^ 61 <= M * M).
  { change (2 ^ 61) with 2305843009213693952. nia. }
  split.
  - unfold INT_MIN, INT_MAX in HM.
    assert (Hcells : Matrix.cells M = M * M).
    { apply MatrixFacts.cells_square.
      change (2 ^ 64) with 18446744073709551616. nia. }
    unfold Matrix.alloc_cells. rewrite Hcells. unfold size_t_of, SIZE_WIDTH.
    change (2 ^ 61) with 2305843009213693952 in Hsq.
    assert (M * M <= 4611686018427387904) by nia.
    change (2 ^ 64) with 18446744073709551616.
    Z.div_mod_to_equations. lia.
  - rewrite MatrixFacts.matrix_mul_test_run by assumption.
    now rewrite MatrixFacts.checksum_of_wraps.
Qed.

Lemma matrix_undefined_when_size_wraps_witness :
  INT_MIN <= 2000000000 <= INT_MAX
  /\ Matrix.matrix_mul_test 2000000000 (env0 true) st0 = Undefined.
Proof.
  split; [unfold INT_MIN, INT_MAX; lia|].
  apply (matrix_undefined_when_size_wraps 2000000000 (env0 true) st0);
    [unfold INT_MIN, INT_MAX; lia | lia | reflexivity].
Defined.

(** *** Sums and products of doubles that are not below zero *)

Module FloatSigns.

Lemma shr_1_nonneg mrs : 0 <= shr_m mrs -> 0 <= shr_m (shr_1 mrs).
Proof.
  destruct mrs as [m r s]. cbn [shr_m]. intros H.
  destruct m as [|p|p]; [cbn; lia | | lia].
  destruct p; cbn; lia.
Qed.

Lemma shr_nonneg mrs e n : 0 <= shr_m mrs -> 0 <= shr_m (fst (shr mrs e n)).
Proof.
  intros H. unfold shr. destruct n as [|p|p]; cbn [fst]; trivial.
  rewrite FloatFacts.iter_pos_iter.
  induction (Pos.to_nat p) as [|k IH]; [exact H|].
  cbn [Nat.iter]. now apply shr_1_nonneg.
Qed.

Lemma shr_fexp_nonneg m e l :
  0 <= m -> 0 <= shr_m (fst (shr_fexp prec emax m e l)).
Proof.
  intros H. unfold shr_fexp. apply shr_nonneg.
  destruct l as [|[]]; exact H.
Qed.

(** Rounding a magnitude under a positive sign yields +0, a positive
    number or +infinity. *)
Lemma round_nonneg q e l :
  0 <= q -> SFleb (S754_zero false) (binary_round_aux prec emax false q e l) = true.
Proof.
  intros Hq. unfold binary_round_aux.
  pose proof (shr_fexp_nonneg q e l Hq) as H1.
  destruct (shr_fexp prec emax q e l) as [mrs' e']. cbn [fst] in H1.
  pose proof (FloatFacts.rne_bounds (shr_m mrs') (loc_of_shr_record mrs')) as Hr.
  pose proof (shr_fexp_nonneg
                (round_nearest_even (shr_m mrs') (loc_of_shr_record mrs')) e' loc_Exact
                ltac:(lia)) as H2.
  destruct (shr_fexp prec emax _ e' loc_Exact) as [mrs'' e'']. cbn [fst] in H2.
  destruct (shr_m mrs''); [reflexivity | | lia].
  destruct (e'' <=? emax - prec); reflexivity.
Qed.

Lemma add_nonneg a b :
  (0 <=? a)%float = true -> (0 <=? b)%float = true -> (0 <=? a + b)%float = true.
Proof.
  rewrite !leb_spec, add_spec. change (Prim2SF 0) with (S754_zero false).
  unfold SF64add.
  destruct (Prim2SF a) as [sa|sa| |sa ma ea], (Prim2SF b) as [sb|sb| |sb mb eb];
    cbn [SFadd]; try (intros; assumption); try discriminate;
    try (destruct sa, sb; (discriminate || reflexivity)).
  destruct sa; [discriminate|]. destruct sb; [discriminate|]. intros _ _.
  cbn [cond_Zopp].
  destruct (shl_align ma ea (Z.min ea eb)) as [xa ?].
  destruct (shl_align mb eb (Z.min ea eb)) as [xb ?]. cbn [fst].
  change (Zpos xa + Zpos xb) with (Zpos (xa + xb)).
  cbn [binary_normalize]. unfold binary_round.
  destruct (shl_align _ _ _) as [mz ez]. apply round_nonneg. lia.
Qed.

Lemma mul_nonneg a b :
  (0 <=? a)%float = true -> (a <? 10)%float = true ->
  (0 <=? b)%float = true -> (b <? 10)%float = true ->
  (0 <=? a * b)%float = true.
Proof.
  rewrite !leb_spec, !ltb_spec, mul_spec. change (Prim2SF 0) with (S754_zero false).
  unfold SF64mul.
  destruct (Prim2SF a) as [sa|sa| |sa ma ea], (Prim2SF b) as [sb|sb| |sb mb eb];
    cbn [SFmul]; try discriminate; try reflexivity;
    try (destruct sa, sb; (discriminate || reflexivity)).
  destruct sa; [discriminate|]. destruct sb; [discriminate|]. intros _ _ _ _.
  cbn [xorb]. apply round_nonneg. lia.
Qed.

Lemma fold_add_nonneg {T} (f : T -> float) l a :
  (0 <=? a)%float = true -> (forall x, In x l -> (0 <=? f x)%float = true) ->
  (0 <=? fold_left (fun acc x => (acc + f x)%float) l a)%float = true.
Proof.
  revert a. induction l as [|x l IH]; intros a Ha Hl; [exact Ha|].
  cbn [fold_left]. apply IH.
  - apply add_nonneg; [exact Ha | apply Hl; now left].
  - intros y Hy. apply Hl. now right.
Qed.

End FloatSigns.

(** X9.  No entry of the product matrix and no checksum is negative or
    NaN: the generated entries lie in [[0, 10)], so every product and every
    partial sum is at least 0.  This holds for every size [M >= 1] whose
    buffers fit the address space. *)
Theorem checksum_not_below_zero :
  forall M e st,
    1 <= M -> M * M < 2 ^ 61 -> three_granted e st = true ->
    exists C sum t,
      product M = Done C
      /\ (forall i j, 0 <= i < M -> 0 <= j < M -> (0 <=? entry M C i j)%float = true)
      /\ checksum_of M = Done sum
      /\ Matrix.matrix_mul_test M e st = Done (t, after_matrix sum st)
      /\ (0 <=? sum)%float = true.
Proof.
  intros M e st HM Hsq Hheap.
  destruct (MatrixFacts.generated_spec M ltac:(nia)) as (A & B & Hgen & HA & HB & Hcell).
  destruct (MatrixFacts.product_is_reference M ltac:(lia) Hsq) as (A' & B' & Hgen' & Hprod).
  rewrite Hgen in Hgen'. injection Hgen' as <- <-.
  destruct (MatrixFacts.checksum_of_Done M HM Hsq) as (C & HC & Hlen & Hsum).
  rewrite Hprod in HC. injection HC as <-.
  assert (Hentry : forall i j, 0 <= i < M -> 0 <= j < M ->
            (0 <=? entry M (reference_product M A B) i j)%float = true).
  { intros i j Hi Hj.
    rewrite (MatrixFacts.entry_lookup M _ i j _
               (MatrixFacts.reference_product_entry M A B i j Hi Hj)).
    unfold dot. apply FloatSigns.fold_add_nonneg; [reflexivity|].
    intros k Hk. apply list_elem_of_In, elem_of_seqZ in Hk.
    destruct (Hcell (i * M + k) ltac:(nia)) as [Ha _].
    destruct (Hcell (k * M + j) ltac:(nia)) as [_ Hb].
    rewrite (MatrixFacts.entry_lookup M A i k _ Ha).
    rewrite (MatrixFacts.entry_lookup M B k j _ Hb).
    pose proof (MatrixEdges.cell_range _
      (proj1 (MatrixEdges.iter_lcg_range (Z.to_nat (2 * (i * M + k) + 1))))) as [? ?].
    pose proof (MatrixEdges.cell_range _
      (proj1 (MatrixEdges.iter_lcg_range (Z.to_nat (2 * (k * M + j) + 2))))) as [? ?].
    now apply FloatSigns.mul_nonneg. }
  exists (reference_product M A B), (sampled_sum M (reference_product M A B)).
  eexists. split; [exact Hprod|]. split; [exact Hentry|]. split; [exact Hsum|]. split.
  - rewrite MatrixFacts.matrix_mul_test_run by assumption. rewrite Hsum. reflexivity.
  - unfold sampled_sum. apply FloatSigns.fold_add_nonneg; [reflexivity|].
    intros i Hi. unfold sampled_rows, rows_from in Hi.
    apply filter_In in Hi. destruct Hi as [Hi _].
    apply list_elem_of_In, elem_of_seqZ in Hi.
    apply Hentry; [lia|]. apply Z.mod_pos_bound. lia.
Qed.

Lemma checksum_not_below_zero_witness :
  exists sum, checksum_of 3 = Done sum /\ (0 <=? sum)%float = true.
Proof.
  destruct (checksum_not_below_zero 3 (env0 true) st0)
    as (C & sum & t & _ & _ & Hsum & _ & Hpos); [lia | lia | reflexivity |].
  exists sum. split; [exact Hsum | exact Hpos].
Defined.

(** ** MandelbrotRasterizer: colours, iteration counts, the file *)

(** X10.  The channels of an escaped pixel.  For [0 <= iter < maxiter] the
    grey index [c = 255 * iter / maxiter] lies in [[0, 254]], so the first
    byte is [c] itself and never 255, while the second and third bytes are
    [3c] and [7c] reduced modulo 256; no product overflows.  The index does
    not decrease when the iteration count grows, and an escaped pixel is
    black exactly when [255 * iter < maxiter]. *)
Theorem escaped_pixel_channels :
  forall iter iter' maxiter,
    0 <= iter <= iter' -> iter' < maxiter -> maxiter <= INT_MAX ->
    exists c c',
      Mandel.colour iter maxiter = Done [c; (3 * c) mod 256; (7 * c) mod 256]
      /\ Mandel.colour iter' maxiter = Done [c'; (3 * c') mod 256; (7 * c') mod 256]
      /\ c = 255 * iter / maxiter
      /\ 0 <= c <= c' /\ c' <= 254
      /\ (Mandel.colour iter maxiter = Done [0; 0; 0] <-> 255 * iter < maxiter).
Proof.
  intros iter iter' maxiter Hi Hi' Hm.
  rewrite !MandelFacts.colour_escaped by lia.
  set (c := 255 * iter / maxiter). set (c' := 255 * iter' / maxiter).
  assert (H0 : 0 <= c) by (apply Z.div_pos; lia).
  assert (H1 : c <= c') by (apply Z.div_le_mono; lia).
  assert (H2 : c' < 255) by (apply Z.div_lt_upper_bound; lia).
  exists c, c'. rewrite !(Z.mod_small c), !(Z.mod_small c') by lia.
  split; [reflexivity|]. split; [reflexivity|]. split; [reflexivity|].
  split; [lia|]. split; [lia|]. split.
  - intros [= Hc _ _]. unfold c in Hc.
    apply Z.div_small_iff in Hc; lia.
  - intros Hlt. unfold c. rewrite Z.div_small by lia. reflexivity.
Qed.

Lemma escaped_pixel_channels_witness :
  exists c c',
    Mandel.colour 100 256 = Done [c; (3 * c) mod 256; (7 * c) mod 256]
    /\ Mandel.colour 200 256 = Done [c'; (3 * c') mod 256; (7 * c') mod 256]
    /\ c = 99 /\ c <= c'.
Proof.
  destruct (escaped_pixel_channels 100 200 256)
    as (c & c' & H1 & H2 & Hc & Hle & _); [lia | lia | unfold INT_MAX; lia |].
  exists c, c'. split; [exact H1|]. split; [exact H2|].
  split; [exact Hc | apply Hle].
Defined.

Module MandelEdges.
Import Mandel.

(** The first test of the loop is on [z = 0], which lies in the disc. *)
Lemma escape_first maxiter cx cy fuel :
  1 <= maxiter <= INT_MAX ->
  escape (S fuel) maxiter cx cy 0 0 0
    = escape fuel maxiter cx cy (0 * 0 - 0 * 0 + cx)%float (2 * 0 * 0 + cy)%float 1.
Proof.
  intros Hm. cbn [escape].
  change ((0 * 0 + 0 * 0 <=? 4)%float) with true.
  destruct (0 <? maxiter) eqn:E; [|apply Z.ltb_ge in E; lia].
  cbn [andb]. reflexivity.
Qed.

Lemma pixel_black_small width height maxiter x y :
  INT_MIN <= maxiter <= 1 -> pixel width height maxiter x y = Done [0; 0; 0].
Proof.
  intros Hm. unfold pixel, iterations.
  destruct (point width height x y) as [cx cy].
  destruct (Z.eq_dec maxiter 1) as [->|Hne].
  - change (Z.to_nat 1) with 1%nat.
    rewrite escape_first by (unfold INT_MAX; lia). cbn [escape].
    change (1 <? 1) with false. rewrite andb_false_r. reflexivity.
  - replace (Z.to_nat maxiter) with 0%nat by lia. cbn [escape].
    destruct (0 <? maxiter) eqn:E; [apply Z.ltb_lt in E; lia|].
    rewrite andb_false_r. cbn [bind].
    rewrite MandelFacts.colour_Done by (unfold INT_MAX; lia).
    destruct (0 =? maxiter); [reflexivity|].
    now rewrite Z.mul_0_r, Zdiv_0_l.
Qed.

End MandelEdges.

(** X11.  An iteration limit of at most 1 gives an all-black image.  With
    [maxiter <= 0] the loop body never runs and the count stays 0; with
    [maxiter = 1] it runs once for every point, since the test is first made
    on [z = 0].  Either way every byte after the header is 0. *)
Theorem image_all_black_for_small_maxiter :
  forall width height maxiter,
    INT_MIN <= maxiter <= 1 -> width <= INT_MAX -> height <= INT_MAX ->
    (forall x y, Mandel.pixel width height maxiter x y = Done [0; 0; 0])
    /\ Mandel.image width height maxiter
         = Done (Mandel.bytes (Mandel.header width height)
                   ++ replicate (Z.to_nat (3 * Z.max 0 width * Z.max 0 height)) 0).
Proof.
  intros width height maxiter Hm Hw Hh.
  assert (Hpix : forall x y, Mandel.pixel width height maxiter x y = Done [0; 0; 0])
    by (intros; now apply MandelEdges.pixel_black_small).
  split; [exact Hpix|].
  rewrite MandelFacts.image_Done by (unfold INT_MAX in *; lia).
  do 2 f_equal.
  pose proof (MandelFacts.raster_length width height maxiter
                ltac:(unfold INT_MAX; lia)) as Hlen.
  replace (Z.to_nat (3 * Z.max 0 width * Z.max 0 height))
    with (length (raster width height maxiter)) by lia.
  symmetry. apply replicate_as_Forall. split; [reflexivity|].
  unfold raster. apply Forall_flat_map, Forall_forall. intros y _.
  apply Forall_flat_map, Forall_forall. intros x _.
  unfold pixel_bytes. rewrite Hpix. repeat constructor.
Qed.

Lemma image_all_black_for_small_maxiter_witness :
  INT_MIN <= 1 <= 1
  /\ Mandel.image 2 1 1
       = Done (Mandel.bytes (Mandel.header 2 1) ++ [0; 0; 0; 0; 0; 0]).
Proof.
  split; [unfold INT_MIN; lia|].
  apply (image_all_black_for_small_maxiter 2 1 1);
    unfold INT_MIN, INT_MAX; lia.
Defined.

(** X12.  Raising the iteration limit never changes the count of a point
    that has already escaped: for [0 <= maxiter <= maxiter'] the count
    under [maxiter] is the smaller of [maxiter] and the count under
    [maxiter']. *)
Theorem iterations_cut_by_maxiter :
  forall width height maxiter maxiter' x y,
    0 <= maxiter <= maxiter' -> maxiter' <= INT_MAX ->
    exists k k',
      Mandel.iterations width height maxiter x y = Done k
      /\ Mandel.iterations width height maxiter' x y = Done k'
      /\ k = Z.min maxiter k'.
Proof.
  intros width height maxiter maxiter' x y Hm Hm'.
  destruct (MandelFacts.iterations_spec width height maxiter x y ltac:(lia))
    as (k & Hk & Hin & Hle & Hstop).
  destruct (MandelFacts.iterations_spec width height maxiter' x y ltac:(lia))
    as (k' & Hk' & Hin' & Hle' & Hstop').
  exists (Z.of_nat k), (Z.of_nat k'). split; [exact Hk|]. split; [exact Hk'|].
  destruct (Z_lt_le_dec (Z.of_nat k') maxiter) as [Hlt | Hge].
  - destruct Hstop' as [Hout' | ?]; [|lia].
    destruct (Nat.lt_trichotomy k k') as [Hkk | [-> | Hkk]]; [| lia |].
    + destruct Hstop as [Hout | ?]; [|lia].
      destruct (Hin' k Hkk) as [Hd _]. congruence.
    + destruct (Hin k' Hkk) as [Hd _]. congruence.
  - destruct (Z_lt_le_dec (Z.of_nat k) maxiter) as [Hlt | Hge']; [|lia].
    destruct Hstop as [Hout | ?]; [|lia].
    destruct (Hin' k ltac:(lia)) as [Hd _]. congruence.
Qed.

Lemma iterations_cut_by_maxiter_witness :
  exists k k',
    Mandel.iterations 400 300 10 120 100 = Done k
    /\ Mandel.iterations 400 300 256 120 100 = Done k'
    /\ k = Z.min 10 k'.
Proof.
  apply (iterations_cut_by_maxiter 400 300 10 256 120 100); unfold INT_MAX; lia.
Defined.

Module MandelFirstStep.

(** The first step takes [z = 0] to [c], up to the sign of a zero. *)
Lemma add_zero_square c : ((0 + c) * (0 + c))%float = (c * c)%float.
Proof.
  apply Prim2SF_inj. rewrite !mul_spec, add_spec.
  change (Prim2SF 0) with (S754_zero false). unfold SF64add, SF64mul.
  destruct (Prim2SF c) as [[]|[]| |s m e]; reflexivity.
Qed.

Lemma in_disc_first cx cy :
  in_disc (orbit cx cy 1) = (cx * cx + cy * cy <=? 4)%float.
Proof.
  change (orbit cx cy 1)
    with ((0 * 0 - 0 * 0 + cx)%float, (2 * 0 * 0 + cy)%float).
  cbn [in_disc].
  change (0 * 0 - 0 * 0)%float with 0%float.
  change (2 * 0 * 0)%float with 0%float.
  now rewrite !add_zero_square.
Qed.

End MandelFirstStep.

(** X13.  The first step.  With [maxiter >= 1] every pixel takes at least
    one iteration.  A pixel whose point [c] lies outside the disc,
    [cx*cx + cy*cy > 4], takes exactly one, because [z] is [c] after the
    first step; a pixel whose point lies inside takes at least two when
    [maxiter >= 2]. *)
Theorem point_outside_disc_escapes_at_once :
  forall width height maxiter x y,
    1 <= maxiter <= INT_MAX ->
    exists k,
      Mandel.iterations width height maxiter x y = Done k
      /\ 1 <= k <= maxiter
      /\ (in_disc (Mandel.point width height x y) = false -> k = 1)
      /\ (in_disc (Mandel.point width height x y) = true -> 2 <= maxiter -> 2 <= k).
Proof.
  intros width height maxiter x y Hm.
  destruct (MandelFacts.iterations_spec width height maxiter x y ltac:(lia))
    as (k & Hk & Hin & Hle & Hstop).
  destruct (Mandel.point width height x y) as [cx cy] eqn:Ep. cbn [fst snd] in *.
  pose proof (MandelFirstStep.in_disc_first cx cy) as H1. cbn [in_disc].
  assert (H0 : in_disc (orbit cx cy 0) = true) by reflexivity.
  exists (Z.of_nat k). split; [exact Hk|].
  assert (Hk1 : (1 <= k)%nat).
  { destruct k as [|k]; [|lia]. destruct Hstop as [Hout | ?]; [congruence | lia]. }
  split; [lia|]. split.
  - intros Hout. destruct (Nat.eq_dec k 1%nat) as [->|Hne]; [reflexivity|].
    destruct (Hin 1%nat ltac:(lia)) as [Hd _]. congruence.
  - intros Hd Hm2. destruct (Nat.eq_dec k 1%nat) as [->|Hne]; [|lia].
    destruct Hstop as [Hout | ?]; [congruence | lia].
Qed.

Lemma point_outside_disc_escapes_at_once_witness :
  1 <= 256 <= INT_MAX
  /\ in_disc (Mandel.point 400 300 0 0) = false
  /\ Mandel.iterations 400 300 256 0 0 = Done 1.
Proof.
  split; [unfold INT_MAX; lia|]. split; [reflexivity|].
  destruct (point_outside_disc_escapes_at_once 400 300 256 0 0)
    as (k & Hk & _ & Hout & _); [unfold INT_MAX; lia|].
  rewrite Hk. f_equal. apply Hout. reflexivity.
Defined.

(** X14.  What [mandelbrot_ppm] does to the file system.  It touches no
    path but its own.  When the file can be opened its previous content is
    discarded: the new content is the image whatever was there, so writing
    the same image a second time changes nothing.  When it cannot be opened,
    no file changes and one line goes to standard error.  Standard output,
    the allocator and the clock are never used. *)
Theorem mandelbrot_touches_one_file :
  forall path width height maxiter e st,
    INT_MIN <= maxiter <= INT_MAX -> width <= INT_MAX -> height <= INT_MAX ->
    exists st',
      Mandel.mandelbrot_ppm path width height maxiter e st = Done (tt, st')
      /\ (forall other, other <> path -> fs st' !! other = fs st !! other)
      /\ (fopen_ok e path = true ->
            fs st' !! path
              = Some (Mandel.bytes (Mandel.header width height)
                        ++ raster width height maxiter)
            /\ err st' = err st
            /\ Mandel.mandelbrot_ppm path width height maxiter e st' = Done (tt, st'))
      /\ (fopen_ok e path = false ->
            fs st' = fs st
            /\ err st' = err st ++ ["Failed to open " +:+ path +:+ " for writing" +:+ nl])
      /\ out st' = out st /\ mallocs st' = mallocs st /\ ticks st' = ticks st.
Proof.
  intros path width height maxiter e st Hm Hw Hh.
  rewrite MandelFacts.mandelbrot_ppm_run by assumption.
  eexists. split; [reflexivity|].
  destruct (fopen_ok e path) eqn:Eo.
  - split.
    { intros other Hne. cbn [fs with_file]. now rewrite lookup_insert_ne. }
    split.
    { intros _. split; [cbn [fs with_file]; now rewrite lookup_insert_eq|].
      split; [reflexivity|].
      rewrite MandelFacts.mandelbrot_ppm_run by assumption. rewrite Eo.
      unfold with_file. cbn [fs mallocs ticks out err].
      now rewrite insert_insert_eq. }
    split; [discriminate|]. repeat split.
  - split; [reflexivity|]. split; [discriminate|].
    split; [intros _; split; reflexivity|]. repeat split.
Qed.

Lemma mandelbrot_touches_one_file_witness :
  exists st',
    Mandel.mandelbrot_ppm "a.ppm" 2 1 4 (env0 true) st0 = Done (tt, st')
    /\ fs st' !! "b.ppm" = None
    /\ Mandel.mandelbrot_ppm "a.ppm" 2 1 4 (env0 true) st' = Done (tt, st').
Proof.
  destruct (mandelbrot_touches_one_file "a.ppm" 2 1 4 (env0 true) st0)
    as (st' & Hrun & Hother & Hok & _); [unfold INT_MIN, INT_MAX; lia.. |].
  exists st'. split; [exact Hrun|]. split.
  - rewrite (Hother "b.ppm") by discriminate. reflexivity.
  - apply Hok. reflexivity.
Defined.

(** ** Harness: the run of [main] in full *)

Module HarnessRuns.

Lemma no_divisor_spec fuel n d :
  0 <= n < 2 ^ 60 -> 2 <= d <= Z.sqrt n + 1 ->
  Z.sqrt n + 1 - d <= Z.of_nat fuel ->
  no_divisor fuel (Uint63.of_Z n) (Uint63.of_Z d) = true
    <-> (forall c, d <= c -> c * c <= n -> ~ (c | n)).
Proof.
  intros Hn. revert d.
  assert (Hroot : Z.sqrt n < 2 ^ 30).
  { apply Z.sqrt_lt_square; [lia | lia |]. change (2 ^ 30 * 2 ^ 30) with (2 ^ 60). lia. }
  pose proof (Z.sqrt_nonneg n) as Hroot0.
  assert (HwB : wB = 2 ^ 63) by reflexivity.
  change (2 ^ 30) with 1073741824 in Hroot.
  assert (Hn' : 0 <= n < 1152921504606846976) by (change (2 ^ 60) with 1152921504606846976 in Hn; lia).
  induction fuel as [|fuel IH]; intros d Hd Hfuel.
  - cbn [no_divisor]. split; [|reflexivity].
    intros _ c Hc Hsq. assert (c <= Z.sqrt n) by (apply Z.sqrt_le_square; lia). lia.
  - cbn [no_divisor].
    assert (Hzn : Uint63.to_Z (Uint63.of_Z n)%uint63 = n).
    { rewrite Uint63.of_Z_spec. apply Z.mod_small. rewrite HwB.
      change (2 ^ 63) with 9223372036854775808. lia. }
    assert (Hzd : Uint63.to_Z (Uint63.of_Z d)%uint63 = d).
    { rewrite Uint63.of_Z_spec. apply Z.mod_small. rewrite HwB.
      change (2 ^ 63) with 9223372036854775808. lia. }
    assert (Hzdd : Uint63.to_Z (Uint63.of_Z d * Uint63.of_Z d)%uint63 = d * d).
    { rewrite Uint63.mul_spec, Hzd. apply Z.mod_small. rewrite HwB.
      change (2 ^ 63) with 9223372036854775808. nia. }
    destruct (Uint63.of_Z n <? Uint63.of_Z d * Uint63.of_Z d)%uint63 eqn:E.
    + apply Uint63.ltb_spec in E. rewrite Hzn, Hzdd in E. split; [|reflexivity].
      intros _ c Hc Hsq. nia.
    + assert (E' : d * d <= n).
      { destruct (Z_lt_le_dec n (d * d)) as [Hlt|]; [|assumption].
        rewrite <- Hzn, <- Hzdd in Hlt. apply Uint63.ltb_spec in Hlt. congruence. }
      assert (Hdr : d <= Z.sqrt n) by (apply Z.sqrt_le_square; lia).
      destruct (Uint63.of_Z n mod Uint63.of_Z d =? 0)%uint63 eqn:Em.
      * apply Uint63.eqb_spec in Em. apply (f_equal Uint63.to_Z) in Em.
        rewrite Uint63.mod_spec, Hzn, Hzd in Em. change (Uint63.to_Z 0%uint63) with 0 in Em.
        split; [discriminate|].
        intros Hall. exfalso. apply (Hall d); [lia | lia |].
        apply Z.mod_divide; [lia | exact Em].
      * assert (Em' : n mod d <> 0).
        { intros H0. apply not_true_iff_false in Em. apply Em.
          apply Uint63.eqb_spec. apply Uint63.to_Z_inj.
          rewrite Uint63.mod_spec, Hzn, Hzd. exact H0. }
        assert (Hnext : (Uint63.of_Z d + 1)%uint63 = Uint63.of_Z (d + 1)).
        { apply Uint63.to_Z_inj.
          rewrite Uint63.add_spec, Hzd, Uint63.of_Z_spec. reflexivity. }
        rewrite Hnext, IH by lia. split.
        -- intros Hall c Hc Hsq. destruct (Z.eq_dec c d) as [->|Hne].
           ++ intros Hdiv. apply Em'. apply Z.mod_divide; [lia | exact Hdiv].
           ++ apply Hall; lia.
        -- intros Hall c Hc Hsq. apply Hall; lia.
Qed.

Lemma prime_by_roots_spec n : n < 2 ^ 60 -> prime_by_roots n = primeb n.
Proof.
  intros Hmax. apply eq_true_iff_eq. rewrite primeb_prime. unfold prime_by_roots.
  rewrite andb_true_iff, Z.ltb_lt. split.
  - intros [Hn Hall].
    assert (1 <= Z.sqrt n) by (apply Z.sqrt_le_square; lia).
    change 2%uint63 with (Uint63.of_Z 2) in Hall.
    rewrite no_divisor_spec in Hall by lia.
    destruct (prime_dec n) as [Hp | Hc]; [exact Hp|].
    destruct (composite_small_divisor n ltac:(lia) Hc) as (d & Hd & Hsq & Hdiv).
    exfalso. now apply (Hall d).
  - intros Hp. pose proof Hp as Hb. apply primeb_prime in Hb. unfold primeb in Hb.
    rewrite andb_true_iff, forallb_forall, Z.ltb_lt in Hb. destruct Hb as [Hn Hall].
    split; [exact Hn|].
    assert (1 <= Z.sqrt n) by (apply Z.sqrt_le_square; lia).
    change 2%uint63 with (Uint63.of_Z 2).
    apply no_divisor_spec; [lia | lia | lia |].
    intros c Hc Hsq Hdiv.
    assert (Hin : In c (seqZ 2 (n - 2))).
    { apply list_elem_of_In, elem_of_seqZ. nia. }
    apply Hall in Hin. apply negb_true_iff, Z.eqb_neq in Hin. apply Hin.
    apply Z.mod_divide; [lia | exact Hdiv].
Qed.

Lemma count_from_spec fuel n acc :
  n + Z.of_nat fuel < 2 ^ 60 ->
  count_from fuel n acc
    = acc + Z.of_nat (length (List.filter primeb (seqZ n (Z.of_nat fuel)))).
Proof.
  revert n acc. induction fuel as [|fuel IH]; intros n acc Hmax.
  - rewrite seqZ_nil by lia. cbn. lia.
  - cbn [count_from]. rewrite IH, prime_by_roots_spec by lia.
    rewrite (seqZ_cons n) by lia. cbn [List.filter].
    replace (Z.pred (Z.of_nat (S fuel))) with (Z.of_nat fuel) by lia.
    replace (Z.succ n) with (n + 1) by lia.
    destruct (primeb n); cbn [length]; lia.
Qed.

Lemma count_by_square_roots : count_from (Z.to_nat (SIEVE_LIMIT - 1)) 2 0 = 9592.
Proof. vm_compute. reflexivity. Qed.

(** The number of primes up to the limit that [main] passes to the sieve. *)
Lemma num_primes_SIEVE_LIMIT : num_primes SIEVE_LIMIT = 9592.
Proof.
  rewrite <- count_by_square_roots, count_from_spec
    by (unfold SIEVE_LIMIT; change (2 ^ 60) with 1152921504606846976; lia).
  unfold num_primes, primes_upto. rewrite Z2Nat.id by (unfold SIEVE_LIMIT; lia).
  reflexivity.
Qed.

End HarnessRuns.

Module ChecksumValue.

Lemma seeds_lookup n seed k :
  (k < n)%nat -> seeds n seed !! k = Some (Nat.iter (S k) Matrix.lcg seed).
Proof.
  revert seed k. induction n as [|n IH]; intros seed k Hk; [lia|].
  cbn [seeds]. destruct k as [|k]; [reflexivity|].
  cbn [lookup list_lookup]. rewrite IH by lia.
  now rewrite !Nat.iter_succ_r.
Qed.

Lemma fold_left_ext_in {A B} (f g : A -> B -> A) l a :
  (forall x acc, In x l -> f acc x = g acc x) -> fold_left f l a = fold_left g l a.
Proof.
  revert a. induction l as [|x l IH]; intros a H; [reflexivity|].
  cbn [fold_left]. rewrite (H x a) by now left.
  apply IH. intros y acc Hy. apply H. now right.
Qed.

(** The checksum of the kernel, for every size whose buffers fit the
    address space. *)
Lemma checksum_of_value M :
  1 <= M -> M * M < 2 ^ 61 -> checksum_of M = Done (checksum_value M).
Proof.
  intros HM Hsq.
  destruct (MatrixFacts.generated_spec M ltac:(nia)) as (A & B & Hgen & HA & HB & Hcell).
  destruct (MatrixFacts.product_is_reference M ltac:(lia) Hsq) as (A' & B' & Hgen' & Hprod).
  rewrite Hgen in Hgen'. injection Hgen' as <- <-.
  destruct (MatrixFacts.checksum_of_Done M HM Hsq) as (C & HC & _ & ->).
  rewrite Hprod in HC. injection HC as <-. f_equal.
  unfold sampled_sum, checksum_value. apply fold_left_ext_in.
  intros i acc Hi. unfold sampled_rows, rows_from in Hi.
  apply filter_In in Hi. destruct Hi as [Hi _].
  apply list_elem_of_In, elem_of_seqZ in Hi. f_equal.
  rewrite Z.mod_small by lia.
  rewrite (MatrixFacts.entry_lookup M _ i i _
             (MatrixFacts.reference_product_entry M A B i i ltac:(lia) ltac:(lia))).
  unfold dot, diagonal_entry. apply fold_left_ext_in.
  intros k sum Hk. apply list_elem_of_In, elem_of_seqZ in Hk.
  destruct (Hcell (i * M + k) ltac:(nia)) as [Ha _].
  destruct (Hcell (k * M + i) ltac:(nia)) as [_ Hb].
  rewrite (MatrixFacts.entry_lookup M A i k _ Ha).
  rewrite (MatrixFacts.entry_lookup M B k i _ Hb).
  rewrite !seeds_lookup by nia. cbn [default]. unfold id.
  replace (S (Z.to_nat (2 * (i * M + k)))) with (Z.to_nat (2 * (i * M + k) + 1)) by nia.
  replace (S (Z.to_nat (2 * (k * M + i) + 1))) with (Z.to_nat (2 * (k * M + i) + 2)) by nia.
  reflexivity.
Qed.

(** The checksum for the size that [main] passes: 31993.2748. *)
Lemma checksum_value_MAT_SIZE : checksum_value MAT_SIZE = 0x1.f3e519652bd3cp+14%float.
Proof. vm_compute. reflexivity. Qed.

End ChecksumValue.

(** X15.  The run of [main] when nothing fails.  If the four buffers are
    granted and the image file can be opened, standard output is exactly
    the eleven lines below, in this order: the sieve reports 9592 primes up
    to 100000, the matrix kernel prints the checksum 31993.2748, and with
    [c i] the i-th reading of the clock in the run, the sieve is timed by
    [c 1 - c 0], the multiplication by [c 4 - c 3] inside the kernel and by
    [c 5 - c 2] around its call, the image by [c 7 - c 6]; the summary
    repeats the count and the two times.  Nothing goes to standard error. *)
Theorem main_when_nothing_fails :
  forall e st,
    heap_ok e (mallocs st) = true -> three_granted e (count_malloc st) = true ->
    fopen_ok e outppm = true ->
    let c := fun i => clock e (ticks st + i)%nat in
    exists st',
      main e st = Done (0, st')
      /\ out st' =
           out st
             ++ [LBanner; LParams 100000 140 400 300; LSieveStart 100000;
                 LSieveFound 9592 100000 (c 1%nat - c 0%nat)%float;
                 LMatrixStart 140; LMatrixChecksum 0x1.f3e519652bd3cp+14%float;
                 LMatrixTook (c 4%nat - c 3%nat)%float (c 5%nat - c 2%nat)%float;
                 LMandelStart 400 300;
                 LMandelWrote "mandelbrot_test.ppm" (c 7%nat - c 6%nat)%float;
                 LSummaryHead;
                 LSummary 9592 (c 4%nat - c 3%nat)%float (c 7%nat - c 6%nat)%float]
      /\ err st' = err st
      /\ ticks st' = (ticks st + 8)%nat.
Proof.
  intros e st Hheap Hthree Hopen c.
  pose proof (ChecksumValue.checksum_of_value MAT_SIZE) as Hsum.
  rewrite ChecksumValue.checksum_value_MAT_SIZE in Hsum.
  specialize (Hsum ltac:(unfold MAT_SIZE; lia) ltac:(unfold MAT_SIZE; cbn; lia)).
  eexists.
  unfold main, pbind, print, now_seconds, ret. cbv beta iota.
  rewrite SieveFacts.sieve_count_primes_Done
    by (trivial; unfold SIEVE_LIMIT, SIEVE_BOUND; lia).
  cbv beta iota.
  rewrite MatrixFacts.matrix_mul_test_run by exact Hthree.
  rewrite Hsum. clear Hsum. cbv beta iota.
  rewrite MandelFacts.mandelbrot_ppm_run
    by (unfold MAN_WIDTH, MAN_HEIGHT, MAN_MAXITER, INT_MIN, INT_MAX; lia).
  rewrite Hopen. cbv beta iota.
  split; [reflexivity|].
  cbn [out err ticks mallocs fs add_out count_tick count_malloc with_file after_matrix].
  rewrite HarnessRuns.num_primes_SIEVE_LIMIT.
  unfold c. rewrite !Nat.add_succ_r, Nat.add_0_r.
  split; [|split; reflexivity].
  rewrite <- !app_assoc. reflexivity.
Qed.

Lemma main_when_nothing_fails_witness :
  exists st',
    main (env0 true) st0 = Done (0, st')
    /\ out st' =
         [LBanner; LParams 100000 140 400 300; LSieveStart 100000;
          LSieveFound 9592 100000 0%float;
          LMatrixStart 140; LMatrixChecksum 0x1.f3e519652bd3cp+14%float;
          LMatrixTook 0%float 0%float;
          LMandelStart 400 300;
          LMandelWrote "mandelbrot_test.ppm" 0%float;
          LSummaryHead;
          LSummary 9592 0%float 0%float].
Proof.
  destruct (main_when_nothing_fails (env0 true) st0)
    as (st' & Hrun & Hout & _); [reflexivity | reflexivity | reflexivity |].
  exists st'. split; [exact Hrun | exact Hout].
Defined.

Ltac finish_main :=
  eexists; split; [reflexivity|];
  match goal with |- context [fopen_ok ?e ?p] => destruct (fopen_ok e p) end;
  cbn [out err ticks mallocs fs add_out add_err count_tick count_malloc
       with_file after_matrix app];
  try (generalize (Mandel.bytes (Mandel.header MAN_WIDTH MAN_HEIGHT)
                     ++ raster MAN_WIDTH MAN_HEIGHT MAN_MAXITER);
       intros img);
  rewrite <- ?app_assoc, ?app_nil_r;
  (split; [reflexivity|]); (split; [lia|]);
  (split; [intros other Hne; try (rewrite lookup_insert_ne by congruence); reflexivity
          | intros Hf; (discriminate Hf || reflexivity)]).

(** X16.  What [main] leaves besides standard output, in every
    environment.  Standard error holds one diagnostic for each stage that
    failed, in the order of the stages, and nothing else.  The clock is read
    eight times, or six when the matrix buffers are refused (the kernel
    then returns before its own two readings).  No file other than
    [mandelbrot_test.ppm] changes, and none at all when that file cannot be
    opened. *)
Theorem main_diagnostics :
  forall e st, exists st',
    main e st = Done (0, st')
    /\ err st' =
         err st
           ++ (if heap_ok e (mallocs st) then [] else [sieve_diagnostic])
           ++ (if three_granted e (count_malloc st) then [] else [matrix_diagnostic])
           ++ (if fopen_ok e outppm then [] else [mandel_diagnostic])
    /\ ticks st' = (ticks st + (if three_granted e (count_malloc st) then 8 else 6))%nat
    /\ (forall other, other <> outppm -> fs st' !! other = fs st !! other)
    /\ (fopen_ok e outppm = false -> fs st' = fs st).
Proof.
  intros e st.
  destruct (MatrixFacts.checksum_of_Done MAT_SIZE) as (C & _ & _ & Hsum);
    [unfold MAT_SIZE; lia | unfold MAT_SIZE; cbn; lia |].
  unfold main, pbind, print, now_seconds, ret. cbv beta iota.
  destruct (heap_ok e (mallocs st)) eqn:Hheap.
  - rewrite SieveFacts.sieve_count_primes_Done
      by (trivial; unfold SIEVE_LIMIT, SIEVE_BOUND; lia).
    cbv beta iota.
    destruct (three_granted e (count_malloc st)) eqn:Hthree.
    + rewrite MatrixFacts.matrix_mul_test_run by exact Hthree.
      rewrite Hsum. clear Hsum. cbv beta iota.
      rewrite MandelFacts.mandelbrot_ppm_run
        by (unfold MAN_WIDTH, MAN_HEIGHT, MAN_MAXITER, INT_MIN, INT_MAX; lia).
      finish_main.
    + rewrite MatrixFacts.matrix_mul_test_failed by exact Hthree.
      clear Hsum. cbv beta iota.
      rewrite MandelFacts.mandelbrot_ppm_run
        by (unfold MAN_WIDTH, MAN_HEIGHT, MAN_MAXITER, INT_MIN, INT_MAX; lia).
      finish_main.
  - rewrite SieveFacts.sieve_count_primes_failed
      by (trivial; unfold SIEVE_LIMIT, INT_MIN, INT_MAX; lia).
    cbv beta iota.
    destruct (three_granted e (count_malloc st)) eqn:Hthree.
    + rewrite MatrixFacts.matrix_mul_test_run by exact Hthree.
      rewrite Hsum. clear Hsum. cbv beta iota.
      rewrite MandelFacts.mandelbrot_ppm_run
        by (unfold MAN_WIDTH, MAN_HEIGHT, MAN_MAXITER, INT_MIN, INT_MAX; lia).
      finish_main.
    + rewrite MatrixFacts.matrix_mul_test_failed by exact Hthree.
      clear Hsum. cbv beta iota.
      rewrite MandelFacts.mandelbrot_ppm_run
        by (unfold MAN_WIDTH, MAN_HEIGHT, MAN_MAXITER, INT_MIN, INT_MAX; lia).
      finish_main.
Qed.

(** ** MandelbrotRasterizer: the symmetry about the real axis *)

Module FloatMirror.

Lemma round_opp s m e l :
  binary_round_aux prec emax (negb s) m e l = SFopp (binary_round_aux prec emax s m e l).
Proof.
  unfold binary_round_aux.
  destruct (shr_fexp prec emax m e l) as [mrs' e'].
  destruct (shr_fexp prec emax _ e' loc_Exact) as [mrs'' e''].
  destruct (shr_m mrs''); [reflexivity | | reflexivity].
  destruct (e'' <=? emax - prec); reflexivity.
Qed.

Lemma normalize_opp S e :
  SFmirrored (binary_normalize prec emax S e false) (binary_normalize prec emax (- S) e false).
Proof.
  destruct S as [|p|p].
  - right. split; reflexivity.
  - left.
    change (binary_round prec emax true p e = SFopp (binary_round prec emax false p e)).
    unfold binary_round. destruct (shl_align p e _) as [mz ez].
    apply (round_opp false).
  - left.
    change (binary_round prec emax false p e = SFopp (binary_round prec emax true p e)).
    unfold binary_round. destruct (shl_align p e _) as [mz ez].
    rewrite (round_opp false). destruct (binary_round_aux _ _ _ _ _ _) as [[]|[]| |[] ? ?];
      reflexivity.
Qed.

Ltac mirror_cases :=
  first [ left; reflexivity | right; split; reflexivity ].

Lemma square_mirrored a b : SFmirrored a b -> SF64mul b b = SF64mul a a.
Proof.
  intros [-> | [Ha Hb]].
  - destruct a as [[]|[]| |[] m e]; reflexivity.
  - destruct a as [[]| | |]; try discriminate; destruct b as [[]| | |]; try discriminate;
      reflexivity.
Qed.

Lemma mul_mirrored_r a b b' :
  SFmirrored b b' -> SFmirrored (SF64mul a b) (SF64mul a b').
Proof.
  intros [-> | [Hb Hb']].
  - left.
    destruct a as [sa|sa| |sa ma ea], b as [sb|sb| |sb mb eb]; unfold SF64mul; cbn [SFmul SFopp];
      try reflexivity; try (destruct sa, sb; reflexivity).
    replace (xorb sa (negb sb)) with (negb (xorb sa sb)) by (destruct sa, sb; reflexivity).
    apply round_opp.
  - destruct b as [sb| | |]; try discriminate. destruct b' as [sb'| | |]; try discriminate.
    destruct a as [sa|sa| |sa ma ea]; unfold SF64mul; cbn [SFmul]; mirror_cases.
Qed.

Lemma mul_mirrored_l a a' k :
  SFmirrored a a' -> SFmirrored (SF64mul a k) (SF64mul a' k).
Proof.
  intros [-> | [Ha Ha']].
  - left.
    destruct a as [sa|sa| |sa ma ea], k as [sk|sk| |sk mk ek]; unfold SF64mul; cbn [SFmul SFopp];
      try reflexivity; try (destruct sa, sk; reflexivity).
    replace (xorb (negb sa) sk) with (negb (xorb sa sk)) by (destruct sa, sk; reflexivity).
    apply round_opp.
  - destruct a as [sa| | |]; try discriminate. destruct a' as [sa'| | |]; try discriminate.
    destruct k as [sk|sk| |sk mk ek]; unfold SF64mul; cbn [SFmul]; mirror_cases.
Qed.

Lemma add_mirrored p p' c c' :
  SFmirrored p p' -> SFmirrored c c' -> SFmirrored (SF64add p c) (SF64add p' c').
Proof.
  intros [-> | [Hp Hp']] [-> | [Hc Hc']].
  - destruct p as [sp|sp| |sp mp ep], c as [sc|sc| |sc mc ec]; unfold SF64add; cbn [SFadd SFopp];
      try mirror_cases; try (destruct sp, sc; mirror_cases).
    set (ez := Z.min ep ec).
    replace (cond_Zopp (negb sp) (Zpos (fst (shl_align mp ep ez)))
               + cond_Zopp (negb sc) (Zpos (fst (shl_align mc ec ez))))
      with (- (cond_Zopp sp (Zpos (fst (shl_align mp ep ez)))
                 + cond_Zopp sc (Zpos (fst (shl_align mc ec ez)))))
      by (destruct sp, sc; cbn [cond_Zopp negb]; lia).
    apply normalize_opp.
  - destruct c as [sc| | |]; try discriminate. destruct c' as [sc'| | |]; try discriminate.
    destruct p as [sp|sp| |sp mp ep]; unfold SF64add; cbn [SFadd SFopp];
      try mirror_cases; destruct sp, sc, sc'; mirror_cases.
  - destruct p as [sp| | |]; try discriminate. destruct p' as [sp'| | |]; try discriminate.
    destruct c as [sc|sc| |sc mc ec]; unfold SF64add; cbn [SFadd SFopp];
      try mirror_cases; destruct sp, sp', sc; mirror_cases.
  - destruct p as [sp| | |]; try discriminate. destruct p' as [sp'| | |]; try discriminate.
    destruct c as [sc| | |]; try discriminate. destruct c' as [sc'| | |]; try discriminate.
    destruct sp, sp', sc, sc'; mirror_cases.
Qed.

End FloatMirror.

Module MandelMirror.
Import Mandel.

Lemma mirrored_zero : mirrored 0 0.
Proof. right. split; reflexivity. Qed.

Lemma mirrored_opp a : mirrored a (- a).
Proof. left. apply opp_spec. Qed.

Lemma square_eq a b : mirrored a b -> (b * b)%float = (a * a)%float.
Proof.
  intros H. apply Prim2SF_inj. rewrite !mul_spec. now apply FloatMirror.square_mirrored.
Qed.

(** Two runs of the loop whose [cy] and [zy] are mirrored and which agree
    on everything else take the same number of steps. *)
Lemma escape_mirrored fuel maxiter cx cy cy' zx zy zy' iter :
  mirrored cy cy' -> mirrored zy zy' ->
  escape fuel maxiter cx cy' zx zy' iter = escape fuel maxiter cx cy zx zy iter.
Proof.
  intros Hc. revert zx zy zy' iter.
  induction fuel as [|fuel IH]; intros zx zy zy' iter Hz; [reflexivity|].
  cbn [escape]. rewrite (square_eq zy zy' Hz).
  destruct ((zx * zx + zy * zy <=? 4)%float && (iter <? maxiter)); [|reflexivity].
  destruct (add_int iter 1) as [iter'| |]; try reflexivity. cbn [bind].
  apply IH. unfold mirrored. rewrite !add_spec, !mul_spec.
  apply FloatMirror.add_mirrored; [|exact Hc].
  apply FloatMirror.mul_mirrored_r. exact Hz.
Qed.

End MandelMirror.

Module FloatHalves.

Lemma round_exact_signed s m e k p e0 :
  Zpos (digits2_pos m) = 53 -> -1074 <= e <= 971 -> 0 <= k ->
  Zpos p = Zpos m * 2 ^ k -> e0 = e - k ->
  binary_round_aux prec emax s (Zpos p) e0 loc_Exact = S754_finite s m e.
Proof.
  intros Hd He Hk Hp ->. destruct s.
  - rewrite (FloatMirror.round_opp false), (FloatFacts.round_exact m e k Hd He Hk p Hp).
    reflexivity.
  - now apply FloatFacts.round_exact.
Qed.

(** Rounding a number that has the value of a canonical one. *)
Lemma round_canonical s p e m t :
  Zpos (digits2_pos m) = 53 -> -1074 <= t <= 971 ->
  (e <= t -> Zpos p = Zpos m * 2 ^ (t - e)) ->
  (t <= e -> Zpos m = Zpos p * 2 ^ (e - t)) ->
  binary_round prec emax s p e = S754_finite s m t.
Proof.
  intros Hd Ht Hlow Hhigh. unfold binary_round.
  assert (Hdp : Zpos (digits2_pos p) + e = 53 + t).
  { destruct (Z_le_gt_dec e t) as [Hle | Hgt].
    - rewrite (FloatFacts.digits_shift m (t - e) p ltac:(lia) (Hlow Hle)). lia.
    - pose proof (FloatFacts.digits_shift p (e - t) m ltac:(lia) (Hhigh ltac:(lia))). lia. }
  rewrite Hdp. unfold fexp, SpecFloat.emin.
  replace (Z.max (53 + t - prec) (3 - emax - prec)) with t by (unfold prec, emax; lia).
  destruct (Z_le_gt_dec e t) as [Hle | Hgt].
  - assert (Hal : shl_align p e t = (p, e)).
    { unfold shl_align. destruct (t - e) eqn:Ed; try reflexivity. lia. }
    rewrite Hal.
    apply (round_exact_signed s m t (t - e)); trivial; lia.
  - assert (Hal : shl_align p e t = (m, t)).
    { unfold shl_align. destruct (t - e) as [|d|d] eqn:Ed; try lia.
      f_equal. apply Pos2Z.inj. rewrite FloatFacts.iter_xO, (Hhigh ltac:(lia)).
      f_equal. f_equal. lia. }
    rewrite Hal.
    apply (round_exact_signed s m t 0); trivial; lia.
Qed.

(** The same half-integer written with more trailing zero bits rounds to
    the same number. *)
Lemma normalize_scaled N j :
  Z.abs N < 2 ^ 53 -> 0 <= j ->
  binary_normalize prec emax (N * 2 ^ j) (-1 - j) false
    = binary_normalize prec emax N (-1) false.
Proof.
  intros HN Hj.
  assert (H2 : 0 < 2 ^ j) by (apply Z.pow_pos_nonneg; lia).
  assert (Hcanon : forall (s : bool) (n : positive) (P : positive),
            Zpos n < 2 ^ 53 -> Zpos P = Zpos n * 2 ^ j ->
            binary_round prec emax s P (-1 - j) = binary_round prec emax s n (-1)).
  { intros s n P Hn HP.
    pose proof (FloatFacts.digits_bounds n) as Hb.
    set (d := Zpos (digits2_pos n)) in *.
    assert (Hd : 1 <= d <= 53).
    { split; [unfold d; lia|].
      destruct (Z_le_gt_dec d 53); [assumption|].
      assert (2 ^ 53 <= 2 ^ (d - 1)) by (apply Z.pow_le_mono_r; lia). lia. }
    assert (H3 : 0 < 2 ^ (53 - d)) by (apply Z.pow_pos_nonneg; lia).
    assert (Hex : exists m, Zpos m = Zpos n * 2 ^ (53 - d)).
    { exists (Z.to_pos (Zpos n * 2 ^ (53 - d))). apply Z2Pos.id. lia. }
    destruct Hex as [m Hm].
    assert (Hdm : Zpos (digits2_pos m) = 53)
      by (rewrite (FloatFacts.digits_shift n (53 - d) m ltac:(lia) Hm); fold d; lia).
    rewrite (round_canonical s P (-1 - j) m (d - 54)),
            (round_canonical s n (-1) m (d - 54)); trivial; try lia.
    - intros Hcmp. replace (d - 54 - -1) with 0 by lia.
      replace (53 - d) with 0 in Hm by lia. lia.
    - intros Hcmp. rewrite Hm. f_equal. f_equal. lia.
    - intros Hcmp. rewrite HP, Hm, <- Z.mul_assoc, <- Z.pow_add_r by lia.
      f_equal. f_equal. lia.
    - intros Hcmp. rewrite HP, Hm, <- Z.mul_assoc, <- Z.pow_add_r by lia.
      f_equal. f_equal. lia. }
  destruct N as [|n|n].
  - reflexivity.
  - assert (Hex : exists P, Zpos P = Zpos n * 2 ^ j).
    { exists (Z.to_pos (Zpos n * 2 ^ j)). apply Z2Pos.id. lia. }
    destruct Hex as [P HP]. rewrite <- HP. cbn [binary_normalize].
    apply Hcanon; [lia | exact HP].
  - assert (Hex : exists P, Zpos P = Zpos n * 2 ^ j).
    { exists (Z.to_pos (Zpos n * 2 ^ j)). apply Z2Pos.id. lia. }
    destruct Hex as [P HP].
    replace (Zneg n * 2 ^ j) with (Zneg P) by lia. cbn [binary_normalize].
    apply Hcanon; [lia | exact HP].
Qed.

End FloatHalves.

Module PointMirror.

Lemma prim_half : Prim2SF 0.5 = S754_finite false 4503599627370496 (-53).
Proof. vm_compute. reflexivity. Qed.

(** A positive [int] as a double, and its half. *)
Lemma half_double h :
  0 < h < 2 ^ 53 ->
  exists m e,
    Prim2SF (double_of_int h) = S754_finite false m e
    /\ Prim2SF (0.5 * double_of_int h) = S754_finite false m (e - 1)
    /\ -52 <= e <= 0 /\ Zpos m = h * 2 ^ (- e).
Proof.
  intros Hh.
  pose proof (FloatFacts.normalize_int h Hh) as (m & e & Hx & Hd & He & Hm).
  rewrite <- FloatFacts.double_of_int_nonneg in Hx by lia.
  exists m, e. split; [exact Hx|]. split; [|split; assumption].
  rewrite mul_spec, Hx, prim_half. unfold SF64mul. cbn [SFmul xorb].
  replace (-53 + e) with ((e - 1) - 52) by lia.
  apply FloatFacts.round_exact; trivial; [lia | lia |].
  rewrite Pos2Z.inj_mul. change (2 ^ 52) with 4503599627370496. lia.
Qed.

(** [y - h/2] is computed exactly: it is the double of the half-integer
    [(2y - h) / 2]. *)
Lemma sub_half y h :
  0 < y < 2 ^ 31 -> 0 < h < 2 ^ 31 ->
  Prim2SF (double_of_int y - 0.5 * double_of_int h)
    = binary_normalize prec emax (2 * y - h) (-1) false.
Proof.
  intros Hy Hh.
  assert (H31 : 2 ^ 31 < 2 ^ 53) by (cbn; lia).
  pose proof (FloatFacts.normalize_int y ltac:(lia)) as (my & ey & Hx & _ & Hey & Hmy).
  rewrite <- FloatFacts.double_of_int_nonneg in Hx by lia.
  destruct (half_double h ltac:(lia)) as (mh & eh & _ & Hhalf & Heh & Hmh).
  rewrite sub_spec, Hx, Hhalf. unfold SF64sub. cbn [SFsub cond_Zopp].
  set (ez := Z.min ey (eh - 1)).
  rewrite !FloatFacts.shl_align_value by lia.
  assert (HD : Zpos my * 2 ^ (ey - ez) - Zpos mh * 2 ^ (eh - 1 - ez)
               = (2 * y - h) * 2 ^ (-1 - ez)).
  { rewrite Hmy, Hmh, <- !Z.mul_assoc, <- !Z.pow_add_r by lia.
    replace (- ey + (ey - ez)) with (Z.succ (-1 - ez)) by lia.
    replace (- eh + (eh - 1 - ez)) with (-1 - ez) by lia.
    rewrite Z.pow_succ_r by lia. lia. }
  rewrite HD.
  replace ez with (-1 - (-1 - ez)) at 2 by lia.
  apply FloatHalves.normalize_scaled; [|lia].
  change (2 ^ 31) with 2147483648 in *. change (2 ^ 53) with 9007199254740992. lia.
Qed.

(** Rows [y] and [height - y] stand for conjugate points. *)
Lemma point_mirrored width height x y :
  0 < y < height -> height <= INT_MAX ->
  fst (Mandel.point width height x (height - y)) = fst (Mandel.point width height x y)
  /\ mirrored (snd (Mandel.point width height x y))
              (snd (Mandel.point width height x (height - y))).
Proof.
  intros Hy Hh. unfold INT_MAX in Hh. split; [reflexivity|].
  unfold Mandel.point. cbn [snd]. unfold mirrored.
  rewrite !mul_spec. apply FloatMirror.mul_mirrored_l.
  rewrite !sub_half by (change (2 ^ 31) with 2147483648; lia).
  replace (2 * (height - y) - height) with (- (2 * y - height)) by lia.
  apply FloatMirror.normalize_opp.
Qed.

End PointMirror.

(** X17.  The image is symmetric about the real axis.  The rows [y] and
    [height - y] stand for complex-conjugate points: [y - height/2] is
    computed without rounding error and every later operation rounds a
    number and its negative alike, so the two orbits mirror each other and
    leave the disc at the same step.  Hence for [0 < y < height] the pixels
    [(x, y)] and [(x, height - y)] have the same iteration count and the
    same bytes, for every [maxiter], and the two rows of the file are equal
    byte for byte.  More generally, the loop takes as many steps from
    [cx - i cy] as from [cx + i cy]. *)
Theorem image_symmetric_about_real_axis :
  forall width height maxiter x y,
    0 < y < height -> height <= INT_MAX ->
    Mandel.iterations width height maxiter x (height - y)
      = Mandel.iterations width height maxiter x y
    /\ Mandel.pixel width height maxiter x (height - y)
         = Mandel.pixel width height maxiter x y
    /\ (INT_MIN <= maxiter <= INT_MAX ->
        let row := (3 * Z.to_nat width)%nat in
        take row (drop (row * Z.to_nat (height - y)) (raster width height maxiter))
          = take row (drop (row * Z.to_nat y) (raster width height maxiter)))
    /\ (forall fuel cx cy,
          Mandel.escape fuel maxiter cx (- cy) 0 0 0
            = Mandel.escape fuel maxiter cx cy 0 0 0).
Proof.
  intros width height maxiter x y Hy Hh.
  assert (Hit : forall x', Mandel.iterations width height maxiter x' (height - y)
                           = Mandel.iterations width height maxiter x' y).
  { intros x'.
    destruct (PointMirror.point_mirrored width height x' y Hy Hh) as [Hx Hm].
    unfold Mandel.iterations.
    destruct (Mandel.point width height x' (height - y)) as [cx' cy'].
    destruct (Mandel.point width height x' y) as [cx cy].
    cbn [fst snd] in Hx, Hm. subst cx'.
    apply MandelMirror.escape_mirrored; [exact Hm | apply MandelMirror.mirrored_zero]. }
  split; [apply Hit|]. split; [|split].
  - unfold Mandel.pixel. now rewrite Hit.
  - intros Hm row. unfold raster.
    set (bytes_of := fun y' => flat_map (fun x' => pixel_bytes width height maxiter x' y')
                                 (seqZ 0 width)).
    assert (Hrow : forall y', length (bytes_of y') = row).
    { intros y'. unfold bytes_of, row.
      rewrite (flat_map_length_blocks _ 3), length_seqZ; [reflexivity|].
      intros x'. now apply MandelFacts.pixel_bytes_length. }
    rewrite (flat_map_block bytes_of row (seqZ 0 height) (Z.to_nat (height - y))
               (height - y) Hrow)
      by (rewrite lookup_seqZ_lt by lia; f_equal; lia).
    rewrite (flat_map_block bytes_of row (seqZ 0 height) (Z.to_nat y) y Hrow)
      by (rewrite lookup_seqZ_lt by lia; f_equal; lia).
    unfold bytes_of. apply flat_map_ext. intros x'.
    unfold pixel_bytes, Mandel.pixel. now rewrite Hit.
  - intros fuel cx cy.
    apply MandelMirror.escape_mirrored;
      [apply MandelMirror.mirrored_opp | apply MandelMirror.mirrored_zero].
Qed.

Lemma image_symmetric_about_real_axis_witness :
  0 < 100 < 300 /\ 300 <= INT_MAX
  /\ Mandel.pixel 400 300 256 120 200 = Done [11; 33; 77].
Proof.
  split; [lia|]. split; [unfold INT_MAX; lia|].
  destruct (image_symmetric_about_real_axis 400 300 256 120 100)
    as (_ & Hpix & _ & _); [lia | unfold INT_MAX; lia |].
  change (300 - 100) with 200 in Hpix. rewrite Hpix. vm_compute. reflexivity.
Defined.

(** ** Harness: the durations *)

Ltac finish_durations Hmono :=
  match goal with |- context [fopen_ok ?e ?p] => destruct (fopen_ok e p) end;
  (eexists _, _; split; [reflexivity|];
   cbn [out err ticks mallocs fs add_out add_err count_tick count_malloc
        with_file after_matrix];
   split; [rewrite <- !app_assoc; cbn [app]; reflexivity|];
   cbn [forallb duration_ok]; unfold not_negative;
   rewrite !FloatFacts.sub_not_negative by (apply Hmono; lia);
   reflexivity).

(** X18.  With a clock that never goes backwards (the program reads
    [CLOCK_MONOTONIC]), no duration that [main] prints is negative: not the
    three times measured around the stages, nor the time measured inside
    the matrix kernel.  The only negative number that can appear in their
    place is the [-1] that the matrix kernel returns when its buffers are
    refused. *)
Theorem main_reports_no_negative_duration :
  forall e st,
    (forall i j, (i <= j)%nat -> (clock e i <=? clock e j)%float = true) ->
    exists st' lines,
      main e st = Done (0, st')
      /\ out st' = out st ++ lines
      /\ forallb duration_ok lines = true.
Proof.
  intros e st Hmono.
  destruct (MatrixFacts.checksum_of_Done MAT_SIZE) as (C & _ & _ & Hsum);
    [unfold MAT_SIZE; lia | unfold MAT_SIZE; cbn; lia |].
  unfold main, pbind, print, now_seconds, ret. cbv beta iota.
  destruct (heap_ok e (mallocs st)) eqn:Hheap.
  - rewrite SieveFacts.sieve_count_primes_Done
      by (trivial; unfold SIEVE_LIMIT, SIEVE_BOUND; lia).
    cbv beta iota.
    destruct (three_granted e (count_malloc st)) eqn:Hthree.
    + rewrite MatrixFacts.matrix_mul_test_run by exact Hthree.
      rewrite Hsum. clear Hsum. cbv beta iota.
      rewrite MandelFacts.mandelbrot_ppm_run
        by (unfold MAN_WIDTH, MAN_HEIGHT, MAN_MAXITER, INT_MIN, INT_MAX; lia).
      finish_durations Hmono.
    + rewrite MatrixFacts.matrix_mul_test_failed by exact Hthree.
      clear Hsum. cbv beta iota.
      rewrite MandelFacts.mandelbrot_ppm_run
        by (unfold MAN_WIDTH, MAN_HEIGHT, MAN_MAXITER, INT_MIN, INT_MAX; lia).
      finish_durations Hmono.
  - rewrite SieveFacts.sieve_count_primes_failed
      by (trivial; unfold SIEVE_LIMIT, INT_MIN, INT_MAX; lia).
    cbv beta iota.
    destruct (three_granted e (count_malloc st)) eqn:Hthree.
    + rewrite MatrixFacts.matrix_mul_test_run by exact Hthree.
      rewrite Hsum. clear Hsum. cbv beta iota.
      rewrite MandelFacts.mandelbrot_ppm_run
        by (unfold MAN_WIDTH, MAN_HEIGHT, MAN_MAXITER, INT_MIN, INT_MAX; lia).
      finish_durations Hmono.
    + rewrite MatrixFacts.matrix_mul_test_failed by exact Hthree.
      clear Hsum. cbv beta iota.
      rewrite MandelFacts.mandelbrot_ppm_run
        by (unfold MAN_WIDTH, MAN_HEIGHT, MAN_MAXITER, INT_MIN, INT_MAX; lia).
      finish_durations Hmono.
Qed.

Lemma main_reports_no_negative_duration_witness :
  exists st' lines,
    main (env0 true) st0 = Done (0, st')
    /\ out st' = out st0 ++ lines
    /\ forallb duration_ok lines = true.
Proof.
  apply (main_reports_no_negative_duration (env0 true) st0).
  intros i j _. reflexivity.
Defined.

(** ** MatrixMultiplier: what the checksum samples *)

Module SampleFacts.

Lemma rows_from_length M s :
  0 < s ->
  forall (n : nat) i, i mod s = 0 -> M - i <= Z.of_nat n ->
    Z.of_nat (length (rows_from M s i)) = Z.max 0 ((M - i + s - 1) / s).
Proof.
  intros Hs. induction n as [|n IH]; intros i Hi Hn.
  - rewrite MatrixFacts.rows_from_nil by lia. cbn [length].
    assert ((M - i + s - 1) / s <= 0); [|lia].
    apply Z.lt_succ_r. apply Z.div_lt_upper_bound; lia.
  - destruct (Z_le_gt_dec M i) as [Hle | Hgt].
    + rewrite MatrixFacts.rows_from_nil by lia. cbn [length].
      assert ((M - i + s - 1) / s <= 0); [|lia].
      apply Z.lt_succ_r. apply Z.div_lt_upper_bound; lia.
    + rewrite MatrixFacts.rows_from_step by (trivial; lia). cbn [length].
      rewrite Nat2Z.inj_succ, IH.
      * replace (M - i + s - 1) with ((M - (i + s) + s - 1) + 1 * s) by lia.
        rewrite Z.div_add by lia.
        assert (0 <= (M - (i + s) + s - 1) / s) by (apply Z.div_pos; lia). lia.
      * rewrite <- (Z.mul_1_l s) at 1. now rewrite Z_mod_plus_full.
      * lia.
Qed.

End SampleFacts.

(** X19.  What the checksum samples.  Since [i % M] is [i] for every row
    [i] of the loop, the entries that are added are diagonal entries
    [C[i,i]], in increasing order of [i].  For [M <= 8] all rows are
    sampled and the checksum is the trace of [C]; for [M >= 8] between 8
    and 15 rows are sampled, whatever the size. *)
Theorem checksum_samples_the_diagonal :
  forall M, 1 <= M <= INT_MAX ->
    (forall C c, Matrix.checksum M C = Done c ->
       c = fold_left (fun acc i => (acc + entry M C i i)%float) (sampled_rows M) 0%float)
    /\ (M <= 8 -> sampled_rows M = seqZ 0 M)
    /\ (8 <= M -> 8 <= Z.of_nat (length (sampled_rows M)) <= 15).
Proof.
  intros M HM. split; [|split].
  - intros C c Hrun. rewrite (MatrixFacts.checksum_sum M C c HM Hrun).
    unfold sampled_sum. apply ChecksumValue.fold_left_ext_in.
    intros i acc Hi. unfold sampled_rows, rows_from in Hi.
    apply filter_In in Hi. destruct Hi as [Hi _].
    apply list_elem_of_In, elem_of_seqZ in Hi.
    now rewrite Z.mod_small by lia.
  - intros H8. unfold sampled_rows, rows_from.
    assert (Hs : Z.max 1 (M / 8) = 1).
    { assert (M / 8 <= 1) by (apply Z.div_le_upper_bound; lia). lia. }
    rewrite Hs, Z.sub_0_r.
    rewrite (List.filter_ext _ (fun _ => true)) by (intros r; now rewrite Z.mod_1_r).
    induction (seqZ 0 M) as [|r l IH]; [reflexivity|].
    cbn [List.filter]. now rewrite IH.
  - intros H8. unfold sampled_rows.
    assert (Hq : 1 <= M / 8) by (apply Z.div_le_lower_bound; lia).
    assert (Hs : Z.max 1 (M / 8) = M / 8) by lia.
    rewrite Hs.
    rewrite (SampleFacts.rows_from_length M (M / 8) ltac:(lia) (Z.to_nat M) 0)
      by (try apply Z.mod_0_l; lia).
    pose proof (Z.div_mod M 8 ltac:(lia)) as Hdm.
    pose proof (Z.mod_pos_bound M 8 ltac:(lia)) as Hr.
    rewrite Z.sub_0_r.
    assert (8 <= (M + M / 8 - 1) / (M / 8)) by (apply Z.div_le_lower_bound; lia).
    assert ((M + M / 8 - 1) / (M / 8) < 16) by (apply Z.div_lt_upper_bound; lia).
    lia.
Qed.

Lemma checksum_samples_the_diagonal_witness :
  1 <= 140 <= INT_MAX
  /\ 8 <= Z.of_nat (length (sampled_rows 140)) <= 15
  /\ sampled_rows 140 = [0; 17; 34; 51; 68; 85; 102; 119; 136].
Proof.
  split; [unfold INT_MAX; lia|]. split; [|reflexivity].
  apply (checksum_samples_the_diagonal 140); [unfold INT_MAX; lia | lia].
Defined.

(** ** Buffers are written before they are read *)

(** X20.  No kernel reads a cell of a buffer that it has not written: the
    flag array after the marking phase and the three matrices after
    initialisation are the same whatever the buffers held when [malloc]
    returned them. *)
Theorem results_ignore_initial_contents :
  (forall limit buf,
     0 <= limit < INT_MAX -> Z.of_nat (length buf) = limit + 1 ->
     Sieve.sieve_marks limit (limit + 1) buf
       = Sieve.sieve_marks limit (limit + 1) (replicate (Z.to_nat (limit + 1)) 0))
  /\ (forall M A0 B0 C0,
        0 <= M * M < 2 ^ 61 ->
        Z.of_nat (length A0) = M * M -> Z.of_nat (length B0) = M * M ->
        Z.of_nat (length C0) = M * M ->
        Matrix.init M (A0, B0, C0) = generated M).
Proof.
  split.
  - intros limit buf Hlim Hlen. unfold INT_MAX in Hlim.
    unfold Sieve.sieve_marks, memset.
    rewrite size_t_of_small by lia. rewrite length_replicate.
    destruct (limit + 1 <=? Z.of_nat (length buf)) eqn:E1; [|apply Z.leb_gt in E1; lia].
    destruct (limit + 1 <=? Z.of_nat (Z.to_nat (limit + 1))) eqn:E2;
      [|apply Z.leb_gt in E2; lia].
    rewrite (drop_ge buf) by lia. rewrite drop_replicate, Nat.sub_diag. reflexivity.
  - intros M A0 B0 C0 Hsq HA HB HC.
    destruct (MatrixFacts.generated_spec M Hsq) as (A & B & -> & HA' & HB' & Hcell).
    unfold Matrix.init. rewrite MatrixFacts.cells_square by lia.
    destruct (MatrixFacts.init_loop_spec (S (Z.to_nat (M * M))) (M * M) 0 Matrix.SEED A0 B0 C0)
      as (A1 & B1 & C1 & -> & HA1 & HB1 & HC1 & Hnew & _); try lia.
    assert (Heq : forall (X Y : list float),
              Z.of_nat (length X) = M * M -> Z.of_nat (length Y) = M * M ->
              (forall idx, 0 <= idx < M * M -> X !! Z.to_nat idx = Y !! Z.to_nat idx) ->
              X = Y).
    { intros X Y HX HY Hall. apply list_eq. intros k.
      destruct (Nat.lt_ge_cases k (Z.to_nat (M * M))) as [Hlt | Hge].
      - specialize (Hall (Z.of_nat k) ltac:(lia)). now rewrite Nat2Z.id in Hall.
      - rewrite !(proj2 (lookup_ge_None _ _)) by lia. reflexivity. }
    do 2 f_equal; [f_equal|]; apply Heq; trivial; rewrite ?length_replicate; try lia.
    + intros idx Hidx. destruct (Hnew idx Hidx) as (-> & _ & _).
      destruct (Hcell idx Hidx) as [-> _]. now rewrite Z.sub_0_r.
    + intros idx Hidx. destruct (Hnew idx Hidx) as (_ & -> & _).
      destruct (Hcell idx Hidx) as [_ ->]. now rewrite Z.sub_0_r.
    + intros idx Hidx. destruct (Hnew idx Hidx) as (_ & _ & ->).
      symmetry. apply lookup_replicate_2. lia.
Qed.

Lemma results_ignore_initial_contents_witness :
  Sieve.sieve_marks 3 4 [7; 7; 7; 7] = Sieve.sieve_marks 3 4 [0; 0; 0; 0]
  /\ Matrix.init 1 ([5%float], [6%float], [7%float]) = generated 1.
Proof.
  destruct results_ignore_initial_contents as [Hsieve Hmatrix]. split.
  - apply (Hsieve 3 [7; 7; 7; 7]); [unfold INT_MAX; lia | reflexivity].
  - apply (Hmatrix 1 [5%float] [6%float] [7%float]); [lia | reflexivity..].
Defined.
